(** * Custodial key-derivation and auto-sweep engine: a shallow embedding

    The development follows the three JavaScript modules of the wallet bot:

    - [Database]  : the relational store (users, addresses, transactions),
                    with the constraints of its schema;
    - [WalletManager] : HD-wallet derivation, balance reads, transfers and
                    [sweepToMasterWallet];
    - [Server]    : [performSweep], the address-generation route and the
                    bot's [handleGenerate].

    An asynchronous function of the source becomes a computation in a
    state-and-exception monad [M]: its awaits run one after the other.
    Calls that leave the process (chain node, crypto libraries, environment
    variables, the order in which the store returns rows) are answered by a
    [World] record of oracles, and every call to the chain is appended to a
    trace so that theorems can say what was submitted, in which order.

    JavaScript numbers that carry amounts are IEEE 754 binary64 values, the
    primitive floats of the Standard Library ([number := float]), with the
    operations of the processor; what is proved about them in general goes
    through the library's specification of these operations.

    Two requests can overlap at an [await].  Where that matters for the
    tables, the rest of a request is a step of its own: an
    address-generation request after its reads (see [Command]), a cycle
    after it has enumerated the addresses (see [Reachable]).  Console
    logging, messages of the bot other than the sweep notification, the
    one-second pause between addresses and wall-clock measurements have no
    effect on the state observed by the theorems and are left out. *)

From Stdlib Require Import ZArith QArith Qround List String Ascii Bool Lia.
From Stdlib Require Import DecimalString DecimalZ FinFun Floats.
Import ListNotations.

Local Open Scope string_scope.
Local Open Scope list_scope.
Local Open Scope Z_scope.

#[local] Set Warnings "-inexact-float".

(* ------------------------------------------------------------------ *)
(** ** JavaScript numbers used as amounts *)

Definition number := float.

Definition js_add (a b : number) : number := PrimFloat.add a b.
Definition js_sub (a b : number) : number := PrimFloat.sub a b.
Definition js_mul (a b : number) : number := PrimFloat.mul a b.
Definition js_div (a b : number) : number := PrimFloat.div a b.

(** [a >= b] and [a > b]; both are false when an operand is [NaN]. *)
Definition js_ge (a b : number) : bool := PrimFloat.leb b a.
Definition js_gt (a b : number) : bool := PrimFloat.ltb b a.

(** The number an integer becomes: the nearest double, ties to even. *)
Definition number_of_Z (z : Z) : number :=
  SF2Prim (binary_normalize prec emax z 0 false).

(** [Math.floor]: a double that is an integer, an infinity, a zero or [NaN]
    is returned as it is; otherwise the value is [m * 2^e] with [e < 0], and
    the greatest integer below it has fewer than 53 bits. *)
Definition Math_floor (a : number) : number :=
  match Prim2SF a with
  | S754_finite negative m e =>
      if 0 <=? e then a
      else if negative
      then number_of_Z (- ((Z.pos m + 2 ^ (- e) - 1) / 2 ^ (- e)))
      else number_of_Z (Z.pos m / 2 ^ (- e))
  | _ => a
  end.

(** The exact value of a finite double *)
Definition exact_value (a : number) : option Q :=
  match Prim2SF a with
  | S754_zero _ => Some 0%Q
  | S754_finite negative m e =>
      let v := if 0 <=? e then inject_Z (Z.pos m * 2 ^ e)
               else (Z.pos m # Z.to_pos (2 ^ (- e)))%Q in
      Some (if negative then (- v)%Q else v)
  | _ => None
  end.

(* ------------------------------------------------------------------ *)
(** ** Exceptions and the state monad *)

Inductive Error : Type :=
| ER_DUP_ENTRY (key : string)          (* MySQL: UNIQUE constraint violated *)
| ER_NO_REFERENCED_ROW (key : string)  (* MySQL: FOREIGN KEY violated *)
| ER_BIND_UNDEFINED                    (* mysql2: a bind parameter is undefined *)
| ChainError (message : string)        (* thrown by the chain client *)
| LibraryError (message : string)      (* thrown by bip39 / hdkey / crypto-js *)
| TypeError (message : string)         (* property read on null *)
| StoreError (code : string).          (* mysql2: the query could not be run *)

Definition Result (A : Type) : Type := (A + Error)%type.

Definition M (S A : Type) : Type := S -> Result A * S.

Definition ret {S A} (a : A) : M S A := fun s => (inl a, s).

Definition throw {S A} (e : Error) : M S A := fun s => (inr e, s).

Definition bind {S A B} (m : M S A) (k : A -> M S B) : M S B :=
  fun s => match m s with
           | (inl a, s') => k a s'
           | (inr e, s') => (inr e, s')
           end.

(** [try { m } catch (error) { h error }]: the state reached when the
    exception was thrown is kept, as in JavaScript. *)
Definition try_catch {S A} (m : M S A) (h : Error -> M S A) : M S A :=
  fun s => match m s with
           | (inl a, s') => (inl a, s')
           | (inr e, s') => h e s'
           end.

Definition get {S} : M S S := fun s => (inl s, s).
Definition modify {S} (f : S -> S) : M S unit := fun s => (inl tt, f s).
Definition lift_result {S A} (r : Result A) : M S A := fun s => (r, s).

Declare Scope js_scope.
Delimit Scope js_scope with js.
Notation "x <- m ;; k" := (bind m (fun x => k))
  (at level 100, m at next level, right associativity) : js_scope.
Notation "m ;;; k" := (bind m (fun _ => k))
  (at level 100, right associativity) : js_scope.

(** [for (const x of xs) { body x }] *)
Fixpoint for_of {S A} (xs : list A) (body : A -> M S unit) : M S unit :=
  match xs with
  | [] => ret tt
  | x :: rest => bind (body x) (fun _ => for_of rest body)
  end.

Definition raised {A S} (r : Result A * S) : bool :=
  match fst r with inl _ => false | inr _ => true end.

(* ------------------------------------------------------------------ *)
(** ** Values shared by the modules *)

Inductive TokenKind : Type := USDT | TRX.            (* tx.type *)
Inductive TxStatus : Type := pending | confirmed | failed.
Inductive TxType : Type := deposit | sweep | withdrawal.

(** A bind parameter of a statement: a string, SQL [NULL] or JavaScript
    [undefined] (which mysql2 refuses). *)
Inductive SqlText : Type :=
| SqlUndefined
| SqlNull
| SqlString (s : string).

Definition of_env (v : option string) : SqlText :=
  match v with Some s => SqlString s | None => SqlUndefined end.

(** What a transfer call resolves to, as far as the code reads it:
    [tx.txid] and [tx.transaction?.txID].  On a reply that is a string, which
    is what [contract.transfer(...).send(...)] resolves to, both reads give
    [undefined]. *)
Record TxResponse : Type := mkTxResponse {
  txid : option string;
  transaction_txID : option string
}.

(** [a || b] on possibly-undefined strings: the empty string is falsy. *)
Definition js_or (a b : option string) : option string :=
  match a with
  | Some s => if String.eqb s "" then b else Some s
  | None => b
  end.

(** The two places of a sweep cycle at which balances of an address are
    read: the gate in [performSweep] and the read in [sweepToMasterWallet]. *)
Inductive Site : Type := AtGate | AtSweep.

Inductive Event : Type :=
| EvGetAccountInfo (site : Site) (address : string)
| EvTransferUSDT (fromPrivateKey : string) (toAddress : option string)
                 (amountInContractFormat : number) (feeLimit : Z) (accepted : bool)
| EvTransferTRX (fromPrivateKey : string) (toAddress : option string)
                (amount : number) (accepted : bool)
| EvNotify (telegram_id : Z) (totalSwept : number) (address : string)
           (transactionCount : nat).

(* ------------------------------------------------------------------ *)
(** ** The tables of the store

    Columns that no operation below reads or writes (timestamps, cached
    balances, block numbers, [is_admin]) are not represented.  The column
    [amount] holds the number bound to the statement. *)

(** [userData]: the three name fields, each a string or [undefined] *)
Record UserData : Type := mkUserData {
  data_username : option string;
  data_first_name : option string;
  data_last_name : option string
}.

(** [{}], the default of [createUser] *)
Definition no_userData : UserData := mkUserData None None None.

Module users.
Record row : Type := mk {
  id : Z;
  telegram_id : Z;
  username : option string;
  first_name : option string;
  last_name : option string
}.
End users.

Module addresses.
Record row : Type := mk {
  id : Z;
  user_id : Z;
  address : string;
  private_key_encrypted : string;
  derivation_index : Z;
  label : string;
  is_active : bool
}.
End addresses.

Module transactions.
Record row : Type := mk {
  id : Z;
  address_id : Z;
  tx_hash : string;
  from_address : string;
  to_address : string;
  amount : number;
  token_contract : option string;
  tx_type : TxType;
  status : TxStatus
}.
End transactions.

(** The record pushed by [sweepToMasterWallet]:
    [{ type, amount, txHash, status }]. *)
Module SweepTx.
Record t : Type := mk {
  type : TokenKind;
  amount : number;
  txHash : option string;
  status : TxStatus
}.
End SweepTx.

(** [this.sweepStats] of the server; [lastSweepTime] is [null] or an ISO
    timestamp. *)
Module SweepStats.
Record t : Type := mk {
  totalSwept : number;
  lastSweepTime : option string;
  sweepCount : Z;
  errors : Z
}.
End SweepStats.

(** The [let] variables of one [performSweep] call, which the loop body
    mutates before and after calls that may throw. *)
Record SweepLocals : Type := mkSweepLocals {
  totalSweptAmount : number;
  sweepTransactions : list SweepTx.t;
  errorCount : Z
}.

Record State : Type := mkState {
  tbl_users : list users.row;
  tbl_addresses : list addresses.row;
  tbl_transactions : list transactions.row;
  users_auto_increment : Z;
  addresses_auto_increment : Z;
  transactions_auto_increment : Z;
  trace : list Event;
  sweepStats : SweepStats.t;
  locals : SweepLocals
}.

Definition set_users (f : list users.row -> list users.row) (g : Z -> Z) (s : State) : State :=
  mkState (f (tbl_users s)) (tbl_addresses s) (tbl_transactions s)
          (g (users_auto_increment s)) (addresses_auto_increment s)
          (transactions_auto_increment s) (trace s) (sweepStats s) (locals s).

Definition set_addresses (f : list addresses.row -> list addresses.row) (g : Z -> Z)
           (s : State) : State :=
  mkState (tbl_users s) (f (tbl_addresses s)) (tbl_transactions s)
          (users_auto_increment s) (g (addresses_auto_increment s))
          (transactions_auto_increment s) (trace s) (sweepStats s) (locals s).

Definition set_transactions (f : list transactions.row -> list transactions.row)
           (g : Z -> Z) (s : State) : State :=
  mkState (tbl_users s) (tbl_addresses s) (f (tbl_transactions s))
          (users_auto_increment s) (addresses_auto_increment s)
          (g (transactions_auto_increment s)) (trace s) (sweepStats s) (locals s).

Definition set_trace (f : list Event -> list Event) (s : State) : State :=
  mkState (tbl_users s) (tbl_addresses s) (tbl_transactions s)
          (users_auto_increment s) (addresses_auto_increment s)
          (transactions_auto_increment s) (f (trace s)) (sweepStats s) (locals s).

Definition set_sweepStats (f : SweepStats.t -> SweepStats.t) (s : State) : State :=
  mkState (tbl_users s) (tbl_addresses s) (tbl_transactions s)
          (users_auto_increment s) (addresses_auto_increment s)
          (transactions_auto_increment s) (trace s) (f (sweepStats s)) (locals s).

Definition set_locals (f : SweepLocals -> SweepLocals) (s : State) : State :=
  mkState (tbl_users s) (tbl_addresses s) (tbl_transactions s)
          (users_auto_increment s) (addresses_auto_increment s)
          (transactions_auto_increment s) (trace s) (sweepStats s) (f (locals s)).

Definition emit (e : Event) : M State unit := modify (set_trace (fun t => t ++ [e])).

(** A server that has just started: empty tables, counters at 1, the
    [sweepStats] of the constructor. *)
Definition initial_state : State :=
  mkState [] [] [] 1 1 1 []
          (SweepStats.mk 0%float None 0 0)
          (mkSweepLocals 0%float [] 0).

(* ------------------------------------------------------------------ *)
(** ** The world outside the process

    Environment variables, the crypto libraries, the chain client and what
    the store decides on its own.  A field that stands for a call which may
    throw returns a [Result]; a balance read that throws is caught by the
    caller, so it is an [option]. *)

Record World : Type := mkWorld {
  (** [process.env.MIN_SWEEP_AMOUNT] after [parseFloat], when the variable is
      set and not empty *)
  MIN_SWEEP_AMOUNT : option number;
  MASTER_ADDRESS : option string;
  USDT_CONTRACT_ADDRESS : option string;
  HD_WALLET_MNEMONIC : option string;
  (** [CryptoJS.AES.encrypt(k, encryptionKey).toString()] *)
  AES_encrypt : string -> Result string;
  (** [CryptoJS.AES.decrypt(c, encryptionKey).toString(CryptoJS.enc.Utf8)] *)
  AES_decrypt : string -> Result string;
  (** the mnemonic [bip39.generateMnemonic()] draws at this call *)
  bip39_generateMnemonic : string;
  bip39_mnemonicToSeedSync : string -> Result string;
  HDKey_fromMasterSeed : string -> Result string;
  (** [hdkey.derive(path)], then [privateKey.toString('hex')] *)
  hdkey_derive : string -> string -> Result string;
  tronWeb_address_fromPrivateKey : string -> Result string;
  (** [tronWeb.fromSun(await tronWeb.trx.getBalance(address))] as a number *)
  trx_getBalance : Site -> string -> option number;
  (** [await usdtContract.balanceOf(address).call()]: a [uint256], the
      balance in base units *)
  usdt_balanceOf : Site -> string -> option N;
  (** [trx.sendTransaction(to, toSun(amount))] signed with the given key *)
  trx_sendTransaction : string -> option string -> number -> Result TxResponse;
  (** [contract().at(usdtContractAddress)], then
      [contract.transfer(to, amount).send({ feeLimit })], signed with the key *)
  usdt_transfer_send : string -> option string -> number -> Z -> Result TxResponse;
  (** [new Date().toISOString()] at the end of the cycle *)
  now_iso : string;
  (** [ORDER BY created_at DESC]: whether the store returns the first row
      before the second.  The column has a resolution of one second and rows
      of the same second come in an order the store chooses. *)
  created_before : addresses.row -> addresses.row -> bool;
  (** [ORDER BY t.timestamp DESC], likewise *)
  recorded_before : transactions.row -> transactions.row -> bool;
  (** the error of [SELECT * FROM addresses WHERE is_active = TRUE] when the
      store fails it (connection lost, timeout) *)
  getAllActiveAddresses_error : option Error
}.

Definition is_ok {A} (r : Result A) : bool :=
  match r with inl _ => true | inr _ => false end.

(** [parseFloat(process.env.MIN_SWEEP_AMOUNT || 1)] *)
Definition minSweepAmount (w : World) : number :=
  match MIN_SWEEP_AMOUNT w with Some m => m | None => 1%float end.

(* ------------------------------------------------------------------ *)
(** ** Database: the operations of the store

    A statement is refused by a constraint of the schema or by the driver
    (an [undefined] bind parameter).  The enumeration of the active
    addresses, which opens a sweep cycle, can also be failed by the store
    itself; the other statements are taken to reach it. *)

Module Database.

Local Open Scope js_scope.

(** [ORDER BY]: the rows are put in the order the comparison gives,
    whatever comparison it is. *)
Fixpoint insert_row {A} (before : A -> A -> bool) (x : A) (l : list A) : list A :=
  match l with
  | [] => [x]
  | y :: rest => if before x y then x :: l else y :: insert_row before x rest
  end.

Definition order_by {A} (before : A -> A -> bool) (l : list A) : list A :=
  fold_right (insert_row before) [] l.

(** The row of [telegramId] takes the names of the call; other rows stay. *)
Definition with_names (telegramId : Z) (username first_name last_name : option string)
           (u : users.row) : users.row :=
  if users.telegram_id u =? telegramId
  then users.mk (users.id u) (users.telegram_id u) username first_name last_name
  else u.

(** [INSERT INTO users (telegram_id, username, first_name, last_name)
     VALUES (?, ?, ?, ?) ON DUPLICATE KEY UPDATE username = VALUES(username),
     first_name = VALUES(first_name), last_name = VALUES(last_name)], each
    name bound as [userData.x || null].  [telegram_id] is UNIQUE: when a row
    carries it, that row keeps its id and takes the three names of the
    call.  The statement draws an auto-increment value before it meets the
    duplicate, so the counter advances on both paths.  [result.insertId] is
    not represented: no caller reads it. *)
Definition createUser (telegramId : Z) (userData : UserData) : M State unit :=
  fun s =>
    let username := js_or (data_username userData) None in
    let first_name := js_or (data_first_name userData) None in
    let last_name := js_or (data_last_name userData) None in
    match find (fun u => users.telegram_id u =? telegramId) (tbl_users s) with
    | Some _ =>
        (inl tt,
         set_users (map (with_names telegramId username first_name last_name)) Z.succ s)
    | None =>
        let i := users_auto_increment s in
        (inl tt,
         set_users (fun r => r ++ [users.mk i telegramId username first_name last_name])
                   Z.succ s)
    end.

(** [SELECT * FROM users WHERE telegram_id = ?], then [rows[0] || null]. *)
Definition getUserByTelegramId (telegramId : Z) : M State (option users.row) :=
  fun s => (inl (find (fun u => users.telegram_id u =? telegramId) (tbl_users s)), s).

(** [INSERT INTO addresses ...]: [address] is UNIQUE, [user_id] REFERENCES
    [users(id)], [is_active] DEFAULT TRUE. *)
Definition createAddress (userId : Z) (address encryptedPrivateKey : string)
           (derivationIndex : Z) (label : string) : M State Z :=
  fun s =>
    if negb (existsb (fun u => users.id u =? userId) (tbl_users s))
    then (inr (ER_NO_REFERENCED_ROW "user_id"), s)
    else if existsb (fun a => String.eqb (addresses.address a) address) (tbl_addresses s)
    then (inr (ER_DUP_ENTRY "address"), s)
    else
      let i := addresses_auto_increment s in
      (inl i,
       set_addresses
         (fun r => r ++ [addresses.mk i userId address encryptedPrivateKey
                                       derivationIndex label true])
         Z.succ s).

(** [SELECT * FROM addresses WHERE user_id = ? AND is_active = TRUE
     ORDER BY created_at DESC] *)
Definition getUserAddresses (w : World) (userId : Z) : M State (list addresses.row) :=
  fun s =>
    (inl (order_by (created_before w)
            (filter (fun a => (addresses.user_id a =? userId) && addresses.is_active a)
                    (tbl_addresses s))), s).

(** [SELECT * FROM addresses WHERE is_active = TRUE] inside
    [try { } catch (error) { throw error }] *)
Definition getAllActiveAddresses (w : World) : M State (list addresses.row) :=
  try_catch
    (fun s =>
       match getAllActiveAddresses_error w with
       | Some error => (inr error, s)
       | None => (inl (filter addresses.is_active (tbl_addresses s)), s)
       end)
    (fun error => throw error).

Definition has_tx_hash (h : string) (rows : list transactions.row) : bool :=
  existsb (fun r => String.eqb (transactions.tx_hash r) h) rows.

(** [INSERT INTO transactions ...] inside [try { } catch (error) { throw error }]:
    [tx_hash] is UNIQUE NOT NULL, [to_address] NOT NULL, [token_contract]
    nullable, [address_id] REFERENCES [addresses(id)].  The error of the
    statement is logged and thrown again. *)
Definition createTransaction (addressId : Z) (txHash : option string)
           (fromAddress : string) (toAddress : option string) (amount : number)
           (tokenContract : SqlText) (txType : TxType) (status : TxStatus)
  : M State Z :=
  try_catch
    (fun s =>
       match txHash, toAddress, tokenContract with
       | None, _, _ | _, None, _ | _, _, SqlUndefined => (inr ER_BIND_UNDEFINED, s)
       | Some h, Some to, contract =>
           if negb (existsb (fun a => addresses.id a =? addressId) (tbl_addresses s))
           then (inr (ER_NO_REFERENCED_ROW "address_id"), s)
           else if has_tx_hash h (tbl_transactions s)
           then (inr (ER_DUP_ENTRY "tx_hash"), s)
           else
             let i := transactions_auto_increment s in
             let c := match contract with SqlString c => Some c | _ => None end in
             (inl i,
              set_transactions
                (fun r => r ++ [transactions.mk i addressId h fromAddress to amount
                                                c txType status])
                Z.succ s)
       end)
    (fun error => throw error).

End Database.

(* ------------------------------------------------------------------ *)
(** ** WalletManager *)

Module WalletManager.

Local Open Scope js_scope.

Record HDWallet : Type := mkHDWallet {
  address : string;
  privateKey : string;
  derivationIndex : Z;
  derivationPath : string
}.

(** [`${derivationIndex}`] for an integer index *)
Definition template_literal (i : Z) : string :=
  NilZero.string_of_int (Z.to_int i).

Definition path_prefix : string := "m/44'/195'/0'/0/".

(** [generateHDWallet(derivationIndex)] *)
Definition generateHDWallet (w : World) (derivationIndex : Z) : Result HDWallet :=
  let mnemonic :=
    match HD_WALLET_MNEMONIC w with
    | Some m => if String.eqb m "" then bip39_generateMnemonic w else m
    | None => bip39_generateMnemonic w
    end in
  match bip39_mnemonicToSeedSync w mnemonic with
  | inr error => inr error
  | inl seed =>
    match HDKey_fromMasterSeed w seed with
    | inr error => inr error
    | inl hdkey =>
      let derivationPath := String.append path_prefix (template_literal derivationIndex) in
      match hdkey_derive w hdkey derivationPath with
      | inr error => inr error
      | inl privateKey =>
        match tronWeb_address_fromPrivateKey w privateKey with
        | inr error => inr error
        | inl address => inl (mkHDWallet address privateKey derivationIndex derivationPath)
        end
      end
    end
  end.

Definition encryptPrivateKey (w : World) (privateKey : string) : M State string :=
  try_catch (lift_result (AES_encrypt w privateKey)) (fun error => throw error).

Definition decryptPrivateKey (w : World) (encryptedPrivateKey : string) : M State string :=
  try_catch (lift_result (AES_decrypt w encryptedPrivateKey)) (fun error => throw error).

(** [getTRXBalance]: [0] when the read throws *)
Definition getTRXBalance (w : World) (site : Site) (address : string) : number :=
  match trx_getBalance w site address with
  | Some balance => balance
  | None => 0%float
  end.

(** [getUSDTBalance]:
    [parseFloat(this.tronWeb.toDecimal(balance)) / 1000000], and [0] when the
    read throws *)
Definition getUSDTBalance (w : World) (site : Site) (address : string) : number :=
  match usdt_balanceOf w site address with
  | Some balance => js_div (number_of_Z (Z.of_N balance)) 1000000%float
  | None => 0%float
  end.

Record AccountInfo : Type := mkAccountInfo {
  info_address : string;
  trxBalance : number;
  usdtBalance : number;
  totalValue : number
}.

Definition getAccountInfo (w : World) (site : Site) (address : string)
  : M State AccountInfo :=
  emit (EvGetAccountInfo site address) ;;;
  let trx := getTRXBalance w site address in
  let usdt := getUSDTBalance w site address in
  ret (mkAccountInfo address trx usdt (js_add trx usdt)).

(** [transferTRX(fromPrivateKey, toAddress, amount)] *)
Definition transferTRX (w : World) (fromPrivateKey : string) (toAddress : option string)
           (amount : number) : M State TxResponse :=
  try_catch
    (let transaction := trx_sendTransaction w fromPrivateKey toAddress amount in
     emit (EvTransferTRX fromPrivateKey toAddress amount (is_ok transaction)) ;;;
     lift_result transaction)
    (fun error => throw error).

Definition feeLimit : Z := 100000000.

(** [transferUSDT(fromPrivateKey, toAddress, amount)] *)
Definition transferUSDT (w : World) (fromPrivateKey : string) (toAddress : option string)
           (amount : number) : M State TxResponse :=
  try_catch
    (let amountInContractFormat := Math_floor (js_mul amount 1000000%float) in
     let transaction :=
       usdt_transfer_send w fromPrivateKey toAddress amountInContractFormat feeLimit in
     emit (EvTransferUSDT fromPrivateKey toAddress amountInContractFormat feeLimit
                          (is_ok transaction)) ;;;
     lift_result transaction)
    (fun error => throw error).

Record SweepResult : Type := mkSweepResult {
  swept_address : string;
  transactions : list SweepTx.t;
  totalSwept : number
}.

(** The first block of [sweepToMasterWallet]: what it appends to
    [transactions] and adds to [totalSwept]. *)
Definition sweepUSDT (w : World) (privateKey : string) (info : AccountInfo)
  : M State (list SweepTx.t * number) :=
  if js_gt (usdtBalance info) (minSweepAmount w) then
    try_catch
      (if js_ge (trxBalance info) 15%float then
         usdtTx <- transferUSDT w privateKey (MASTER_ADDRESS w) (usdtBalance info) ;;
         ret ([SweepTx.mk USDT (usdtBalance info)
                          (js_or (txid usdtTx) (transaction_txID usdtTx)) pending],
              js_add 0%float (usdtBalance info))
       else ret ([], 0%float))
      (fun _ => ret ([], 0%float))
  else ret ([], 0%float).

(** The second block: what it appends to [transactions]. *)
Definition sweepTRX (w : World) (privateKey : string) (info : AccountInfo)
  : M State (list SweepTx.t) :=
  let trxToSweep := js_sub (trxBalance info) 1%float in
  if js_gt trxToSweep 0.1%float then
    try_catch
      (trxTx <- transferTRX w privateKey (MASTER_ADDRESS w) trxToSweep ;;
       ret [SweepTx.mk TRX trxToSweep
                       (js_or (txid trxTx) (transaction_txID trxTx)) pending])
      (fun _ => ret [])
  else ret [].

(** [sweepToMasterWallet(addressData)] *)
Definition sweepToMasterWallet (w : World) (addressData : addresses.row)
  : M State SweepResult :=
  try_catch
    (privateKey <- decryptPrivateKey w (addresses.private_key_encrypted addressData) ;;
     accountInfo <- getAccountInfo w AtSweep (addresses.address addressData) ;;
     u <- sweepUSDT w privateKey accountInfo ;;
     t <- sweepTRX w privateKey accountInfo ;;
     ret (mkSweepResult (addresses.address addressData) (fst u ++ t) (snd u)))
    (fun error => throw error).

End WalletManager.

(* ------------------------------------------------------------------ *)
(** ** The Telegram bot: [sendNotification] *)

Module TelegramBot.

Local Open Scope js_scope.

(** [sendNotification(userId, message)]: looks the user up by Telegram id and
    sends the message; every error is swallowed.  The message of a sweep is
    kept as the data it is formatted from. *)
Definition sendNotification (userId : Z) (totalSwept : number) (address : string)
           (transactionCount : nat) : M State unit :=
  try_catch
    (user <- Database.getUserByTelegramId userId ;;
     match user with
     | Some _ => emit (EvNotify userId totalSwept address transactionCount)
     | None => ret tt
     end)
    (fun _ => ret tt).

(** [`Address ${derivationIndex + 1}`] *)
Definition default_label (derivationIndex : Z) : string :=
  String.append "Address " (WalletManager.template_literal (derivationIndex + 1)).

(** The statements of [handleGenerate] that follow
    [const userAddresses = await database.getUserAddresses(...)]; [owner]
    is [user?.id || userId]. *)
Definition handleGenerate_insert (w : World) (owner : Z)
           (userAddresses : list addresses.row) : M State bool :=
  let derivationIndex := Z.of_nat (List.length userAddresses) in
  walletData <- lift_result (WalletManager.generateHDWallet w derivationIndex) ;;
  encryptedPrivateKey <-
    WalletManager.encryptPrivateKey w (WalletManager.privateKey walletData) ;;
  _ <- Database.createAddress owner (WalletManager.address walletData)
         encryptedPrivateKey derivationIndex (default_label derivationIndex) ;;
  ret true.

(** [handleGenerate(msg)] once the rate limiter has let the command
    through; [userId] is [msg.from.id] and [from] holds the names of
    [msg.from].  The result tells whether the success message or the error
    message was sent.  [user] is read before [createUser] and not read
    again, so a new user is keyed by [user?.id || userId], the Telegram
    id. *)
Definition handleGenerate (w : World) (userId : Z) (from : UserData) : M State bool :=
  try_catch
    (user <- Database.getUserByTelegramId userId ;;
     match user with
     | None => Database.createUser userId from
     | Some _ => ret tt
     end ;;;
     let owner :=
       match user with
       | Some u => if users.id u =? 0 then userId else users.id u
       | None => userId
       end in
     userAddresses <- Database.getUserAddresses w owner ;;
     handleGenerate_insert w owner userAddresses)
    (fun _ => ret false).

End TelegramBot.

(* ------------------------------------------------------------------ *)
(** ** Server: the sweep cycle *)

Module Server.

Local Open Scope js_scope.

(** The object [performSweep] returns (without [duration]) *)
Module SweepReport.
Record t : Type := mk {
  success : bool;
  addressesChecked : nat;
  totalSwept : number;
  transactionCount : nat;
  errors : Z
}.
End SweepReport.

(** The statements inside [if (sweepResult.transactions.length > 0) { ... }] *)
Definition recordSweep (w : World) (address : addresses.row)
           (sweepResult : WalletManager.SweepResult) : M State unit :=
  modify (set_locals (fun l =>
    mkSweepLocals (js_add (totalSweptAmount l) (WalletManager.totalSwept sweepResult))
                  (sweepTransactions l ++ WalletManager.transactions sweepResult)
                  (errorCount l))) ;;;
  for_of (WalletManager.transactions sweepResult) (fun tx =>
    _ <- Database.createTransaction
           (addresses.id address)
           (SweepTx.txHash tx)
           (addresses.address address)
           (MASTER_ADDRESS w)
           (SweepTx.amount tx)
           (match SweepTx.type tx with
            | USDT => of_env (USDT_CONTRACT_ADDRESS w)
            | TRX => SqlNull
            end)
           sweep
           (SweepTx.status tx) ;;
    ret tt) ;;;
  user <- Database.getUserByTelegramId (addresses.user_id address) ;;
  match user with
  | Some u =>
      TelegramBot.sendNotification (users.telegram_id u)
        (WalletManager.totalSwept sweepResult)
        (addresses.address address)
        (List.length (WalletManager.transactions sweepResult))
  | None => ret tt
  end.

(** The body of the [try] block of the loop in [performSweep] *)
Definition sweepAddress (w : World) (address : addresses.row) : M State unit :=
  accountInfo <- WalletManager.getAccountInfo w AtGate (addresses.address address) ;;
  if js_ge (WalletManager.usdtBalance accountInfo) (minSweepAmount w) then
    sweepResult <- WalletManager.sweepToMasterWallet w address ;;
    if (0 <? List.length (WalletManager.transactions sweepResult))%nat
    then recordSweep w address sweepResult
    else ret tt
  else ret tt.

(** One iteration: [try { ... } catch (error) { errorCount++ }] *)
Definition sweepIteration (w : World) (address : addresses.row) : M State unit :=
  try_catch (sweepAddress w address)
            (fun _ => modify (set_locals (fun l =>
               mkSweepLocals (totalSweptAmount l) (sweepTransactions l)
                             (errorCount l + 1)))).

(** [performSweep()] *)
Definition performSweep (w : World) : M State SweepReport.t :=
  try_catch
    (addresses <- Database.getAllActiveAddresses w ;;
     modify (set_locals (fun _ => mkSweepLocals 0%float [] 0)) ;;;
     for_of addresses (sweepIteration w) ;;;
     s <- get ;;
     let l := locals s in
     modify (set_sweepStats (fun st =>
       SweepStats.mk (js_add (SweepStats.totalSwept st) (totalSweptAmount l))
                     (Some (now_iso w))
                     (SweepStats.sweepCount st + 1)
                     (SweepStats.errors st + errorCount l))) ;;;
     ret (SweepReport.mk true (List.length addresses) (totalSweptAmount l)
                         (List.length (sweepTransactions l)) (errorCount l)))
    (fun error =>
       modify (set_sweepStats (fun st =>
         SweepStats.mk (SweepStats.totalSwept st) (SweepStats.lastSweepTime st)
                       (SweepStats.sweepCount st) (SweepStats.errors st + 1))) ;;;
       throw error).

(** The response of [POST /api/generate-address] *)
Inductive Response : Type :=
| Status400
| Status500 (error : Error)
| Json (address : string) (derivationIndex : Z) (label : string).

(** [label || `Address ${derivationIndex + 1}`] *)
Definition label_or_default (label : option string) (derivationIndex : Z) : string :=
  match js_or label None with
  | Some l => l
  | None => TelegramBot.default_label derivationIndex
  end.

(** The statements of the route that follow
    [const userAddresses = await database.getUserAddresses(user.id)] *)
Definition generate_address_insert (w : World) (user : users.row) (label : option string)
           (userAddresses : list addresses.row) : M State Response :=
  let derivationIndex := Z.of_nat (List.length userAddresses) in
  walletData <- lift_result (WalletManager.generateHDWallet w derivationIndex) ;;
  encryptedPrivateKey <-
    WalletManager.encryptPrivateKey w (WalletManager.privateKey walletData) ;;
  _ <- Database.createAddress (users.id user) (WalletManager.address walletData)
         encryptedPrivateKey derivationIndex
         (label_or_default label derivationIndex) ;;
  ret (Json (WalletManager.address walletData) derivationIndex
            (label_or_default label derivationIndex)).

(** The handler of [POST /api/generate-address] with body [{ userId, label }] *)
Definition generate_address (w : World) (userId : Z) (label : option string)
  : M State Response :=
  try_catch
    (if userId =? 0 then ret Status400 else
     found <- Database.getUserByTelegramId userId ;;
     user <- match found with
             | Some u => ret (Some u)
             | None => Database.createUser userId no_userData ;;;
                       Database.getUserByTelegramId userId
             end ;;
     match user with
     | None => throw (TypeError "user is null")
     | Some u =>
       userAddresses <- Database.getUserAddresses w (users.id u) ;;
       generate_address_insert w u label userAddresses
     end)
    (fun error => ret (Status500 error)).

End Server.

(* ------------------------------------------------------------------ *)
(** ** A small concrete world

    Used to run the definitions on explicit inputs.  The crypto libraries are
    replaced by transparent stand-ins (a tagged copy for AES, string
    concatenation for key derivation): the control flow of the wallet code
    does not look inside their results. *)

Module Demo.

Definition strip_prefix (p s : string) : option string :=
  if String.prefix p s
  then Some (String.substring (String.length p) (String.length s - String.length p) s)
  else None.

Definition aes_encrypt (k : string) : Result string := inl (String.append "U2FsdGVk:" k).

(** A ciphertext that [CryptoJS.AES] made of the text [key2] under the
    passphrase [other-key].  Decrypted under the passphrase [demo-key] its
    bytes are [6c 24 38 d7 36 59], which are not UTF-8. *)
Definition foreign_ciphertext : string := "U2FsdGVkX18AAAAAAAAAJSnIvklgw8crIXgCnbbo40E=".

(** A ciphertext of this world decrypts to its key.  On the ciphertext made
    under another passphrase [toString(CryptoJS.enc.Utf8)] throws; a string
    that is no ciphertext decrypts to the empty string. *)
Definition aes_decrypt (c : string) : Result string :=
  match strip_prefix "U2FsdGVk:" c with
  | Some k => inl k
  | None =>
      if String.eqb c foreign_ciphertext
      then inr (LibraryError "Malformed UTF-8 data")
      else inl ""
  end.

(** A world with the default thresholds, a master address, a token contract
    and a configured mnemonic, whose store answers and returns the rows of
    higher id first; balances and transfer outcomes are given. *)
Definition world
           (trx : Site -> string -> option number)
           (usdt : Site -> string -> option N)
           (send_trx : string -> option string -> number -> Result TxResponse)
           (send_usdt : string -> option string -> number -> Z -> Result TxResponse)
  : World :=
  mkWorld None (Some "TMaster") (Some "TUsdtContract") (Some "abandon ability able")
          aes_encrypt aes_decrypt
          "zoo zone zero"
          (fun m => inl (String.append "seed:" m))
          (fun seed => inl seed)
          (fun hdkey path => inl (String.append hdkey (String.append "|" path)))
          (fun k => inl (String.append "T" k))
          trx usdt send_trx send_usdt
          "2024-01-01T00:00:00.000Z"
          (fun a b => addresses.id b <? addresses.id a)
          (fun t u => transactions.id u <? transactions.id t)
          None.

(** The reply of [trx.sendTransaction]: an object with a [txid] *)
Definition accept (h : string) : Result TxResponse := inl (mkTxResponse (Some h) None).

(** The reply of [contract.transfer(...).send(...)]: the transaction id
    itself, a string, on which [.txid] and [.transaction] are undefined *)
Definition sent : Result TxResponse := inl (mkTxResponse None None).

Definition reject : Result TxResponse := inr (ChainError "rejected").

(** One user (id 1, Telegram id 77) with one active address (id 1). *)
Definition user77 : users.row := users.mk 1 77 None None None.

Definition addr1 : addresses.row :=
  addresses.mk 1 1 "TAddr1" "U2FsdGVk:key1" 0 "Address 1" true.

Definition one_address : State :=
  mkState [user77] [addr1] [] 2 2 1 []
          (SweepStats.mk 0%float None 0 0) (mkSweepLocals 0%float [] 0).

(** A second address (id 2) of the same user, listed first, whose
    ciphertext was made under another passphrase. *)
Definition addr_bad : addresses.row :=
  addresses.mk 2 1 "TAddr2" foreign_ciphertext 1 "Address 2" true.

Definition two_addresses : State :=
  mkState [user77] [addr_bad; addr1] [] 2 3 1 []
          (SweepStats.mk 0%float None 0 0) (mkSweepLocals 0%float [] 0).

(** Balances that do not change during the cycle: [usdt] base units of the
    token and [trx] native units at every address; every transfer is
    accepted. *)
Definition steady (usdt : N) (trx : number) : World :=
  world (fun _ _ => Some trx) (fun _ _ => Some usdt)
        (fun _ _ _ => accept "trx-hash") (fun _ _ _ _ => sent).

End Demo.

(* ------------------------------------------------------------------ *)
(** ** Observations on traces and tables *)

(** The amounts of the native transfers submitted, in order *)
Fixpoint trx_submissions (t : list Event) : list number :=
  match t with
  | [] => []
  | EvTransferTRX _ _ amount _ :: rest => amount :: trx_submissions rest
  | _ :: rest => trx_submissions rest
  end.

(** The base-unit amounts of the token transfers submitted, in order *)
Fixpoint usdt_submissions (t : list Event) : list number :=
  match t with
  | [] => []
  | EvTransferUSDT _ _ amount _ _ :: rest => amount :: usdt_submissions rest
  | _ :: rest => usdt_submissions rest
  end.

(** The addresses whose balances were read at the gate, in order *)
Fixpoint gate_reads (t : list Event) : list string :=
  match t with
  | [] => []
  | EvGetAccountInfo AtGate a :: rest => a :: gate_reads rest
  | _ :: rest => gate_reads rest
  end.

(** The rows of [transactions] that carry a given hash *)
Definition rows_with_hash (h : string) (s : State) : list transactions.row :=
  filter (fun r => String.eqb (transactions.tx_hash r) h) (tbl_transactions s).

(** The rows of [addresses] of one owner, oldest first *)
Definition owner_rows (owner : Z) (s : State) : list addresses.row :=
  filter (fun a => addresses.user_id a =? owner) (tbl_addresses s).

Definition owner_indices (owner : Z) (s : State) : list Z :=
  map addresses.derivation_index (owner_rows owner s).

(** [0; 1; ...; n-1] *)
Definition first_indices (n : nat) : list Z := map Z.of_nat (seq 0 n).

(** A rational is a whole number of base units (a multiple of [10^-6]) *)
Definition whole_base_units (q : Q) : Prop :=
  exists n : Z, (q == inject_Z n / 1000000)%Q.

(* ------------------------------------------------------------------ *)
(** ** The states the server can reach

    Each request may meet a different world (fresh randomness, new
    balances). *)

Inductive Command : Type :=
| ApiGenerateAddress (userId : Z) (label : option string)
| BotStart (userId : Z) (from : UserData)
| BotGenerate (userId : Z) (from : UserData)
| SweepCycle
| ApiGenerateAddressInsert (user : users.row) (label : option string)
                           (userAddresses : list addresses.row)
| BotGenerateInsert (owner : Z) (userAddresses : list addresses.row).

(** The first four commands are a handler run from its first statement to
    its last.  The last two are the rest of an address-generation request
    whose reads were answered earlier, with what it read then: they stand
    for requests that overlap, one running its insert after other requests
    were served. *)
Definition run (w : World) (c : Command) (s : State) : State :=
  match c with
  | ApiGenerateAddress userId label => snd (Server.generate_address w userId label s)
  | BotStart userId from => snd (Database.createUser userId from s)
  | BotGenerate userId from => snd (TelegramBot.handleGenerate w userId from s)
  | SweepCycle => snd (Server.performSweep w s)
  | ApiGenerateAddressInsert user label userAddresses =>
      snd (try_catch (Server.generate_address_insert w user label userAddresses)
                     (fun error => ret (Server.Status500 error)) s)
  | BotGenerateInsert owner userAddresses =>
      snd (try_catch (TelegramBot.handleGenerate_insert w owner userAddresses)
                     (fun _ => ret false) s)
  end.

(** Whether a command is a whole handler *)
Definition whole (c : Command) : bool :=
  match c with
  | ApiGenerateAddressInsert _ _ _ | BotGenerateInsert _ _ => false
  | _ => true
  end.

(** The states the server can reach, requests and cycles overlapping or
    not.  The third rule is a stretch of the loop of a cycle that goes on
    while something else was served: it runs on rows the cycle enumerated
    earlier, which are rows of the table still (no row of [addresses] is
    ever changed or deleted), with the counters that cycle has of its own.
    The fourth is what such a cycle ends with, an update of [sweepStats]. *)
Inductive Reachable : State -> Prop :=
| reach_initial : Reachable initial_state
| reach_step : forall s w c, Reachable s -> Reachable (run w c s)
| reach_iterations : forall s w counters addresses,
    Reachable s ->
    incl addresses (filter addresses.is_active (tbl_addresses s)) ->
    Reachable (snd (for_of addresses (Server.sweepIteration w)
                           (set_locals (fun _ => counters) s)))
| reach_stats : forall s stats,
    Reachable s -> Reachable (set_sweepStats (fun _ => stats) s).

(** The states the server reaches when it serves one request at a time *)
Inductive ReachableInTurn : State -> Prop :=
| turn_initial : ReachableInTurn initial_state
| turn_step : forall s w c,
    whole c = true -> ReachableInTurn s -> ReachableInTurn (run w c s).

(** The states the server can reach, requests and cycles overlapping or
    not, when all requests derive alike: [derive] is [generateHDWallet] in
    every world a request meets, as it is when the same mnemonic is
    configured throughout. *)
Inductive ReachableDeriving (derive : Z -> Result WalletManager.HDWallet)
  : State -> Prop :=
| deriving_initial : ReachableDeriving derive initial_state
| deriving_step : forall s w c,
    (forall i, WalletManager.generateHDWallet w i = derive i) ->
    ReachableDeriving derive s -> ReachableDeriving derive (run w c s)
| deriving_iterations : forall s w counters addresses,
    ReachableDeriving derive s ->
    incl addresses (filter addresses.is_active (tbl_addresses s)) ->
    ReachableDeriving derive
      (snd (for_of addresses (Server.sweepIteration w)
                   (set_locals (fun _ => counters) s)))
| deriving_stats : forall s stats,
    ReachableDeriving derive s ->
    ReachableDeriving derive (set_sweepStats (fun _ => stats) s).

(** The same world with another draw of [bip39.generateMnemonic()] *)
Definition with_generated_mnemonic (g : string) (w : World) : World :=
  mkWorld (MIN_SWEEP_AMOUNT w) (MASTER_ADDRESS w) (USDT_CONTRACT_ADDRESS w)
          (HD_WALLET_MNEMONIC w) (AES_encrypt w) (AES_decrypt w)
          g
          (bip39_mnemonicToSeedSync w) (HDKey_fromMasterSeed w) (hdkey_derive w)
          (tronWeb_address_fromPrivateKey w)
          (trx_getBalance w) (usdt_balanceOf w) (trx_sendTransaction w)
          (usdt_transfer_send w) (now_iso w)
          (created_before w) (recorded_before w) (getAllActiveAddresses_error w).

(** The same world with another value of [process.env.HD_WALLET_MNEMONIC] *)
Definition with_mnemonic (m : option string) (w : World) : World :=
  mkWorld (MIN_SWEEP_AMOUNT w) (MASTER_ADDRESS w) (USDT_CONTRACT_ADDRESS w)
          m (AES_encrypt w) (AES_decrypt w)
          (bip39_generateMnemonic w)
          (bip39_mnemonicToSeedSync w) (HDKey_fromMasterSeed w) (hdkey_derive w)
          (tronWeb_address_fromPrivateKey w)
          (trx_getBalance w) (usdt_balanceOf w) (trx_sendTransaction w)
          (usdt_transfer_send w) (now_iso w)
          (created_before w) (recorded_before w) (getAllActiveAddresses_error w).

(** The same world with a store that fails the enumeration of the active
    addresses *)
Definition with_store_error (error : Error) (w : World) : World :=
  mkWorld (MIN_SWEEP_AMOUNT w) (MASTER_ADDRESS w) (USDT_CONTRACT_ADDRESS w)
          (HD_WALLET_MNEMONIC w) (AES_encrypt w) (AES_decrypt w)
          (bip39_generateMnemonic w)
          (bip39_mnemonicToSeedSync w) (HDKey_fromMasterSeed w) (hdkey_derive w)
          (tronWeb_address_fromPrivateKey w)
          (trx_getBalance w) (usdt_balanceOf w) (trx_sendTransaction w)
          (usdt_transfer_send w) (now_iso w)
          (created_before w) (recorded_before w) (Some error).

(** [!mnemonic] *)
Definition mnemonic_absent (w : World) : bool :=
  match HD_WALLET_MNEMONIC w with
  | Some m => String.eqb m ""
  | None => true
  end.

(** The mnemonic [generateHDWallet] goes on with: the configured one, or a
    freshly generated one when none is configured. *)
Definition mnemonic_in_use (w : World) : string :=
  match HD_WALLET_MNEMONIC w with
  | Some m => if String.eqb m "" then bip39_generateMnemonic w else m
  | None => bip39_generateMnemonic w
  end.

(* ------------------------------------------------------------------ *)
(** ** One call of [sweepToMasterWallet], block by block

    The conditions of the two blocks and what each of them submits, pushes
    and adds, written as functions of the balances read. *)

(** A computation leaves a component of the state as it found it. *)
Definition preserves {X A} (proj : State -> X) (m : M State A) : Prop :=
  forall s, proj (snd (m s)) = proj s.

Definition usdt_gate (w : World) (info : WalletManager.AccountInfo) : bool :=
  js_gt (WalletManager.usdtBalance info) (minSweepAmount w)
  && js_ge (WalletManager.trxBalance info) 15%float.

Definition usdt_units (info : WalletManager.AccountInfo) : number :=
  Math_floor (js_mul (WalletManager.usdtBalance info) 1000000%float).

Definition usdt_reply (w : World) (pk : string) (info : WalletManager.AccountInfo)
  : Result TxResponse :=
  usdt_transfer_send w pk (MASTER_ADDRESS w) (usdt_units info) WalletManager.feeLimit.

Definition usdt_events (w : World) (pk : string) (info : WalletManager.AccountInfo)
  : list Event :=
  if usdt_gate w info
  then [EvTransferUSDT pk (MASTER_ADDRESS w) (usdt_units info) WalletManager.feeLimit
                       (is_ok (usdt_reply w pk info))]
  else [].

Definition usdt_records (w : World) (pk : string) (info : WalletManager.AccountInfo)
  : list SweepTx.t * number :=
  if usdt_gate w info then
    match usdt_reply w pk info with
    | inl usdtTx =>
        ([SweepTx.mk USDT (WalletManager.usdtBalance info)
                     (js_or (txid usdtTx) (transaction_txID usdtTx)) pending],
         js_add 0%float (WalletManager.usdtBalance info))
    | inr _ => ([], 0%float)
    end
  else ([], 0%float).

Definition trxToSweep (info : WalletManager.AccountInfo) : number :=
  js_sub (WalletManager.trxBalance info) 1%float.

Definition trx_gate (info : WalletManager.AccountInfo) : bool :=
  js_gt (trxToSweep info) 0.1%float.

Definition trx_reply (w : World) (pk : string) (info : WalletManager.AccountInfo)
  : Result TxResponse :=
  trx_sendTransaction w pk (MASTER_ADDRESS w) (trxToSweep info).

Definition trx_events (w : World) (pk : string) (info : WalletManager.AccountInfo)
  : list Event :=
  if trx_gate info
  then [EvTransferTRX pk (MASTER_ADDRESS w) (trxToSweep info) (is_ok (trx_reply w pk info))]
  else [].

Definition trx_records (w : World) (pk : string) (info : WalletManager.AccountInfo)
  : list SweepTx.t :=
  if trx_gate info then
    match trx_reply w pk info with
    | inl trxTx =>
        [SweepTx.mk TRX (trxToSweep info)
                    (js_or (txid trxTx) (transaction_txID trxTx)) pending]
    | inr _ => []
    end
  else [].

(** The balances [getAccountInfo] returns at a site *)
Definition balances (w : World) (site : Site) (address : string)
  : WalletManager.AccountInfo :=
  WalletManager.mkAccountInfo address
    (WalletManager.getTRXBalance w site address)
    (WalletManager.getUSDTBalance w site address)
    (js_add (WalletManager.getTRXBalance w site address)
            (WalletManager.getUSDTBalance w site address)).

(** The outer gate of [performSweep] for an address *)
Definition cycle_gate (w : World) (address : string) : bool :=
  js_ge (WalletManager.getUSDTBalance w AtGate address) (minSweepAmount w).

(** An event that is a Telegram notification *)
Definition is_notification (e : Event) : bool :=
  match e with EvNotify _ _ _ _ => true | _ => false end.

(** What one iteration of the cycle appends to the trace, up to the
    notification sent at its end ([notes]). *)
Definition iteration_events (w : World) (a : addresses.row) (notes : list Event)
  : list Event :=
  EvGetAccountInfo AtGate (addresses.address a)
  :: (if cycle_gate w (addresses.address a) then
        match AES_decrypt w (addresses.private_key_encrypted a) with
        | inl pk =>
            let info := balances w AtSweep (addresses.address a) in
            EvGetAccountInfo AtSweep (addresses.address a)
            :: usdt_events w pk info ++ trx_events w pk info ++ notes
        | inr _ => []
        end
      else []).

(* ------------------------------------------------------------------ *)
(** ** Address generation, seen from the table *)

(** The number of rows [getUserAddresses] returns *)
Definition active_count (owner : Z) (s : State) : Z :=
  Z.of_nat (List.length
              (filter (fun a => (addresses.user_id a =? owner) && addresses.is_active a)
                      (tbl_addresses s))).

(** A row inserted by a generation handler: the next id, the given owner
    and index, active, with the address of the wallet derived at that index,
    which no stored row carried. *)
Definition appended (w : World) (owner index : Z) (s s' : State) : Prop :=
  exists wallet enc label,
    WalletManager.generateHDWallet w index = inl wallet
    /\ existsb (fun a => String.eqb (addresses.address a) (WalletManager.address wallet))
               (tbl_addresses s) = false
    /\ tbl_addresses s'
       = tbl_addresses s
         ++ [addresses.mk (addresses_auto_increment s) owner (WalletManager.address wallet)
                          enc index label true].

(** What a generation handler may do to the addresses of [s]: nothing, or
    append one row whose index is the number of active rows of its owner. *)
Definition generated (w : World) (s s' : State) : Prop :=
  tbl_addresses s' = tbl_addresses s
  \/ exists owner, appended w owner (active_count owner s) s s'.

(** What any command may do to the addresses of [s]: nothing, or append
    one row. *)
Definition grown (w : World) (s s' : State) : Prop :=
  tbl_addresses s' = tbl_addresses s
  \/ exists owner index, appended w owner index s s'.

(** Every stored address is the one [derive] gives at the index of its
    row. *)
Definition derived_by (derive : Z -> Result WalletManager.HDWallet) (s : State) : Prop :=
  Forall (fun a => exists wallet,
              derive (addresses.derivation_index a) = inl wallet
              /\ addresses.address a = WalletManager.address wallet)
         (tbl_addresses s).

(** The invariant of the addresses table: every row is active, and the
    indices of each owner, oldest first, are [0, 1, 2, ...]. *)
Definition indices_in_order (s : State) : Prop :=
  Forall (fun a => addresses.is_active a = true) (tbl_addresses s)
  /\ forall owner,
       owner_indices owner s = first_indices (List.length (owner_rows owner s)).

(* ------------------------------------------------------------------ *)
(** ** The rest of the store

    [updateTransactionStatus], [getTransactionsByUser] and the weekly
    clean-up of the server.  The columns [block_number], [gas_used] and
    [timestamp] are not represented: the first two are only written, and what
    the clean-up needs of the third comes in as a predicate. *)

Module Store.

Local Open Scope js_scope.

Definition with_status (status : TxStatus) (r : transactions.row) : transactions.row :=
  transactions.mk (transactions.id r) (transactions.address_id r) (transactions.tx_hash r)
                  (transactions.from_address r) (transactions.to_address r)
                  (transactions.amount r) (transactions.token_contract r)
                  (transactions.tx_type r) status.

(** [UPDATE transactions SET status = ?, block_number = ?, gas_used = ?
     WHERE tx_hash = ?] inside [try { } catch (error) { throw error }] *)
Definition updateTransactionStatus (txHash : option string) (status : TxStatus)
  : M State unit :=
  try_catch
    (match txHash with
     | None => throw ER_BIND_UNDEFINED
     | Some h =>
         modify (set_transactions
                   (map (fun r => if String.eqb (transactions.tx_hash r) h
                                  then with_status status r else r))
                   (fun counter => counter))
     end)
    (fun error => throw error).

(** [SELECT t.*, a.address, a.label FROM transactions t
     JOIN addresses a ON t.address_id = a.id WHERE a.user_id = ?
     ORDER BY t.timestamp DESC LIMIT ?] *)
Definition getTransactionsByUser (w : World) (userId : Z) (limit : nat)
  : M State (list (transactions.row * addresses.row)) :=
  fun s =>
    (inl (firstn limit
            (Database.order_by
               (fun x y => recorded_before w (fst x) (fst y))
               (flat_map
                  (fun t =>
                     map (fun a => (t, a))
                         (filter (fun a => (transactions.address_id t =? addresses.id a)
                                           && (addresses.user_id a =? userId))
                                 (tbl_addresses s)))
                  (tbl_transactions s)))), s).

Definition is_confirmed (r : transactions.row) : bool :=
  match transactions.status r with confirmed => true | _ => false end.

(** [cleanupOldData()] of the server:
    [DELETE FROM transactions WHERE timestamp < DATE_SUB(NOW(), INTERVAL 90 DAY)
     AND status = "confirmed"]; [expired] tells which rows are older than
    90 days.  Errors are logged and swallowed. *)
Definition cleanupOldData (expired : transactions.row -> bool) : M State unit :=
  try_catch
    (modify (set_transactions
               (filter (fun r => negb (expired r && is_confirmed r)))
               (fun counter => counter)))
    (fun _ => ret tt).

End Store.

(* ------------------------------------------------------------------ *)
(** ** The bot's rate limiter and its read-only commands *)

Module Bot.

Local Open Scope js_scope.

(** An entry of [this.userSessions] *)
Record Session : Type := mkSession {
  lastCommand : Z;
  commandCount : Z
}.

(** [this.userSessions], a [Map] from user ids to sessions *)
Definition Sessions : Type := Z -> option Session.

Definition no_sessions : Sessions := fun _ => None.

Definition sessions_set (userId : Z) (session : Session) (m : Sessions) : Sessions :=
  fun k => if k =? userId then Some session else m k.

(** [isRateLimited(userId)] when [Date.now()] is [now]: the answer and the
    sessions after the call. *)
Definition isRateLimited (now : Z) (userId : Z) (m : Sessions) : bool * Sessions :=
  match m userId with
  | None => (false, sessions_set userId (mkSession now 1) m)
  | Some userSession =>
      let timeDiff := now - lastCommand userSession in
      if 60000 <? timeDiff
      then (false, sessions_set userId (mkSession now 1) m)
      else if 10 <=? commandCount userSession
      then (true, m)
      else (false, sessions_set userId (mkSession now (commandCount userSession + 1)) m)
  end.

(** The answers to the commands one user sends at the given times *)
Fixpoint answers (userId : Z) (times : list Z) (m : Sessions) : list bool * Sessions :=
  match times with
  | [] => ([], m)
  | now :: rest =>
      let (limited, m1) := isRateLimited now userId m in
      let (others, m2) := answers userId rest m1 in
      (limited :: others, m2)
  end.

(** What [handleHistory] sends *)
Inductive HistoryReply : Type :=
| HistoryUserNotFound
| HistoryEmpty
| HistoryList (count : nat) (shown : list (transactions.row * addresses.row))
| HistoryError.

(** [handleHistory(msg)]; the message is kept as the rows it lists.  The
    header gives the number of rows fetched, the body lists at most ten. *)
Definition handleHistory (w : World) (userId : Z) : M State HistoryReply :=
  try_catch
    (user <- Database.getUserByTelegramId userId ;;
     match user with
     | None => ret HistoryUserNotFound
     | Some u =>
         transactions <- Store.getTransactionsByUser w (users.id u) 20 ;;
         if (List.length transactions =? 0)%nat then ret HistoryEmpty
         else ret (HistoryList (List.length transactions)
                               (firstn (Nat.min (List.length transactions) 10) transactions))
     end)
    (fun _ => ret HistoryError).

(** A command behind the rate limiter, as [handleStart] and [handleGenerate]
    begin: when the user is limited only the notice is sent. *)
Definition limited_or {A} (now userId : Z) (handler : M State A)
  : M (Sessions * State) (option A) :=
  fun ms =>
    let (limited, m1) := isRateLimited now userId (fst ms) in
    if limited then (inl None, (m1, snd ms))
    else match handler (snd ms) with
         | (inl a, s1) => (inl (Some a), (m1, s1))
         | (inr e, s1) => (inr e, (m1, s1))
         end.

(** [/generate] as the bot serves it *)
Definition onGenerate (w : World) (now userId : Z) (from : UserData)
  : M (Sessions * State) (option bool) :=
  limited_or now userId (TelegramBot.handleGenerate w userId from).

(** The [/generate] commands one user sends at the given times, each meeting
    its own world and carrying the names the user has then *)
Fixpoint generate_commands (userId : Z) (calls : list (World * Z * UserData))
         (ms : Sessions * State) : Sessions * State :=
  match calls with
  | [] => ms
  | (w, now, from) :: rest =>
      generate_commands userId rest (snd (onGenerate w now userId from ms))
  end.

End Bot.

(* ------------------------------------------------------------------ *)
(** ** The manual sweep route *)

Module Admin.

Local Open Scope js_scope.

(** The value of [adminKey] in the request body: absent, a string, or any
    other JSON value. *)
Inductive BodyValue : Type :=
| Missing
| Text (s : string)
| OtherJson.

(** [adminKey !== process.env.ADMIN_API_KEY] *)
Definition differs (adminKey : BodyValue) (ADMIN_API_KEY : option string) : bool :=
  match adminKey, ADMIN_API_KEY with
  | Missing, None => false
  | Text a, Some k => negb (String.eqb a k)
  | _, _ => true
  end.

Inductive SweepResponse : Type :=
| Status401
| SweepDone (result : Server.SweepReport.t)
| SweepFailed (error : Error).

(** The handler of [POST /api/sweep] with body [{ adminKey }] *)
Definition api_sweep (ADMIN_API_KEY : option string) (w : World) (adminKey : BodyValue)
  : M State SweepResponse :=
  try_catch
    (if differs adminKey ADMIN_API_KEY then ret Status401
     else result <- Server.performSweep w ;; ret (SweepDone result))
    (fun error => ret (SweepFailed error)).

End Admin.

(* ------------------------------------------------------------------ *)
(** ** Observations for the properties of the cycle *)

(** A transfer event is signed with the key of row [a], goes to the master
    address and, for the token, runs under the fee limit; other events are
    not constrained. *)
Definition transfer_from (w : World) (a : addresses.row) (e : Event) : Prop :=
  match e with
  | EvTransferUSDT k to _ fee _ =>
      AES_decrypt w (addresses.private_key_encrypted a) = inl k
      /\ to = MASTER_ADDRESS w /\ fee = WalletManager.feeLimit
  | EvTransferTRX k to _ _ =>
      AES_decrypt w (addresses.private_key_encrypted a) = inl k
      /\ to = MASTER_ADDRESS w
  | _ => True
  end.

(** The sum of the amounts of the token transactions of a sweep result,
    added up from [0] in the order of the list *)
Definition token_total (txs : list SweepTx.t) : number :=
  fold_left (fun total tx =>
               match SweepTx.type tx with
               | USDT => js_add total (SweepTx.amount tx)
               | TRX => total
               end) txs 0%float.

(** A row written by a sweep cycle for one of the given addresses *)
Definition sweep_row_of (addrs : list addresses.row) (r : transactions.row) : Prop :=
  transactions.tx_type r = sweep
  /\ transactions.status r = pending
  /\ exists a, In a addrs
               /\ transactions.address_id r = addresses.id a
               /\ transactions.from_address r = addresses.address a.

(** The loop of [performSweep] that records the transactions of one sweep
    result *)
Definition record_loop (w : World) (a : addresses.row) (txs : list SweepTx.t)
  : M State unit :=
  for_of txs (fun tx =>
    bind (Database.createTransaction (addresses.id a) (SweepTx.txHash tx)
            (addresses.address a) (MASTER_ADDRESS w) (SweepTx.amount tx)
            (match SweepTx.type tx with
             | USDT => of_env (USDT_CONTRACT_ADDRESS w)
             | TRX => SqlNull
             end) sweep (SweepTx.status tx))
         (fun _ => ret tt)).

(** Row [r] is the record of transaction [tx] of address [a] *)
Definition row_of_tx (w : World) (a : addresses.row) (tx : SweepTx.t)
           (r : transactions.row) : Prop :=
  transactions.tx_type r = sweep
  /\ transactions.status r = SweepTx.status tx
  /\ transactions.amount r = SweepTx.amount tx
  /\ SweepTx.txHash tx = Some (transactions.tx_hash r)
  /\ transactions.address_id r = addresses.id a
  /\ transactions.from_address r = addresses.address a
  /\ MASTER_ADDRESS w = Some (transactions.to_address r).

(** The invariants of the tables that the schema and the handlers keep *)
Definition hashes (s : State) : list string :=
  map transactions.tx_hash (tbl_transactions s).

Definition tables_consistent (s : State) : Prop :=
  NoDup (hashes s)
  /\ NoDup (map addresses.address (tbl_addresses s))
  /\ NoDup (map users.telegram_id (tbl_users s))
  /\ Forall (fun r => exists a, In a (tbl_addresses s)
                                /\ transactions.address_id r = addresses.id a)
            (tbl_transactions s)
  /\ Forall (fun a => exists u, In u (tbl_users s)
                                /\ addresses.user_id a = users.id u)
            (tbl_addresses s).

(** A computation keeps an invariant of the state, whether it returns or
    throws. *)
Definition keeps {A} (I : State -> Prop) (m : M State A) : Prop :=
  forall s, I s -> I (snd (m s)).

(** A notification about address [a] as [performSweep] addresses it: to
    the Telegram id equal to the [user_id] column of the row, which some
    user carries.  Events that are not notifications are not constrained. *)
Definition notifies (users : list users.row) (a : addresses.row) (e : Event) : Prop :=
  match e with
  | EvNotify tid _ addr _ =>
      tid = addresses.user_id a
      /\ addr = addresses.address a
      /\ exists u, In u users /\ users.telegram_id u = addresses.user_id a
  | _ => True
  end.

(* ================================================================== *)
(** * Properties *)

(** ** The store: recording a transaction *)

Section Recording.

Lemma existsb_false_filter_nil {A} (p : A -> bool) (l : list A) :
  existsb p l = false -> filter p l = [].
Proof.
  induction l as [|x l IH]; simpl; [reflexivity|].
  destruct (p x); simpl; [discriminate|exact IH].
Qed.

Lemma has_tx_hash_after_insert h rows r :
  transactions.tx_hash r = h -> Database.has_tx_hash h (rows ++ [r]) = true.
Proof.
  intros <-. unfold Database.has_tx_hash.
  rewrite existsb_app. simpl. rewrite String.eqb_refl.
  apply orb_true_r.
Qed.

(** What a successful insert looks like: the hash was free, and the state
    after it is the old one with one more row. *)
Lemma createTransaction_inl s addressId txHash from to amount contract txType status id :
  fst (Database.createTransaction addressId txHash from to amount contract txType status s)
    = inl id ->
  exists h t,
    txHash = Some h /\ to = Some t /\ contract <> SqlUndefined /\
    existsb (fun a => addresses.id a =? addressId) (tbl_addresses s) = true /\
    Database.has_tx_hash h (tbl_transactions s) = false /\
    id = transactions_auto_increment s /\
    snd (Database.createTransaction addressId txHash from to amount contract txType status s)
    = set_transactions
        (fun r => r ++ [transactions.mk id addressId h from t amount
                          (match contract with SqlString c => Some c | _ => None end)
                          txType status])
        Z.succ s.
Proof.
  unfold Database.createTransaction, try_catch, throw.
  destruct txHash as [h|]; [|discriminate].
  destruct to as [t|]; [|destruct contract; discriminate].
  destruct contract as [| |c]; [discriminate| |];
    (destruct (existsb _ (tbl_addresses s)) eqn:FK; simpl; [|discriminate];
     destruct (Database.has_tx_hash h (tbl_transactions s)) eqn:D; simpl; [discriminate|];
     intros [= <-]; exists h, t; repeat split; congruence).
Qed.

(** An insert leaves the state alone when it throws. *)
Lemma createTransaction_inr s addressId txHash from to amount contract txType status e :
  fst (Database.createTransaction addressId txHash from to amount contract txType status s)
    = inr e ->
  snd (Database.createTransaction addressId txHash from to amount contract txType status s)
    = s.
Proof.
  unfold Database.createTransaction, try_catch, throw.
  destruct txHash as [h|]; [|reflexivity].
  destruct to as [t|]; [|destruct contract; reflexivity].
  destruct contract as [| |c]; [reflexivity| |];
    (destruct (existsb _ (tbl_addresses s)); simpl; [|reflexivity];
     destruct (Database.has_tx_hash h (tbl_transactions s)); simpl;
     [reflexivity|discriminate]).
Qed.

(** Once a row carries the hash, every further insert with that hash throws
    and changes nothing. *)
Lemma createTransaction_taken s addressId h from to amount contract txType status :
  Database.has_tx_hash h (tbl_transactions s) = true ->
  exists e,
    Database.createTransaction addressId (Some h) from to amount contract txType status s
    = (inr e, s).
Proof.
  intros D. unfold Database.createTransaction, try_catch, throw.
  destruct to as [t|]; [|destruct contract; eauto].
  destruct contract as [| |c]; [eauto| |];
    (destruct (existsb _ (tbl_addresses s)); simpl; [|eauto];
     rewrite D; simpl; eauto).
Qed.

End Recording.

(** C2, as amended.  When [createTransaction] has stored a record with hash
    [h], a second call with the same arguments inserts nothing and leaves
    exactly one record with that hash, but the uniqueness violation is thrown
    to the caller as [ER_DUP_ENTRY]; a second call with the same hash and any
    other arguments throws as well and leaves the state unchanged. *)
Theorem createTransaction_twice_one_row_and_error :
  forall s addressId h from to amount contract txType status id,
    fst (Database.createTransaction addressId (Some h) from to amount contract
                                    txType status s) = inl id ->
    let s1 := snd (Database.createTransaction addressId (Some h) from to amount
                                              contract txType status s) in
    Database.createTransaction addressId (Some h) from to amount contract txType status s1
      = (inr (ER_DUP_ENTRY "tx_hash"), s1)
    /\ List.length (rows_with_hash h s1) = 1%nat
    /\ (forall addressId' from' to' amount' contract' txType' status',
          exists e,
            Database.createTransaction addressId' (Some h) from' to' amount' contract'
                                       txType' status' s1 = (inr e, s1)).
Proof.
  intros s addressId h from to amount contract txType status id Hok s1.
  destruct (createTransaction_inl _ _ _ _ _ _ _ _ _ _ Hok)
    as (h' & t & [= <-] & -> & Hc & FK & Hfree & Hid & Hs1).
  assert (Htaken : Database.has_tx_hash h (tbl_transactions s1) = true).
  { subst s1. rewrite Hs1. simpl. now apply has_tx_hash_after_insert. }
  split; [|split].
  - unfold Database.createTransaction, try_catch, throw.
    assert (FK1 : existsb (fun a => addresses.id a =? addressId) (tbl_addresses s1) = true).
    { subst s1. rewrite Hs1. exact FK. }
    destruct contract as [| |c]; [congruence| |]; rewrite FK1, Htaken; reflexivity.
  - subst s1. rewrite Hs1. unfold rows_with_hash. simpl.
    rewrite filter_app. simpl. rewrite String.eqb_refl.
    rewrite (existsb_false_filter_nil _ _ Hfree). reflexivity.
  - intros. now apply createTransaction_taken.
Qed.

(** A run of the theorem above on the one-address store. *)
Lemma createTransaction_twice_witness :
  let s1 := snd (Database.createTransaction 1 (Some "9f3c") "TAddr1" (Some "TMaster") 5%float
                                            SqlNull sweep pending Demo.one_address) in
  Database.createTransaction 1 (Some "9f3c") "TAddr1" (Some "TMaster") 5%float
                             SqlNull sweep pending s1
    = (inr (ER_DUP_ENTRY "tx_hash"), s1)
  /\ List.length (rows_with_hash "9f3c" s1) = 1%nat.
Proof.
  pose proof (createTransaction_twice_one_row_and_error
                Demo.one_address 1 "9f3c" "TAddr1" (Some "TMaster") 5%float SqlNull
                sweep pending 1 eq_refl) as H.
  split; [exact (proj1 H) | exact (proj1 (proj2 H))].
Defined.

(** C2 as stated fails: the second call with the same hash does surface an
    error to its caller. *)
Lemma createTransaction_second_call_throws :
  let first := Database.createTransaction 1 (Some "9f3c") "TAddr1" (Some "TMaster") 5%float
                                          SqlNull sweep pending Demo.one_address in
  fst first = inl 1
  /\ raised (Database.createTransaction 1 (Some "9f3c") "TAddr1" (Some "TMaster") 5%float
                                        SqlNull sweep pending (snd first)) = true.
Proof. split; reflexivity. Qed.

(* ------------------------------------------------------------------ *)
(** ** Frames: what a computation leaves untouched *)

Section Frames.

Context {X : Type} (proj : State -> X).

Lemma preserves_ret {A} (a : A) : preserves proj (ret a).
Proof. intro s; reflexivity. Qed.

Lemma preserves_throw {A} e : preserves proj (@throw State A e).
Proof. intro s; reflexivity. Qed.

Lemma preserves_lift_result {A} (r : Result A) : preserves proj (lift_result r).
Proof. intro s; reflexivity. Qed.

Lemma preserves_get : preserves proj get.
Proof. intro s; reflexivity. Qed.

Lemma preserves_modify f : (forall s, proj (f s) = proj s) -> preserves proj (modify f).
Proof. intros H s; apply H. Qed.

Lemma preserves_bind {A B} (m : M State A) (k : A -> M State B) :
  preserves proj m -> (forall a, preserves proj (k a)) -> preserves proj (bind m k).
Proof.
  intros Hm Hk s. unfold bind. specialize (Hm s).
  destruct (m s) as [[a|e] s1]; simpl in *.
  - rewrite Hk. exact Hm.
  - exact Hm.
Qed.

Lemma preserves_try_catch {A} (m : M State A) (h : Error -> M State A) :
  preserves proj m -> (forall e, preserves proj (h e)) -> preserves proj (try_catch m h).
Proof.
  intros Hm Hh s. unfold try_catch. specialize (Hm s).
  destruct (m s) as [[a|e] s1]; simpl in *.
  - exact Hm.
  - rewrite Hh. exact Hm.
Qed.

Lemma preserves_for_of {A} (xs : list A) (body : A -> M State unit) :
  (forall x, preserves proj (body x)) -> preserves proj (for_of xs body).
Proof.
  intros Hb. induction xs as [|x xs IH]; simpl.
  - apply preserves_ret.
  - apply preserves_bind; [apply Hb | intros _; exact IH].
Qed.

Lemma preserves_if {A} (b : bool) (m1 m2 : M State A) :
  preserves proj m1 -> preserves proj m2 -> preserves proj (if b then m1 else m2).
Proof. destruct b; auto. Qed.

End Frames.

Section StoreFrames.

Lemma getUserByTelegramId_state i s :
  Database.getUserByTelegramId i s
  = (inl (find (fun u => users.telegram_id u =? i) (tbl_users s)), s).
Proof. reflexivity. Qed.

Lemma createTransaction_keeps {X} (proj : State -> X)
      addressId txHash from to amount contract txType status :
  (forall f g s, proj (set_transactions f g s) = proj s) ->
  preserves proj (Database.createTransaction addressId txHash from to amount contract
                                             txType status).
Proof.
  intros Hp s.
  destruct (fst (Database.createTransaction addressId txHash from to amount contract
                                            txType status s)) as [id|e] eqn:E.
  - destruct (createTransaction_inl _ _ _ _ _ _ _ _ _ _ E) as (h & t & _ & _ & _ & _ & _ & _ & ->).
    apply Hp.
  - now rewrite (createTransaction_inr _ _ _ _ _ _ _ _ _ _ E).
Qed.

Lemma createUser_keeps_addresses i d :
  preserves tbl_addresses (Database.createUser i d).
Proof.
  intro s. unfold Database.createUser.
  destruct (find _ (tbl_users s)); reflexivity.
Qed.

End StoreFrames.

(* ------------------------------------------------------------------ *)
(** ** [sweepToMasterWallet] in closed form *)

Section SweepOfOneAddress.

Variable w : World.

Lemma set_trace_nil s : set_trace (fun t => t ++ []) s = s.
Proof. destruct s; unfold set_trace; simpl. now rewrite app_nil_r. Qed.

Lemma set_trace_twice a b s :
  set_trace (fun t => t ++ b) (set_trace (fun t => t ++ a) s)
  = set_trace (fun t => t ++ (a ++ b)) s.
Proof. unfold set_trace; simpl. now rewrite app_assoc. Qed.

Lemma sweepUSDT_run pk info s :
  WalletManager.sweepUSDT w pk info s
  = (inl (usdt_records w pk info), set_trace (fun t => t ++ usdt_events w pk info) s).
Proof.
  unfold WalletManager.sweepUSDT, usdt_records, usdt_events, usdt_gate.
  destruct (js_gt _ (minSweepAmount w)); simpl.
  - unfold try_catch.
    destruct (js_ge (WalletManager.trxBalance info) 15%float); simpl.
    + unfold WalletManager.transferUSDT, try_catch, bind, emit, modify, lift_result,
        usdt_reply, usdt_units, throw, ret; simpl.
      destruct (usdt_transfer_send w pk (MASTER_ADDRESS w) _ WalletManager.feeLimit);
        reflexivity.
    + unfold ret. now rewrite set_trace_nil.
  - unfold ret. now rewrite set_trace_nil.
Qed.

Lemma sweepTRX_run pk info s :
  WalletManager.sweepTRX w pk info s
  = (inl (trx_records w pk info), set_trace (fun t => t ++ trx_events w pk info) s).
Proof.
  unfold WalletManager.sweepTRX, trx_records, trx_events, trx_gate, trxToSweep.
  destruct (js_gt _ 0.1%float); simpl.
  - unfold WalletManager.transferTRX, try_catch, bind, emit, modify, lift_result,
      trx_reply, trxToSweep, throw, ret; simpl.
    destruct (trx_sendTransaction w pk (MASTER_ADDRESS w) _); reflexivity.
  - unfold ret. now rewrite set_trace_nil.
Qed.

Lemma getAccountInfo_run site address s :
  WalletManager.getAccountInfo w site address s
  = (inl (balances w site address),
     set_trace (fun t => t ++ [EvGetAccountInfo site address]) s).
Proof. reflexivity. Qed.

(** The whole call: it throws exactly the error of the decryption, and
    otherwise only appends to the trace. *)
Lemma sweepToMasterWallet_run a s :
  WalletManager.sweepToMasterWallet w a s
  = match AES_decrypt w (addresses.private_key_encrypted a) with
    | inr e => (inr e, s)
    | inl pk =>
        let info := balances w AtSweep (addresses.address a) in
        (inl (WalletManager.mkSweepResult (addresses.address a)
                (fst (usdt_records w pk info) ++ trx_records w pk info)
                (snd (usdt_records w pk info))),
         set_trace (fun t => t ++ EvGetAccountInfo AtSweep (addresses.address a)
                               :: usdt_events w pk info ++ trx_events w pk info) s)
    end.
Proof.
  unfold WalletManager.sweepToMasterWallet, WalletManager.decryptPrivateKey.
  unfold try_catch at 1. unfold bind at 1. unfold try_catch at 1. unfold lift_result.
  destruct (AES_decrypt w (addresses.private_key_encrypted a)) as [pk|e]; [|reflexivity].
  unfold bind at 1. rewrite getAccountInfo_run.
  unfold bind at 1. rewrite sweepUSDT_run.
  unfold bind at 1. rewrite sweepTRX_run.
  unfold ret. cbv zeta. rewrite !set_trace_twice. reflexivity.
Qed.

End SweepOfOneAddress.

(* ------------------------------------------------------------------ *)
(** ** One iteration of the cycle *)

Section Iteration.

Variable w : World.

Lemma sendNotification_run i q ad c s :
  exists notes,
    TelegramBot.sendNotification i q ad c s
    = (inl tt, set_trace (fun t => t ++ notes) s)
    /\ forallb is_notification notes = true.
Proof.
  unfold TelegramBot.sendNotification, try_catch, bind.
  rewrite getUserByTelegramId_state.
  destruct (find _ (tbl_users s)).
  - exists [EvNotify i q ad c]. split; reflexivity.
  - exists []. unfold ret. now rewrite set_trace_nil.
Qed.

Lemma record_loop_keeps {X} (proj : State -> X) (a : addresses.row) txs :
  (forall f g s, proj (set_transactions f g s) = proj s) ->
  preserves proj
    (for_of txs (fun tx =>
       bind (Database.createTransaction (addresses.id a) (SweepTx.txHash tx)
               (addresses.address a) (MASTER_ADDRESS w) (SweepTx.amount tx)
               (match SweepTx.type tx with
                | USDT => of_env (USDT_CONTRACT_ADDRESS w)
                | TRX => SqlNull
                end) sweep (SweepTx.status tx))
            (fun _ => ret tt))).
Proof.
  intros Hp. apply preserves_for_of. intros tx.
  apply preserves_bind; [now apply createTransaction_keeps | intros; apply preserves_ret].
Qed.

(** Recording appends nothing but the notification to the trace. *)
Lemma recordSweep_trace a r s :
  exists notes,
    trace (snd (Server.recordSweep w a r s)) = trace s ++ notes
    /\ forallb is_notification notes = true.
Proof.
  unfold Server.recordSweep.
  unfold bind at 1. unfold modify at 1.
  unfold bind at 1.
  pose proof (record_loop_keeps trace a (WalletManager.transactions r)
                (fun _ _ _ => eq_refl)) as Hloop.
  match goal with |- context [for_of ?l ?b ?s0] =>
    specialize (Hloop s0); destruct (for_of l b s0) as [[[]|e] s2] end;
    simpl in Hloop.
  - unfold bind. rewrite getUserByTelegramId_state.
    destruct (find _ (tbl_users s2)) as [u|].
    + destruct (sendNotification_run (users.telegram_id u) (WalletManager.totalSwept r)
                  (addresses.address a) (List.length (WalletManager.transactions r)) s2)
        as (notes & -> & Hn).
      exists notes. simpl. now rewrite Hloop.
    + exists []. simpl. now rewrite app_nil_r.
  - exists []. simpl. now rewrite app_nil_r.
Qed.

(** The trace of one iteration, whether or not it threw. *)
Lemma sweepIteration_trace a s :
  exists notes,
    trace (snd (Server.sweepIteration w a s)) = trace s ++ iteration_events w a notes
    /\ forallb is_notification notes = true.
Proof.
  assert (Hcatch : forall r : Result unit * State,
             trace (snd (match r with
                         | (inl x, s') => (inl x, s')
                         | (inr _, s') =>
                             modify (set_locals (fun l =>
                               mkSweepLocals (totalSweptAmount l) (sweepTransactions l)
                                             (errorCount l + 1))) s'
                         end)) = trace (snd r)).
  { intros [[x|e] s']; reflexivity. }
  unfold Server.sweepIteration, try_catch. rewrite Hcatch. clear Hcatch.
  unfold Server.sweepAddress, iteration_events.
  unfold bind at 1. rewrite getAccountInfo_run.
  change (WalletManager.usdtBalance (balances w AtGate (addresses.address a)))
    with (WalletManager.getUSDTBalance w AtGate (addresses.address a)).
  fold (cycle_gate w (addresses.address a)).
  destruct (cycle_gate w (addresses.address a)).
  - unfold bind at 1. rewrite sweepToMasterWallet_run.
    destruct (AES_decrypt w (addresses.private_key_encrypted a)) as [pk|e].
    + cbv beta iota zeta.
      match goal with |- context [if ?c then _ else _] => destruct c end.
      * match goal with |- context [Server.recordSweep w a ?r ?s0] =>
          destruct (recordSweep_trace a r s0) as (notes & -> & Hn) end.
        exists notes. split; [|exact Hn]. simpl.
        rewrite <- !app_assoc. simpl. now rewrite <- !app_assoc.
      * exists []. split; [|reflexivity]. simpl.
        rewrite <- !app_assoc. simpl. now rewrite app_nil_r.
    + exists []. split; reflexivity.
  - exists []. split; reflexivity.
Qed.

(** An iteration never throws, and it counts one error exactly when its
    [try] block threw. *)
Lemma sweepIteration_counts a s :
  fst (Server.sweepIteration w a s) = inl tt
  /\ errorCount (locals (snd (Server.sweepIteration w a s)))
     = errorCount (locals s) + (if raised (Server.sweepAddress w a s) then 1 else 0).
Proof.
  assert (Hkeep : preserves (fun s => errorCount (locals s)) (Server.sweepAddress w a)).
  { unfold Server.sweepAddress.
    apply preserves_bind; [intro; reflexivity|]. intros info.
    apply preserves_if; [|apply preserves_ret].
    apply preserves_bind.
    { intro s0. rewrite sweepToMasterWallet_run.
      destruct (AES_decrypt w _); reflexivity. }
    intros r. apply preserves_if; [|apply preserves_ret].
    unfold Server.recordSweep.
    apply preserves_bind; [apply preserves_modify; reflexivity|]. intros _.
    apply preserves_bind; [apply record_loop_keeps; reflexivity|]. intros _.
    apply preserves_bind; [intro; reflexivity|]. intros [u|]; [|apply preserves_ret].
    intro s0.
    destruct (sendNotification_run (users.telegram_id u) (WalletManager.totalSwept r)
                (addresses.address a) (List.length (WalletManager.transactions r)) s0)
      as (notes & -> & _). reflexivity. }
  specialize (Hkeep s). unfold Server.sweepIteration, try_catch, raised.
  destruct (Server.sweepAddress w a s) as [[[]|e] s1]; simpl in *.
  - split; [reflexivity|lia].
  - split; [reflexivity|]. now rewrite Hkeep.
Qed.

(** Recording changes the counters of the cycle once, before its first
    insert, and never the statistics of the server. *)
Lemma recordSweep_locals a r s :
  locals (snd (Server.recordSweep w a r s))
  = mkSweepLocals (js_add (totalSweptAmount (locals s)) (WalletManager.totalSwept r))
                  (sweepTransactions (locals s) ++ WalletManager.transactions r)
                  (errorCount (locals s)).
Proof.
  unfold Server.recordSweep. unfold bind at 1. unfold modify at 1.
  match goal with |- locals (snd (?m ?s0)) = _ =>
    assert (H : preserves locals m); [|now rewrite H] end.
  apply preserves_bind; [apply record_loop_keeps; reflexivity|]. intros _.
  apply preserves_bind; [intro; reflexivity|]. intros [u|]; [|apply preserves_ret].
  intro s0.
  destruct (sendNotification_run (users.telegram_id u) (WalletManager.totalSwept r)
              (addresses.address a) (List.length (WalletManager.transactions r)) s0)
    as (notes & -> & _). reflexivity.
Qed.

Lemma recordSweep_keeps_stats a r : preserves sweepStats (Server.recordSweep w a r).
Proof.
  unfold Server.recordSweep.
  apply preserves_bind; [apply preserves_modify; reflexivity|]. intros _.
  apply preserves_bind; [apply record_loop_keeps; reflexivity|]. intros _.
  apply preserves_bind; [intro; reflexivity|]. intros [u|]; [|apply preserves_ret].
  intro s0.
  destruct (sendNotification_run (users.telegram_id u) (WalletManager.totalSwept r)
              (addresses.address a) (List.length (WalletManager.transactions r)) s0)
    as (notes & -> & _). reflexivity.
Qed.

End Iteration.

(* ------------------------------------------------------------------ *)
(** ** Reading the trace *)

Section TraceReading.

Lemma trx_submissions_app t1 t2 :
  trx_submissions (t1 ++ t2) = trx_submissions t1 ++ trx_submissions t2.
Proof.
  induction t1 as [|e t1 IH]; simpl; [reflexivity|].
  destruct e; simpl; now rewrite IH.
Qed.

Lemma usdt_submissions_app t1 t2 :
  usdt_submissions (t1 ++ t2) = usdt_submissions t1 ++ usdt_submissions t2.
Proof.
  induction t1 as [|e t1 IH]; simpl; [reflexivity|].
  destruct e; simpl; now rewrite IH.
Qed.

Lemma gate_reads_app t1 t2 :
  gate_reads (t1 ++ t2) = gate_reads t1 ++ gate_reads t2.
Proof.
  induction t1 as [|e t1 IH]; simpl; [reflexivity|].
  destruct e as [[|] ?| | |]; simpl; now rewrite IH.
Qed.

Lemma notifications_silent notes :
  forallb is_notification notes = true ->
  trx_submissions notes = [] /\ usdt_submissions notes = [] /\ gate_reads notes = [].
Proof.
  induction notes as [|e notes IH]; simpl; [auto|].
  destruct e; simpl; try discriminate. exact IH.
Qed.


Lemma usdt_events_gate w pk info : gate_reads (usdt_events w pk info) = [].
Proof. unfold usdt_events. now destruct (usdt_gate w info). Qed.

Lemma trx_events_usdt w pk info : usdt_submissions (trx_events w pk info) = [].
Proof. unfold trx_events. now destruct (trx_gate info). Qed.

Lemma trx_events_gate w pk info : gate_reads (trx_events w pk info) = [].
Proof. unfold trx_events. now destruct (trx_gate info). Qed.


Lemma usdt_events_usdt w pk info :
  usdt_submissions (usdt_events w pk info)
  = if usdt_gate w info then [usdt_units info] else [].
Proof. unfold usdt_events. now destruct (usdt_gate w info). Qed.


Lemma iteration_events_usdt w a notes :
  forallb is_notification notes = true ->
  usdt_submissions (iteration_events w a notes)
  = if cycle_gate w (addresses.address a) then
      match AES_decrypt w (addresses.private_key_encrypted a) with
      | inl _ =>
          if usdt_gate w (balances w AtSweep (addresses.address a))
          then [usdt_units (balances w AtSweep (addresses.address a))] else []
      | inr _ => []
      end
    else [].
Proof.
  intros Hn. destruct (notifications_silent _ Hn) as (_ & Hu & _).
  unfold iteration_events. simpl.
  destruct (cycle_gate w _); [|reflexivity].
  destruct (AES_decrypt w _) as [pk|e]; [|reflexivity].
  cbv zeta. simpl.
  rewrite !usdt_submissions_app, usdt_events_usdt, trx_events_usdt, Hu.
  simpl. now rewrite app_nil_r.
Qed.

Lemma iteration_events_gate w a notes :
  forallb is_notification notes = true ->
  gate_reads (iteration_events w a notes) = [addresses.address a].
Proof.
  intros Hn. destruct (notifications_silent _ Hn) as (_ & _ & Hg).
  unfold iteration_events. simpl. f_equal.
  destruct (cycle_gate w _); [|reflexivity].
  destruct (AES_decrypt w _) as [pk|e]; [|reflexivity].
  cbv zeta. simpl.
  now rewrite !gate_reads_app, usdt_events_gate, trx_events_gate, Hg.
Qed.

End TraceReading.

(** The token transfers one iteration submits: one, of the floored balance,
    exactly when the outer gate [>=], the decryption, the inner gate [>] and
    the gas threshold all pass. *)
Lemma sweepIteration_usdt_submissions w a s :
  usdt_submissions (trace (snd (Server.sweepIteration w a s)))
  = usdt_submissions (trace s)
    ++ (if cycle_gate w (addresses.address a) then
          match AES_decrypt w (addresses.private_key_encrypted a) with
          | inl _ =>
              if usdt_gate w (balances w AtSweep (addresses.address a))
              then [usdt_units (balances w AtSweep (addresses.address a))] else []
          | inr _ => []
          end
        else []).
Proof.
  destruct (sweepIteration_trace w a s) as (notes & -> & Hn).
  now rewrite usdt_submissions_app, iteration_events_usdt.
Qed.

(** C3, the code at the boundary.  An address whose token balance equals the
    minimum sweep amount (1) and whose native balance is 20 passes the gate
    of [performSweep] ([>=]) and has gas above 15, yet no token transfer is
    submitted, because the gate inside [sweepToMasterWallet] is strict; the
    native sweep of 19 goes out. *)
Theorem boundary_token_balance_not_swept :
  let w := Demo.steady 1000000%N 20%float in
  let s' := snd (Server.performSweep w Demo.one_address) in
  js_ge (WalletManager.getUSDTBalance w AtGate "TAddr1") (minSweepAmount w) = true
  /\ js_ge (WalletManager.getTRXBalance w AtSweep "TAddr1") 15%float = true
  /\ usdt_submissions (trace s') = []
  /\ trx_submissions (trace s') = [19%float].
Proof. vm_compute. repeat split; reflexivity. Qed.

(** The gas gate of the specification's example: token balance 5, native
    balance 10. *)
Example gas_gate_blocks_token_transfer :
  usdt_submissions
    (trace (snd (Server.performSweep (Demo.steady 5000000%N 10%float) Demo.one_address))) = [].
Proof. reflexivity. Qed.



(** The dust floor of the specification's example: native balance 1.05. *)
Example dust_floor_blocks_native_sweep :
  trx_submissions
    (trace (snd (Server.performSweep (Demo.steady 5000000%N 1.05%float) Demo.one_address))) = [].
Proof. reflexivity. Qed.

(** The residual and the comparison are those of JavaScript numbers.  A
    native balance of 1.1 leaves [1.1 - 1 = 0.10000000000000009], which
    exceeds 0.1, so it is sent; a native balance of 2.3 sends
    [1.2999999999999998]. *)
Example native_sweep_of_rounded_residual :
  js_sub 1.1%float 1%float = 0.10000000000000009%float
  /\ trx_submissions
       (trace (snd (Server.performSweep (Demo.steady 5000000%N 1.1%float)
                                        Demo.one_address)))
     = [0.10000000000000009%float]
  /\ trx_submissions
       (trace (snd (Server.performSweep (Demo.steady 5000000%N 2.3%float)
                                        Demo.one_address)))
     = [1.2999999999999998%float].
Proof. split; [|split]; reflexivity. Qed.

(* ------------------------------------------------------------------ *)
(** ** The loop of the cycle *)

Section Loop.

Variable w : World.

Lemma loop_never_throws addrs s :
  fst (for_of addrs (Server.sweepIteration w) s) = inl tt.
Proof.
  revert s. induction addrs as [|a addrs IH]; intros s; simpl; [reflexivity|].
  unfold bind. pose proof (proj1 (sweepIteration_counts w a s)) as H.
  destruct (Server.sweepIteration w a s) as [[[]|e] s1]; simpl in H; [apply IH|discriminate].
Qed.

Lemma loop_cons a addrs s :
  for_of (a :: addrs) (Server.sweepIteration w) s
  = for_of addrs (Server.sweepIteration w) (snd (Server.sweepIteration w a s)).
Proof.
  simpl. unfold bind. pose proof (proj1 (sweepIteration_counts w a s)) as H.
  destruct (Server.sweepIteration w a s) as [[[]|e] s1]; simpl in H; [reflexivity|discriminate].
Qed.

Lemma loop_app before after s :
  for_of (before ++ after) (Server.sweepIteration w) s
  = for_of after (Server.sweepIteration w)
           (snd (for_of before (Server.sweepIteration w) s)).
Proof.
  revert s. induction before as [|a before IH]; intros s; [reflexivity|].
  rewrite <- app_comm_cons, !loop_cons. apply IH.
Qed.

Lemma loop_gate_reads addrs s :
  gate_reads (trace (snd (for_of addrs (Server.sweepIteration w) s)))
  = gate_reads (trace s) ++ map addresses.address addrs.
Proof.
  revert s. induction addrs as [|a addrs IH]; intros s.
  - simpl. now rewrite app_nil_r.
  - rewrite loop_cons, IH.
    destruct (sweepIteration_trace w a s) as (notes & -> & Hn).
    rewrite gate_reads_app, iteration_events_gate by exact Hn.
    simpl. now rewrite <- app_assoc.
Qed.

Lemma loop_error_bounds addrs s :
  errorCount (locals s)
  <= errorCount (locals (snd (for_of addrs (Server.sweepIteration w) s)))
  <= errorCount (locals s) + Z.of_nat (List.length addrs).
Proof.
  revert s. induction addrs as [|a addrs IH]; intros s.
  - simpl. lia.
  - rewrite loop_cons. specialize (IH (snd (Server.sweepIteration w a s))).
    pose proof (proj2 (sweepIteration_counts w a s)) as H.
    destruct (raised (Server.sweepAddress w a s)); simpl List.length; lia.
Qed.

End Loop.

(** C5, as amended.  In a sweep cycle the loop never throws: whatever
    happens at an address, the iterations of the remaining addresses run
    from the state it left, and every address has its balances read at the
    gate.  An iteration adds one to the error count exactly when its [try]
    block threw, so the count grows by at most one per address.  A rejected
    transfer is not such a throw: [sweepToMasterWallet] catches it and throws
    only when the decryption of the key throws, so a rejected submission
    alone adds nothing to the error count. *)
Theorem cycle_isolates_each_address :
  forall w,
    (forall before a after s,
        let s1 := snd (for_of before (Server.sweepIteration w) s) in
        let s2 := snd (Server.sweepIteration w a s1) in
        for_of (before ++ a :: after) (Server.sweepIteration w) s
        = (inl tt, snd (for_of after (Server.sweepIteration w) s2))
        /\ errorCount (locals s2)
           = errorCount (locals s1)
             + (if raised (Server.sweepAddress w a s1) then 1 else 0))
    /\ (forall addrs s,
          let s' := snd (for_of addrs (Server.sweepIteration w) s) in
          gate_reads (trace s') = gate_reads (trace s) ++ map addresses.address addrs
          /\ errorCount (locals s) <= errorCount (locals s')
             <= errorCount (locals s) + Z.of_nat (List.length addrs))
    /\ (forall a s,
          raised (WalletManager.sweepToMasterWallet w a s)
          = negb (is_ok (AES_decrypt w (addresses.private_key_encrypted a)))).
Proof.
  intros w. split; [|split].
  - intros before a after s s1 s2. split.
    + rewrite loop_app, loop_cons. fold s1. fold s2.
      pose proof (loop_never_throws w after s2) as H.
      destruct (for_of after (Server.sweepIteration w) s2) as [[[]|e] s3];
        simpl in *; [reflexivity|discriminate].
    + apply sweepIteration_counts.
  - intros addrs s s'. split; [apply loop_gate_reads | apply loop_error_bounds].
  - intros a s. rewrite sweepToMasterWallet_run. unfold raised.
    destruct (AES_decrypt w (addresses.private_key_encrypted a)); reflexivity.
Qed.

(** An exception that does escape the [try] block: decrypting the key of
    the first address throws.  One error is counted and the second address
    (token balance 5, native balance 10) is swept of its native balance. *)
Example decryption_failure_counts_once :
  let r := Server.performSweep (Demo.steady 5000000%N 10%float) Demo.two_addresses in
  fst r = inl (Server.SweepReport.mk true 2 0%float 1 1)
  /\ gate_reads (trace (snd r)) = ["TAddr2"; "TAddr1"]
  /\ trx_submissions (trace (snd r)) = [9%float]
  /\ List.length (tbl_transactions (snd r)) = 1%nat
  /\ SweepStats.errors (sweepStats (snd r)) = 1.
Proof. vm_compute. repeat split; reflexivity. Qed.

(** C5 as stated fails: both transfers of the only address are rejected by
    the chain, and the cycle ends with no error counted. *)
Lemma rejected_transfer_is_not_counted :
  let w := Demo.world (fun _ _ => Some 20%float) (fun _ _ => Some 120500000%N)
                      (fun _ _ _ => Demo.reject) (fun _ _ _ _ => Demo.reject) in
  let r := Server.performSweep w Demo.one_address in
  trace (snd r)
  = [EvGetAccountInfo AtGate "TAddr1"; EvGetAccountInfo AtSweep "TAddr1";
     EvTransferUSDT "key1" (Some "TMaster") 120500000%float 100000000 false;
     EvTransferTRX "key1" (Some "TMaster") 19%float false]
  /\ SweepStats.errors (sweepStats (snd r)) = SweepStats.errors (sweepStats Demo.one_address)
  /\ fst r = inl (Server.SweepReport.mk true 1 0%float 0 0).
Proof. vm_compute. repeat split; reflexivity. Qed.

(* ------------------------------------------------------------------ *)
(** ** The cycle as a whole *)

Section Cycle.

Variable w : World.

(** When the enumeration of the active addresses fails, [performSweep]
    adds one to [sweepStats.errors] and throws the error on; nothing else
    happens. *)
Lemma performSweep_fails s e :
  getAllActiveAddresses_error w = Some e ->
  Server.performSweep w s
  = (inr e,
     set_sweepStats (fun st =>
       SweepStats.mk (SweepStats.totalSwept st) (SweepStats.lastSweepTime st)
                     (SweepStats.sweepCount st) (SweepStats.errors st + 1)) s).
Proof.
  intros He. unfold Server.performSweep.
  unfold try_catch at 1. unfold bind at 1.
  unfold Database.getAllActiveAddresses, try_catch. rewrite He. reflexivity.
Qed.

(** Otherwise it runs the loop on the active addresses from fresh local
    counters, then folds the counters into [sweepStats]: the loop does not
    throw, so the outer [catch] is entered by a failing enumeration only. *)
Lemma performSweep_run s :
  getAllActiveAddresses_error w = None ->
  let addrs := filter addresses.is_active (tbl_addresses s) in
  let s2 := snd (for_of addrs (Server.sweepIteration w)
                        (set_locals (fun _ => mkSweepLocals 0%float [] 0) s)) in
  Server.performSweep w s
  = (inl (Server.SweepReport.mk true (List.length addrs) (totalSweptAmount (locals s2))
            (List.length (sweepTransactions (locals s2))) (errorCount (locals s2))),
     set_sweepStats (fun st =>
       SweepStats.mk (js_add (SweepStats.totalSwept st) (totalSweptAmount (locals s2)))
                     (Some (now_iso w))
                     (SweepStats.sweepCount st + 1)
                     (SweepStats.errors st + errorCount (locals s2))) s2).
Proof.
  intros Hok addrs s2.
  unfold Server.performSweep. unfold try_catch at 1.
  unfold bind at 1. unfold Database.getAllActiveAddresses, try_catch. rewrite Hok.
  unfold bind at 1. unfold modify at 1.
  unfold bind at 1. fold addrs.
  pose proof (loop_never_throws w addrs (set_locals (fun _ => mkSweepLocals 0%float [] 0) s)) as H.
  subst s2.
  destruct (for_of addrs (Server.sweepIteration w) _) as [[[]|e] s2]; simpl in H;
    [|discriminate].
  reflexivity.
Qed.

End Cycle.

(* ------------------------------------------------------------------ *)
(** ** A funded address: token balance 120.5, native balance 20 *)

Section Funded.

Variables (w : World) (a : addresses.row) (pk : string) (reply1 reply2 : TxResponse).

Hypothesis Hmin : MIN_SWEEP_AMOUNT w = None.
Hypothesis Husdt : forall site,
    usdt_balanceOf w site (addresses.address a) = Some 120500000%N.
Hypothesis Htrx : trx_getBalance w AtSweep (addresses.address a) = Some 20%float.
Hypothesis Hkey : AES_decrypt w (addresses.private_key_encrypted a) = inl pk.
Hypothesis Hsend1 :
  usdt_transfer_send w pk (MASTER_ADDRESS w) 120500000%float WalletManager.feeLimit
  = inl reply1.
Hypothesis Hsend2 : trx_sendTransaction w pk (MASTER_ADDRESS w) 19%float = inl reply2.

Lemma funded_balance site :
  WalletManager.getUSDTBalance w site (addresses.address a) = 120.5%float.
Proof. unfold WalletManager.getUSDTBalance. rewrite Husdt. reflexivity. Qed.

Lemma funded_gate : cycle_gate w (addresses.address a) = true.
Proof. unfold cycle_gate, minSweepAmount. rewrite funded_balance, Hmin. reflexivity. Qed.

Lemma funded_usdt_records :
  usdt_records w pk (balances w AtSweep (addresses.address a))
  = ([SweepTx.mk USDT 120.5%float (js_or (txid reply1) (transaction_txID reply1)) pending],
     120.5%float).
Proof.
  unfold usdt_records, usdt_gate, usdt_reply, usdt_units, balances, minSweepAmount.
  cbn [WalletManager.usdtBalance WalletManager.trxBalance].
  rewrite funded_balance. unfold WalletManager.getTRXBalance. rewrite Htrx, Hmin.
  change (js_gt 120.5%float 1%float && js_ge 20%float 15%float) with true.
  change (Math_floor (js_mul 120.5%float 1000000%float)) with 120500000%float.
  rewrite Hsend1. reflexivity.
Qed.

Lemma funded_trx_records :
  trx_records w pk (balances w AtSweep (addresses.address a))
  = [SweepTx.mk TRX 19%float (js_or (txid reply2) (transaction_txID reply2)) pending].
Proof.
  unfold trx_records, trx_gate, trx_reply, trxToSweep, balances.
  cbn [WalletManager.trxBalance].
  unfold WalletManager.getTRXBalance. rewrite Htrx.
  change (js_sub 20%float 1%float) with 19%float.
  change (js_gt 19%float 0.1%float) with true.
  rewrite Hsend2. reflexivity.
Qed.

Lemma funded_events notes :
  iteration_events w a notes
  = [EvGetAccountInfo AtGate (addresses.address a);
     EvGetAccountInfo AtSweep (addresses.address a);
     EvTransferUSDT pk (MASTER_ADDRESS w) 120500000%float WalletManager.feeLimit true;
     EvTransferTRX pk (MASTER_ADDRESS w) 19%float true] ++ notes.
Proof.
  unfold iteration_events. rewrite funded_gate, Hkey. cbv zeta.
  unfold usdt_events, usdt_gate, usdt_reply, usdt_units, trx_events, trx_gate, trx_reply,
    trxToSweep, balances, minSweepAmount.
  cbn [WalletManager.usdtBalance WalletManager.trxBalance].
  rewrite funded_balance. unfold WalletManager.getTRXBalance. rewrite Htrx, Hmin.
  change (js_gt 120.5%float 1%float && js_ge 20%float 15%float) with true.
  change (Math_floor (js_mul 120.5%float 1000000%float)) with 120500000%float.
  change (js_sub 20%float 1%float) with 19%float.
  change (js_gt 19%float 0.1%float) with true.
  rewrite Hsend1, Hsend2. reflexivity.
Qed.

(** The counters of the cycle after the iteration, whether or not the
    store accepted the records *)
Lemma funded_iteration s0 :
  let s' := snd (Server.sweepIteration w a s0) in
  totalSweptAmount (locals s') = js_add (totalSweptAmount (locals s0)) 120.5%float
  /\ sweepTransactions (locals s')
     = sweepTransactions (locals s0)
       ++ [SweepTx.mk USDT 120.5%float (js_or (txid reply1) (transaction_txID reply1))
                      pending;
           SweepTx.mk TRX 19%float (js_or (txid reply2) (transaction_txID reply2)) pending]
  /\ sweepStats s' = sweepStats s0.
Proof.
  intros s'.
  remember (Server.sweepIteration w a s0) as r eqn:E.
  unfold Server.sweepIteration, try_catch, Server.sweepAddress in E.
  unfold bind at 1 in E. rewrite getAccountInfo_run in E.
  change (WalletManager.usdtBalance (balances w AtGate (addresses.address a)))
    with (WalletManager.getUSDTBalance w AtGate (addresses.address a)) in E.
  fold (cycle_gate w (addresses.address a)) in E. rewrite funded_gate in E.
  unfold bind at 1 in E. rewrite sweepToMasterWallet_run, Hkey in E. cbv zeta in E.
  rewrite funded_usdt_records, funded_trx_records in E.
  cbn [fst snd app WalletManager.transactions List.length Nat.ltb Nat.leb] in E.
  match type of E with context [Server.recordSweep w a ?res ?s1] =>
    pose proof (recordSweep_locals w a res s1) as Hloc;
    pose proof (recordSweep_keeps_stats w a res s1) as Hst;
    destruct (Server.recordSweep w a res s1) as [[[]|e] s2]
  end; cbn [snd] in Hloc, Hst; subst s' r; unfold modify;
    cbn [snd locals sweepStats set_locals set_trace totalSweptAmount sweepTransactions
         WalletManager.totalSwept WalletManager.transactions] in Hloc, Hst |- *;
    rewrite Hloc, Hst; repeat split.
Qed.

End Funded.

(** C1, as amended.  In a cycle whose only active address shows a token
    balance of 120.5 (120500000 base units) and a native balance of 20
    (default thresholds, key decrypts, both transfers accepted), a token
    transfer of 120500000 base units and then a native transfer of 19 are
    submitted to the master address, the cycle reports two transactions and
    a total of 120.5, and [sweepStats.totalSwept] grows by 120.5: only the
    token amount is added to the total. *)
Theorem funded_address_cycle :
  forall w s a pk reply1 reply2,
    getAllActiveAddresses_error w = None ->
    filter addresses.is_active (tbl_addresses s) = [a] ->
    MIN_SWEEP_AMOUNT w = None ->
    (forall site, usdt_balanceOf w site (addresses.address a) = Some 120500000%N) ->
    trx_getBalance w AtSweep (addresses.address a) = Some 20%float ->
    AES_decrypt w (addresses.private_key_encrypted a) = inl pk ->
    usdt_transfer_send w pk (MASTER_ADDRESS w) 120500000%float WalletManager.feeLimit
    = inl reply1 ->
    trx_sendTransaction w pk (MASTER_ADDRESS w) 19%float = inl reply2 ->
    let s' := snd (Server.performSweep w s) in
    WalletManager.getUSDTBalance w AtSweep (addresses.address a) = 120.5%float
    /\ (exists notes,
          trace s'
          = trace s
            ++ [EvGetAccountInfo AtGate (addresses.address a);
                EvGetAccountInfo AtSweep (addresses.address a);
                EvTransferUSDT pk (MASTER_ADDRESS w) 120500000%float
                               WalletManager.feeLimit true;
                EvTransferTRX pk (MASTER_ADDRESS w) 19%float true] ++ notes
          /\ forallb is_notification notes = true)
    /\ (exists report,
          fst (Server.performSweep w s) = inl report
          /\ Server.SweepReport.totalSwept report = 120.5%float
          /\ Server.SweepReport.transactionCount report = 2%nat)
    /\ SweepStats.totalSwept (sweepStats s')
       = js_add (SweepStats.totalSwept (sweepStats s)) 120.5%float.
Proof.
  intros w s a pk reply1 reply2 Hok Hact Hmin Husdt Htrx Hkey Hsend1 Hsend2 s'.
  pose proof (performSweep_run w s Hok) as Hrun. cbv zeta in Hrun.
  rewrite Hact in Hrun. rewrite loop_cons in Hrun. cbn [for_of] in Hrun.
  unfold ret in Hrun. cbn [snd] in Hrun.
  set (s0 := set_locals (fun _ => mkSweepLocals 0%float [] 0) s) in *.
  destruct (funded_iteration w a pk reply1 reply2 Hmin Husdt Htrx Hkey Hsend1 Hsend2 s0)
    as (Htotal & Htxs & Hstats).
  destruct (sweepIteration_trace w a s0) as (notes & Htr & Hn).
  rewrite (funded_events w a pk reply1 reply2 Hmin Husdt Htrx Hkey Hsend1 Hsend2) in Htr.
  subst s'. rewrite Hrun. cbn [fst snd].
  split; [now apply funded_balance|]. split; [|split].
  - exists notes. split; [|exact Hn]. exact Htr.
  - eexists. split; [reflexivity|].
    cbn [Server.SweepReport.totalSwept Server.SweepReport.transactionCount].
    rewrite Htotal, Htxs. split; reflexivity.
  - cbn [sweepStats set_sweepStats SweepStats.totalSwept]. rewrite Hstats, Htotal.
    reflexivity.
Qed.

(** A run of the theorem above: the one-address store, 120500000 base
    units and a native balance of 20, both transfers accepted. *)
Lemma funded_address_cycle_witness :
  let s' := snd (Server.performSweep (Demo.steady 120500000%N 20%float) Demo.one_address) in
  usdt_submissions (trace s') = [120500000%float]
  /\ trx_submissions (trace s') = [19%float]
  /\ SweepStats.totalSwept (sweepStats s') = 120.5%float.
Proof.
  pose proof (funded_address_cycle
                (Demo.steady 120500000%N 20%float) Demo.one_address Demo.addr1
                "key1" (mkTxResponse None None) (mkTxResponse (Some "trx-hash") None)
                eq_refl eq_refl eq_refl (fun _ => eq_refl) eq_refl eq_refl
                eq_refl eq_refl) as (_ & (notes & Htr & Hn) & _ & Htotal).
  destruct (notifications_silent _ Hn) as (Ht & Hu & _).
  split; [|split].
  - rewrite Htr, !usdt_submissions_app, Hu. reflexivity.
  - rewrite Htr, !trx_submissions_app, Ht. reflexivity.
  - exact Htotal.
Defined.

(** C1 as stated fails: after that cycle [totalSwept] is 120.5, not 139.5;
    the native amount of 19 is not added. *)
Lemma total_swept_leaves_out_native_amount :
  let s := Demo.one_address in
  let s' := snd (Server.performSweep (Demo.steady 120500000%N 20%float) s) in
  trx_submissions (trace s') = [19%float]
  /\ SweepStats.totalSwept (sweepStats s') = 120.5%float
  /\ SweepStats.totalSwept (sweepStats s')
     <> js_add (SweepStats.totalSwept (sweepStats s)) 139.5%float.
Proof.
  split; [reflexivity|split; [reflexivity|]].
  intro H. apply (f_equal Prim2SF) in H. vm_compute in H. discriminate H.
Qed.

(** What the store holds after that cycle.  The reply of the token transfer
    is the transaction id, a string, on which the code reads [.txid]: the
    hash it binds is [undefined], the first insert throws, and the address
    ends as an error with neither transfer recorded and nobody notified. *)
Example accepted_token_transfer_is_not_recorded :
  let r := Server.performSweep (Demo.steady 120500000%N 20%float) Demo.one_address in
  fst r = inl (Server.SweepReport.mk true 1 120.5%float 2 1)
  /\ tbl_transactions (snd r) = []
  /\ filter is_notification (trace (snd r)) = [].
Proof. vm_compute. repeat split; reflexivity. Qed.

(* ------------------------------------------------------------------ *)
(** ** Base units sent and amount recorded *)

(** C10, as amended.  For every token sweep that [sweepToMasterWallet]
    reports, the amount submitted to the contract is
    [Math.floor(balance * 1000000)], computed on doubles, of the balance it
    observed, which is the raw balance divided by [1000000] on doubles, and
    the transaction it reports carries that balance itself. *)
Theorem token_sweep_sends_floor_records_balance :
  forall w a s r tx,
    fst (WalletManager.sweepToMasterWallet w a s) = inl r ->
    In tx (WalletManager.transactions r) ->
    SweepTx.type tx = USDT ->
    let observed := WalletManager.getUSDTBalance w AtSweep (addresses.address a) in
    let sent := Math_floor (js_mul observed 1000000%float) in
    observed
    = match usdt_balanceOf w AtSweep (addresses.address a) with
      | Some raw => js_div (number_of_Z (Z.of_N raw)) 1000000%float
      | None => 0%float
      end
    /\ SweepTx.amount tx = observed
    /\ SweepTx.status tx = pending
    /\ usdt_submissions (trace (snd (WalletManager.sweepToMasterWallet w a s)))
       = usdt_submissions (trace s) ++ [sent].
Proof.
  intros w a s r tx Hrun Hin Hkind observed sent.
  rewrite sweepToMasterWallet_run in Hrun |- *.
  destruct (AES_decrypt w (addresses.private_key_encrypted a)) as [pk|e];
    [|discriminate].
  cbv zeta in Hrun |- *. cbn [fst snd] in Hrun |- *.
  injection Hrun as <-. cbn [WalletManager.transactions] in Hin.
  set (info := balances w AtSweep (addresses.address a)) in *.
  assert (Hgate : usdt_gate w info = true
                  /\ tx = SweepTx.mk USDT observed (SweepTx.txHash tx) pending).
  { apply in_app_or in Hin. destruct Hin as [Hin|Hin].
    - unfold usdt_records in Hin. destruct (usdt_gate w info); [|destruct Hin].
      destruct (usdt_reply w pk info); [|destruct Hin].
      destruct Hin as [<-|[]]. split; reflexivity.
    - unfold trx_records in Hin. destruct (trx_gate info); [|destruct Hin].
      destruct (trx_reply w pk info); [|destruct Hin].
      destruct Hin as [<-|[]]. discriminate Hkind. }
  destruct Hgate as [Hgate Htx].
  split; [reflexivity|]. split; [now rewrite Htx|]. split; [now rewrite Htx|].
  cbn [trace set_trace]. rewrite usdt_submissions_app. f_equal.
  cbn [usdt_submissions]. rewrite usdt_submissions_app, usdt_events_usdt, Hgate,
    trx_events_usdt. reflexivity.
Qed.

(** A run of the theorem above: a raw balance of 1000001 base units is
    observed as the double next to 1.000001, whose product with 1000000 is
    1000000.9999999999: 1000000 base units are sent. *)
Lemma token_sweep_sends_floor_witness :
  let w := Demo.steady 1000001%N 20%float in
  let run := WalletManager.sweepToMasterWallet w Demo.addr1 Demo.one_address in
  usdt_submissions (trace (snd run)) = [1000000%float]
  /\ SweepTx.amount (SweepTx.mk USDT 1.000001%float None pending)
     = WalletManager.getUSDTBalance w AtSweep "TAddr1".
Proof.
  pose proof (token_sweep_sends_floor_records_balance
                (Demo.steady 1000001%N 20%float) Demo.addr1 Demo.one_address
                (WalletManager.mkSweepResult "TAddr1"
                   [SweepTx.mk USDT 1.000001%float None pending;
                    SweepTx.mk TRX 19%float (Some "trx-hash") pending]
                   1.000001%float)
                (SweepTx.mk USDT 1.000001%float None pending)
                eq_refl (or_introl eq_refl) eq_refl) as H.
  split.
  - exact (proj2 (proj2 (proj2 H))).
  - exact (proj1 (proj2 H)).
Defined.

(** C10 as stated fails.  A raw balance of 1234567 base units is observed
    as a double that lies below 1.234567 and is no multiple of [10^-6]; its
    product with 1000000 rounds to 1234567, which is what is sent, and not
    the 1234566 that the floor of the exact product would be: the recorded
    amount does not exceed the amount transferred, it lies below it. *)
Lemma recorded_amount_below_amount_sent :
  let w := Demo.steady 1234567%N 20%float in
  let run := WalletManager.sweepToMasterWallet w Demo.addr1 Demo.one_address in
  let observed := WalletManager.getUSDTBalance w AtSweep "TAddr1" in
  usdt_submissions (trace (snd run)) = [1234567%float]
  /\ exists q,
       exact_value observed = Some q
       /\ ~ whole_base_units q
       /\ Qfloor (q * 1000000) = 1234566
       /\ (q < 1234567 # 1000000)%Q.
Proof.
  split; [reflexivity|].
  eexists. split; [vm_compute; reflexivity|].
  split; [|split].
  - intros [n H]. unfold Qeq in H. cbn in H. lia.
  - vm_compute. reflexivity.
  - unfold Qlt. cbn. lia.
Qed.

(* ------------------------------------------------------------------ *)
(** ** Derivation indices *)

Section DerivationIndices.

Lemma not_in_of_existsb {A B} (f : A -> B) (eqb : B -> B -> bool) (l : list A) (b : B) :
  (forall x y, eqb x y = true <-> x = y) ->
  existsb (fun a => eqb (f a) b) l = false -> ~ In b (map f l).
Proof.
  intros Heq Hex Hin. apply in_map_iff in Hin. destruct Hin as (a & <- & Ha).
  assert (existsb (fun a0 => eqb (f a0) (f a)) l = true).
  { apply existsb_exists. exists a. split; [exact Ha|]. now apply Heq. }
  congruence.
Qed.

Lemma NoDup_snoc {A} (l : list A) (x : A) : NoDup l -> ~ In x l -> NoDup (l ++ [x]).
Proof.
  intros Hl Hx. apply NoDup_app; [exact Hl|repeat constructor; auto|].
  intros y Hy [<-|[]]. contradiction.
Qed.

(** Rows picked out of rows of different indices have different indices. *)
Lemma picked_indices_NoDup (keep : addresses.row -> bool) (rows : list addresses.row) :
  NoDup (map addresses.derivation_index rows) ->
  NoDup (map addresses.derivation_index (filter keep rows)).
Proof.
  intros Hrows. induction rows as [|a rows IH]; cbn [map filter]; [constructor|].
  cbn [map] in Hrows. apply NoDup_cons_iff in Hrows. destruct Hrows as [Hfresh Hrest].
  destruct (keep a); cbn [map]; [|now apply IH].
  apply NoDup_cons_iff. split; [|now apply IH].
  intros Hin. apply Hfresh. apply in_map_iff in Hin. destruct Hin as (b & Hb & Hbin).
  apply in_map_iff. exists b. split; [exact Hb|]. now apply filter_In in Hbin.
Qed.

(** What the sweep cycle leaves untouched: any component that the trace, the
    local counters, the transactions table and the statistics do not
    contain. *)
Lemma sweepIteration_keeps {X} (proj : State -> X) w a :
  (forall f s, proj (set_trace f s) = proj s) ->
  (forall f s, proj (set_locals f s) = proj s) ->
  (forall f g s, proj (set_transactions f g s) = proj s) ->
  preserves proj (Server.sweepIteration w a).
Proof.
  intros Ht Hl Hx. unfold Server.sweepIteration.
  apply preserves_try_catch; [|intros; apply preserves_modify; intros; apply Hl].
  unfold Server.sweepAddress.
  apply preserves_bind; [intro s; rewrite getAccountInfo_run; apply Ht|]. intros info.
  apply preserves_if; [|apply preserves_ret].
  apply preserves_bind.
  { intro s0. rewrite sweepToMasterWallet_run.
    destruct (AES_decrypt w _); [apply Ht|reflexivity]. }
  intros r. apply preserves_if; [|apply preserves_ret].
  unfold Server.recordSweep.
  apply preserves_bind; [apply preserves_modify; intros; apply Hl|]. intros _.
  apply preserves_bind; [apply record_loop_keeps; exact Hx|]. intros _.
  apply preserves_bind; [intro; reflexivity|]. intros [u|]; [|apply preserves_ret].
  intro s0.
  destruct (sendNotification_run (users.telegram_id u) (WalletManager.totalSwept r)
              (addresses.address a) (List.length (WalletManager.transactions r)) s0)
    as (notes & -> & _). apply Ht.
Qed.

Lemma performSweep_keeps_addresses w s :
  tbl_addresses (snd (Server.performSweep w s)) = tbl_addresses s.
Proof.
  destruct (getAllActiveAddresses_error w) as [e|] eqn:He;
    [now rewrite (performSweep_fails w s e He)|].
  rewrite (performSweep_run w s He). cbv zeta. cbn [snd].
  change (tbl_addresses (set_sweepStats ?f ?x)) with (tbl_addresses x).
  rewrite (preserves_for_of tbl_addresses); [reflexivity|].
  intros a. apply sweepIteration_keeps; reflexivity.
Qed.

Lemma createAddress_addresses owner address enc index label s :
  let s' := snd (Database.createAddress owner address enc index label s) in
  tbl_addresses s' = tbl_addresses s
  \/ (existsb (fun a => String.eqb (addresses.address a) address) (tbl_addresses s) = false
      /\ tbl_addresses s'
         = tbl_addresses s
           ++ [addresses.mk (addresses_auto_increment s) owner address enc index label
                            true]).
Proof.
  unfold Database.createAddress.
  destruct (negb _); [left; reflexivity|].
  destruct (existsb _ (tbl_addresses s)); [left; reflexivity|].
  right. split; reflexivity.
Qed.

Lemma bind_snd {A B} (m : M State A) (k : A -> M State B) s (Q : State -> Prop) :
  (forall a, fst (m s) = inl a -> Q (snd (k a (snd (m s))))) ->
  (forall e, fst (m s) = inr e -> Q (snd (m s))) ->
  Q (snd (bind m k s)).
Proof.
  unfold bind. destruct (m s) as [[a|e] s1]; simpl; intros H1 H2; eauto.
Qed.

Lemma try_catch_ret_snd {A} (m : M State A) (f : Error -> A) s :
  snd (try_catch m (fun e => ret (f e)) s) = snd (m s).
Proof. unfold try_catch. destruct (m s) as [[a|e] s1]; reflexivity. Qed.

Lemma insert_row_length {A} (before : A -> A -> bool) x l :
  List.length (Database.insert_row before x l) = S (List.length l).
Proof.
  induction l as [|y l IH]; cbn [Database.insert_row]; [reflexivity|].
  destruct (before x y); cbn [List.length]; [reflexivity|now rewrite IH].
Qed.

(** Ordering the rows neither adds nor drops one. *)
Lemma order_by_length {A} (before : A -> A -> bool) l :
  List.length (Database.order_by before l) = List.length l.
Proof.
  induction l as [|x l IH]; [reflexivity|].
  unfold Database.order_by. cbn [fold_right]. fold (Database.order_by before l).
  now rewrite insert_row_length, IH.
Qed.

Lemma insert_row_In {A} (before : A -> A -> bool) x y l :
  In y (Database.insert_row before x l) <-> y = x \/ In y l.
Proof.
  induction l as [|z l IH]; cbn [Database.insert_row].
  - cbn [In]. intuition congruence.
  - destruct (before x z); cbn [In]; [intuition congruence|].
    rewrite IH. intuition.
Qed.

(** ... and the rows are the same ones. *)
Lemma order_by_In {A} (before : A -> A -> bool) y l :
  In y (Database.order_by before l) <-> In y l.
Proof.
  induction l as [|x l IH]; [reflexivity|].
  unfold Database.order_by. cbn [fold_right]. fold (Database.order_by before l).
  rewrite insert_row_In, IH. cbn [In]. intuition congruence.
Qed.

Lemma getUserAddresses_count w owner s :
  exists rows,
    Database.getUserAddresses w owner s = (inl rows, s)
    /\ Z.of_nat (List.length rows) = active_count owner s.
Proof.
  eexists. split; [reflexivity|]. now rewrite order_by_length.
Qed.

(** The statements both handlers end with, from the derivation on *)
Lemma insert_tail {B} w owner (label : Z -> string)
      (answer : WalletManager.HDWallet -> Z -> B) index s :
  let s' :=
    snd ((walletData <- lift_result (WalletManager.generateHDWallet w index) ;;
          encryptedPrivateKey <-
            WalletManager.encryptPrivateKey w (WalletManager.privateKey walletData) ;;
          _ <- Database.createAddress owner (WalletManager.address walletData)
                 encryptedPrivateKey index (label index) ;;
          ret (answer walletData index))%js s) in
  tbl_addresses s' = tbl_addresses s \/ appended w owner index s s'.
Proof.
  cbv zeta.
  apply bind_snd; [|intros e _; now left].
  intros wallet Hw. cbn [lift_result fst snd] in Hw |- *.
  apply bind_snd.
  2:{ intros e _. left. unfold WalletManager.encryptPrivateKey, try_catch, lift_result.
      destruct (AES_encrypt w _); reflexivity. }
  intros encrypted _.
  assert (Es : snd (WalletManager.encryptPrivateKey w (WalletManager.privateKey wallet) s)
               = s).
  { unfold WalletManager.encryptPrivateKey, try_catch, lift_result.
    destruct (AES_encrypt w _); reflexivity. }
  rewrite Es.
  assert (H : let s' := snd (Database.createAddress owner (WalletManager.address wallet)
                               encrypted index (label index) s) in
              tbl_addresses s' = tbl_addresses s \/ appended w owner index s s').
  { destruct (createAddress_addresses owner (WalletManager.address wallet) encrypted
                index (label index) s) as [H|[Hfree H]]; [now left|].
    right. exists wallet, encrypted, (label index). auto. }
  cbv zeta in H.
  apply bind_snd; [intros i _; cbn [ret snd]| intros e _]; exact H.
Qed.

Lemma generate_address_insert_addresses w u label rows s :
  let s' := snd (try_catch (Server.generate_address_insert w u label rows)
                           (fun error => ret (Server.Status500 error)) s) in
  tbl_addresses s' = tbl_addresses s
  \/ appended w (users.id u) (Z.of_nat (List.length rows)) s s'.
Proof.
  cbv zeta. rewrite try_catch_ret_snd.
  apply (insert_tail w (users.id u) (Server.label_or_default label)
           (fun walletData i =>
              Server.Json (WalletManager.address walletData) i
                          (Server.label_or_default label i))).
Qed.

Lemma handleGenerate_insert_addresses w owner rows s :
  let s' := snd (try_catch (TelegramBot.handleGenerate_insert w owner rows)
                           (fun _ => ret false) s) in
  tbl_addresses s' = tbl_addresses s
  \/ appended w owner (Z.of_nat (List.length rows)) s s'.
Proof.
  cbv zeta. rewrite try_catch_ret_snd.
  apply (insert_tail w owner TelegramBot.default_label (fun _ _ => true)).
Qed.

Lemma createUser_keeps_counter i d s :
  addresses_auto_increment (snd (Database.createUser i d s)) = addresses_auto_increment s.
Proof. unfold Database.createUser. destruct (find _ (tbl_users s)); reflexivity. Qed.

(** A request served in one piece: the count it inserts under is the count
    of the state it began in. *)
Lemma count_then_insert {B} w owner (insert : list addresses.row -> M State B) s s1 :
  tbl_addresses s1 = tbl_addresses s ->
  addresses_auto_increment s1 = addresses_auto_increment s ->
  (forall rows,
      let s' := snd (insert rows s1) in
      tbl_addresses s' = tbl_addresses s1
      \/ appended w owner (Z.of_nat (List.length rows)) s1 s') ->
  generated w s (snd (bind (Database.getUserAddresses w owner) insert s1)).
Proof.
  intros Ha Hi Hins.
  destruct (getUserAddresses_count w owner s1) as (rows & Hrows & Hcount).
  unfold bind. rewrite Hrows.
  assert (Hc : active_count owner s1 = active_count owner s)
    by (unfold active_count; now rewrite Ha).
  destruct (Hins rows) as [H|(wallet & enc & lb & Hw & Hfree & H)].
  - left. now rewrite H.
  - right. exists owner, wallet, enc, lb.
    rewrite Hcount, Hc in Hw, H. rewrite Ha in Hfree. rewrite Ha, Hi in H. auto.
Qed.

Lemma generate_address_generated w userId label s :
  generated w s (snd (Server.generate_address w userId label s)).
Proof.
  unfold Server.generate_address. rewrite try_catch_ret_snd.
  destruct (userId =? 0); [left; reflexivity|].
  apply bind_snd; [|intros e _; left; reflexivity].
  intros found _. cbn [Database.getUserByTelegramId snd].
  apply bind_snd.
  - intros user _.
    assert (Hs : let s1 := snd (match found with
                     | Some u => ret (Some u)
                     | None => (Database.createUser userId no_userData ;;;
                                Database.getUserByTelegramId userId)%js
                     end s) in
                 tbl_addresses s1 = tbl_addresses s
                 /\ addresses_auto_increment s1 = addresses_auto_increment s).
    { destruct found as [u|]; [split; reflexivity|]. cbv zeta.
      unfold bind. pose proof (createUser_keeps_addresses userId no_userData s) as H1.
      pose proof (createUser_keeps_counter userId no_userData s) as H2.
      destruct (Database.createUser userId no_userData s) as [[i|e] s1]; simpl in *;
        split; assumption. }
    cbv zeta in Hs. destruct Hs as [Ha Hi].
    destruct user as [u|]; [|left; exact Ha].
    apply (count_then_insert w (users.id u) _ s _ Ha Hi). intros rows.
    apply (insert_tail w (users.id u) (Server.label_or_default label)
             (fun walletData i =>
                Server.Json (WalletManager.address walletData) i
                            (Server.label_or_default label i))).
  - intros e _. destruct found as [u|]; [left; reflexivity|].
    left. unfold bind. pose proof (createUser_keeps_addresses userId no_userData s) as H1.
    destruct (Database.createUser userId no_userData s) as [[i|e'] s1]; simpl in *;
      assumption.
Qed.

Lemma handleGenerate_generated w userId from s :
  generated w s (snd (TelegramBot.handleGenerate w userId from s)).
Proof.
  unfold TelegramBot.handleGenerate. rewrite try_catch_ret_snd.
  apply bind_snd; [|intros e _; left; reflexivity].
  intros user _. cbn [Database.getUserByTelegramId snd].
  assert (Hs : let s1 := snd (match user with
                   | None => Database.createUser userId from
                   | Some _ => ret tt
                   end s) in
               tbl_addresses s1 = tbl_addresses s
               /\ addresses_auto_increment s1 = addresses_auto_increment s).
  { destruct user as [u|]; [split; reflexivity|]. cbv zeta.
    split; [apply createUser_keeps_addresses|apply createUser_keeps_counter]. }
  cbv zeta in Hs. destruct Hs as [Ha Hi].
  apply bind_snd; [|intros e _; left; exact Ha].
  intros _ _. cbv zeta.
  apply (count_then_insert w _ _ s _ Ha Hi). intros rows.
  apply (insert_tail w _ TelegramBot.default_label (fun _ _ => true)).
Qed.

Lemma all_active_count owner s :
  Forall (fun a => addresses.is_active a = true) (tbl_addresses s) ->
  active_count owner s = Z.of_nat (List.length (owner_rows owner s)).
Proof.
  intros H. unfold active_count, owner_rows. do 2 f_equal.
  induction H as [|a l Ha _ IH]; simpl; [reflexivity|].
  rewrite Ha, andb_true_r, IH. reflexivity.
Qed.

Lemma first_indices_succ n : first_indices (S n) = first_indices n ++ [Z.of_nat n].
Proof. unfold first_indices. rewrite seq_S, map_app. reflexivity. Qed.

Lemma first_indices_NoDup n : NoDup (first_indices n).
Proof.
  unfold first_indices. apply Injective_map_NoDup.
  - intros x y. apply Nat2Z.inj.
  - apply seq_NoDup.
Qed.

Lemma run_generated w c s : whole c = true -> generated w s (run w c s).
Proof.
  destruct c as [userId label|userId from|userId from| | |]; cbn [run whole];
    intros Hc; try discriminate Hc.
  - apply generate_address_generated.
  - left. apply createUser_keeps_addresses.
  - apply handleGenerate_generated.
  - left. apply performSweep_keeps_addresses.
Qed.

(** Whatever the command, the addresses table stays or gains one row. *)
Lemma run_grown w c s : grown w s (run w c s).
Proof.
  assert (Hg : forall s', generated w s s' -> grown w s s').
  { intros s' [H|(owner & H)]; [now left|right; eauto]. }
  destruct c as [userId label|userId from|userId from| |u label rows|owner rows];
    try (apply Hg; now apply run_generated).
  - cbn [run]. destruct (generate_address_insert_addresses w u label rows s) as [H|H];
      [now left|right; eauto].
  - cbn [run]. destruct (handleGenerate_insert_addresses w owner rows s) as [H|H];
      [now left|right; eauto].
Qed.

(** What a step does to the rows of one owner, in a state where all rows
    are active. *)
Lemma generated_owner_rows w s s' owner :
  Forall (fun a => addresses.is_active a = true) (tbl_addresses s) ->
  generated w s s' ->
  owner_rows owner s' = owner_rows owner s
  \/ exists r,
       owner_rows owner s' = owner_rows owner s ++ [r]
       /\ addresses.derivation_index r = Z.of_nat (List.length (owner_rows owner s))
       /\ addresses.is_active r = true
       /\ tbl_addresses s' = tbl_addresses s ++ [r].
Proof.
  intros Hact [H|(o & wallet & enc & lb & _ & _ & H)]; unfold owner_rows; rewrite H.
  - now left.
  - rewrite filter_app. cbn [filter addresses.user_id].
    destruct (Z.eqb_spec o owner) as [->|Hne].
    + right. eexists. split; [reflexivity|]. cbn [addresses.derivation_index addresses.is_active].
      split; [now apply all_active_count|]. split; reflexivity.
    + left. apply app_nil_r.
Qed.

Lemma generated_all_active w s s' :
  Forall (fun a => addresses.is_active a = true) (tbl_addresses s) ->
  generated w s s' ->
  Forall (fun a => addresses.is_active a = true) (tbl_addresses s').
Proof.
  intros Hact [H|(o & wallet & enc & lb & _ & _ & H)]; rewrite H; [exact Hact|].
  apply Forall_app. split; [exact Hact|]. constructor; [reflexivity|constructor].
Qed.

Lemma in_turn_indices_in_order s : ReachableInTurn s -> indices_in_order s.
Proof.
  induction 1 as [|s w c Hc _ [Hact Hidx]].
  - split; [constructor|]. intros owner. reflexivity.
  - pose proof (run_generated w c s Hc) as Hgen. split.
    + now apply (generated_all_active w s).
    + intros owner. unfold owner_indices.
      destruct (generated_owner_rows w s (run w c s) owner Hact Hgen)
        as [->|(r & -> & Hr & _)].
      * apply Hidx.
      * rewrite map_app, length_app. cbn [map List.length].
        rewrite Nat.add_1_r, first_indices_succ, Hr. f_equal. apply Hidx.
Qed.

(** Requests that derive alike: every stored address is the address of
    the index of its row, and no two rows carry the same address. *)
Lemma deriving_addresses derive s :
  ReachableDeriving derive s ->
  derived_by derive s /\ NoDup (map addresses.address (tbl_addresses s)).
Proof.
  induction 1 as [|s w c Hw _ [Hd Hn]|s w counters addrs _ IH _|s stats _ IH];
    [split; constructor| | |exact IH].
  - destruct (run_grown w c s)
      as [H|(owner & index & wallet & enc & label & Hwal & Hfree & H)];
      unfold derived_by; rewrite H; [split; assumption|].
    split.
    + apply Forall_app. split; [exact Hd|]. constructor; [|constructor].
      exists wallet. cbn [addresses.derivation_index addresses.address].
      split; [now rewrite <- Hw|reflexivity].
    + rewrite map_app. cbn [map addresses.address]. apply NoDup_snoc; [exact Hn|].
      apply (not_in_of_existsb addresses.address String.eqb);
        [apply String.eqb_eq|exact Hfree].
  - unfold derived_by.
    rewrite (preserves_for_of tbl_addresses);
      [exact IH|intros a; apply sweepIteration_keeps; reflexivity].
Qed.

(** Rows whose addresses are a function of their indices and differ have
    different indices. *)
Lemma derived_indices_NoDup (derive : Z -> Result WalletManager.HDWallet)
      (l : list addresses.row) :
  Forall (fun a => exists wallet,
              derive (addresses.derivation_index a) = inl wallet
              /\ addresses.address a = WalletManager.address wallet) l ->
  NoDup (map addresses.address l) ->
  NoDup (map addresses.derivation_index l).
Proof.
  induction l as [|a l IH]; intros Hd Hn; cbn [map]; [constructor|].
  inversion Hd as [|? ? (wa & Hwa & Ea) Hd']; subst.
  inversion Hn as [|? ? Hnotin Hn']; subst.
  constructor; [|now apply IH].
  intros Hin. apply Hnotin. apply in_map_iff in Hin. destruct Hin as (b & Hb & Hbin).
  apply in_map_iff. exists b. split; [|exact Hbin].
  rewrite Forall_forall in Hd'. destruct (Hd' b Hbin) as (wb & Hwb & Eb).
  rewrite Hb, Hwa in Hwb. injection Hwb as <-. congruence.
Qed.

(** A whole request of the route is its reads followed by the rest. *)
Lemma generate_address_splits w userId label s u :
  userId <> 0 ->
  find (fun u => users.telegram_id u =? userId) (tbl_users s) = Some u ->
  exists rows,
    Database.getUserAddresses w (users.id u) s = (inl rows, s)
    /\ Server.generate_address w userId label s
       = try_catch (Server.generate_address_insert w u label rows)
                   (fun error => ret (Server.Status500 error)) s.
Proof.
  intros Hid Hu. eexists. split; [reflexivity|].
  unfold Server.generate_address, try_catch.
  destruct (Z.eqb_spec userId 0) as [|_]; [contradiction|].
  unfold bind at 1. rewrite getUserByTelegramId_state, Hu.
  unfold bind at 1. unfold ret at 1.
  unfold bind at 1. reflexivity.
Qed.

End DerivationIndices.

(** C6, as amended.  In every state the server reaches by serving its
    requests one at a time, the derivation indices of an owner's addresses
    are pairwise different; oldest first they are [0, 1, 2, ...]; and
    whatever request is served next, the owner's rows either stay as they
    are or gain one row, whose index is the number of rows the owner had.
    When requests overlap, the indices of an owner's addresses are still
    pairwise different as long as all requests derive alike, which they do
    under one configured mnemonic: the address of an index that is stored
    already is refused by the UNIQUE constraint on [address]. *)
Theorem derivation_index_is_count_of_owner_addresses :
  (forall s,
      ReachableInTurn s ->
      forall owner,
        NoDup (owner_indices owner s)
        /\ owner_indices owner s = first_indices (List.length (owner_rows owner s))
        /\ forall w c,
             whole c = true ->
             owner_rows owner (run w c s) = owner_rows owner s
             \/ exists r,
                  owner_rows owner (run w c s) = owner_rows owner s ++ [r]
                  /\ addresses.derivation_index r
                     = Z.of_nat (List.length (owner_rows owner s)))
  /\ (forall derive s,
        ReachableDeriving derive s ->
        forall owner, NoDup (owner_indices owner s)).
Proof.
  split.
  - intros s Hs owner. destruct (in_turn_indices_in_order s Hs) as [Hact Hidx].
    split; [|split].
    + rewrite Hidx. apply first_indices_NoDup.
    + apply Hidx.
    + intros w c Hc.
      destruct (generated_owner_rows w s (run w c s) owner Hact (run_generated w c s Hc))
        as [H|(r & H & Hr & _)]; [now left|right; now exists r].
  - intros derive s Hs owner. destruct (deriving_addresses derive s Hs) as [Hd Hn].
    unfold owner_indices, owner_rows. apply picked_indices_NoDup.
    now apply (derived_indices_NoDup derive).
Qed.

(** A run of the theorem above.  Two addresses generated for Telegram user
    77 through the HTTP route, one request after the other: their indices
    are 0 and 1.  Two requests of user 77 that overlap under the configured
    mnemonic, both having read an empty list of addresses: the second
    insert is refused, and the user has the one address of index 0. *)
Lemma derivation_index_witness :
  let w := Demo.steady 0%N 0%float in
  let s := run w (ApiGenerateAddress 77 None)
               (run w (ApiGenerateAddress 77 None) initial_state) in
  let s' := run w (ApiGenerateAddressInsert Demo.user77 None [])
                (run w (ApiGenerateAddressInsert Demo.user77 None [])
                     (run w (BotStart 77 no_userData) initial_state)) in
  (owner_indices 1 s = [0; 1] /\ NoDup (owner_indices 1 s))
  /\ (owner_indices 1 s' = [0] /\ NoDup (owner_indices 1 s')).
Proof.
  pose (w := Demo.steady 0%N 0%float).
  pose proof (proj1 derivation_index_is_count_of_owner_addresses
                (run w (ApiGenerateAddress 77 None)
                     (run w (ApiGenerateAddress 77 None) initial_state))
                (turn_step _ w (ApiGenerateAddress 77 None) eq_refl
                   (turn_step _ w (ApiGenerateAddress 77 None) eq_refl turn_initial)) 1)
    as H.
  pose proof (proj2 derivation_index_is_count_of_owner_addresses
                (WalletManager.generateHDWallet w)
                (run w (ApiGenerateAddressInsert Demo.user77 None [])
                   (run w (ApiGenerateAddressInsert Demo.user77 None [])
                      (run w (BotStart 77 no_userData) initial_state)))
                (deriving_step _ _ w (ApiGenerateAddressInsert Demo.user77 None [])
                   (fun _ => eq_refl)
                   (deriving_step _ _ w (ApiGenerateAddressInsert Demo.user77 None [])
                      (fun _ => eq_refl)
                      (deriving_step _ _ w (BotStart 77 no_userData) (fun _ => eq_refl)
                         (deriving_initial _)))) 1)
    as H'.
  split; split.
  - exact (proj1 (proj2 H)).
  - exact (proj1 H).
  - reflexivity.
  - exact H'.
Defined.

(** C6 as stated fails when two requests of one owner overlap.  User 77 has
    no address and no mnemonic is configured.  Two requests of the route
    both get the user and an empty list of addresses before either of them
    inserts; each derives its address at index 0 from the mnemonic drawn for
    it, and both inserts are accepted: the owner has two addresses of
    derivation index 0. *)
Lemma overlapping_requests_store_one_index_twice :
  let w1 := with_mnemonic None (Demo.steady 0%N 0%float) in
  let w2 := with_generated_mnemonic "wolf wing wise" w1 in
  let s0 := run w1 (BotStart 77 no_userData) initial_state in
  let s1 := run w1 (ApiGenerateAddressInsert Demo.user77 None []) s0 in
  let s2 := run w2 (ApiGenerateAddressInsert Demo.user77 None []) s1 in
  Database.getUserByTelegramId 77 s0 = (inl (Some Demo.user77), s0)
  /\ Database.getUserAddresses w1 1 s0 = (inl [], s0)
  /\ Database.getUserAddresses w2 1 s0 = (inl [], s0)
  /\ Reachable s2
  /\ map addresses.address (owner_rows 1 s2)
     = ["Tseed:zoo zone zero|m/44'/195'/0'/0/0"; "Tseed:wolf wing wise|m/44'/195'/0'/0/0"]
  /\ owner_indices 1 s2 = [0; 0]
  /\ ~ NoDup (owner_indices 1 s2).
Proof.
  cbv zeta. split; [reflexivity|]. split; [reflexivity|]. split; [reflexivity|].
  split; [apply reach_step, reach_step, reach_step, reach_initial|].
  split; [reflexivity|]. split; [reflexivity|].
  intros H. change (NoDup [0; 0]) in H. inversion H as [|x l Hin _]. apply Hin. now left.
Qed.

(** The count is taken over active rows only.  No operation of the server
    clears [is_active]; in a table where a row has been deactivated from
    outside, the next address of that owner gets the index of an older
    one. *)
Example index_reused_after_outside_deactivation :
  let s := mkState [Demo.user77]
                   [addresses.mk 1 1 "TOld0" "c0" 0 "Address 1" false;
                    addresses.mk 2 1 "TOld1" "c1" 1 "Address 2" true]
                   [] 2 3 1 [] (SweepStats.mk 0%float None 0 0)
                   (mkSweepLocals 0%float [] 0) in
  owner_indices 1 (run (Demo.steady 0%N 0%float) (ApiGenerateAddress 77 None) s) = [0; 1; 1].
Proof. reflexivity. Qed.

(* ------------------------------------------------------------------ *)
(** ** Key derivation *)

Section Derivation.

Lemma to_int_not_nil z : Z.to_int z <> Decimal.Pos Decimal.Nil /\ Z.to_int z <> Decimal.Neg Decimal.Nil.
Proof.
  split; intros H; pose proof (DecimalZ.of_to z) as E; rewrite H in E;
    cbn in E; subst z; discriminate H.
Qed.

(** Different indices are written differently in the template literal. *)
Lemma template_literal_inj i j :
  WalletManager.template_literal i = WalletManager.template_literal j -> i = j.
Proof.
  unfold WalletManager.template_literal. intros H.
  apply DecimalZ.to_int_inj.
  destruct (to_int_not_nil i) as [Hi1 Hi2]. destruct (to_int_not_nil j) as [Hj1 Hj2].
  pose proof (NilZero.isi _ Hi1 Hi2) as Ei. pose proof (NilZero.isi _ Hj1 Hj2) as Ej.
  rewrite H in Ei. rewrite Ei in Ej. now injection Ej.
Qed.

Lemma append_inj_r a b c : String.append a b = String.append a c -> b = c.
Proof.
  induction a as [|x a IH]; simpl; [trivial|]. intros [= H]. now apply IH.
Qed.

Lemma derivation_path_inj i j :
  String.append WalletManager.path_prefix (WalletManager.template_literal i)
  = String.append WalletManager.path_prefix (WalletManager.template_literal j) ->
  i = j.
Proof. intros H. apply template_literal_inj. exact (append_inj_r _ _ _ H). Qed.

(** The steps of [generateHDWallet] after the mnemonic has been chosen *)
Lemma generateHDWallet_steps w i r :
  WalletManager.generateHDWallet w i = inl r ->
  exists seed hdkey,
    bip39_mnemonicToSeedSync w (mnemonic_in_use w) = inl seed
    /\ HDKey_fromMasterSeed w seed = inl hdkey
    /\ hdkey_derive w hdkey (WalletManager.derivationPath r)
       = inl (WalletManager.privateKey r)
    /\ tronWeb_address_fromPrivateKey w (WalletManager.privateKey r)
       = inl (WalletManager.address r)
    /\ WalletManager.derivationPath r
       = String.append WalletManager.path_prefix (WalletManager.template_literal i)
    /\ WalletManager.derivationIndex r = i.
Proof.
  unfold WalletManager.generateHDWallet. fold (mnemonic_in_use w).
  destruct (bip39_mnemonicToSeedSync w (mnemonic_in_use w)) as [seed|e] eqn:Es;
    [|discriminate].
  destruct (HDKey_fromMasterSeed w seed) as [hdkey|e] eqn:Eh; [|discriminate].
  destruct (hdkey_derive w hdkey _) as [key|e] eqn:Ek; [|discriminate].
  destruct (tronWeb_address_fromPrivateKey w key) as [ad|e] eqn:Ea; [|discriminate].
  intros [= <-]. exists seed, hdkey. cbn. repeat split; try assumption; reflexivity.
Qed.

End Derivation.

(** C7, as amended.  [generateHDWallet] does not fail because the seed is
    absent: with no mnemonic configured it goes on with a freshly generated
    one.  It validates neither the mnemonic nor the sign of the index: it
    returns a wallet exactly when the four library calls (seed from
    mnemonic, master key, child key at the path, address of the key)
    succeed, and the wallet is the one at path [m/44'/195'/0'/0/index] with
    the key and the address they gave; it throws exactly when one of those
    calls throws, the earlier ones having succeeded, and the error is the
    one that call threw. *)
Theorem generateHDWallet_fails_only_in_library :
  forall w i,
    let path := String.append WalletManager.path_prefix (WalletManager.template_literal i) in
    (mnemonic_absent w = true -> mnemonic_in_use w = bip39_generateMnemonic w)
    /\ (forall r,
          WalletManager.generateHDWallet w i = inl r
          <-> exists seed hdkey key address,
                bip39_mnemonicToSeedSync w (mnemonic_in_use w) = inl seed
                /\ HDKey_fromMasterSeed w seed = inl hdkey
                /\ hdkey_derive w hdkey path = inl key
                /\ tronWeb_address_fromPrivateKey w key = inl address
                /\ r = WalletManager.mkHDWallet address key i path)
    /\ (forall e,
          WalletManager.generateHDWallet w i = inr e
          <-> (bip39_mnemonicToSeedSync w (mnemonic_in_use w) = inr e
               \/ exists seed,
                   bip39_mnemonicToSeedSync w (mnemonic_in_use w) = inl seed
                   /\ (HDKey_fromMasterSeed w seed = inr e
                       \/ exists hdkey,
                           HDKey_fromMasterSeed w seed = inl hdkey
                           /\ (hdkey_derive w hdkey path = inr e
                               \/ exists key,
                                   hdkey_derive w hdkey path = inl key
                                   /\ tronWeb_address_fromPrivateKey w key = inr e)))).
Proof.
  intros w i path. split; [|split].
  - unfold mnemonic_absent, mnemonic_in_use.
    destruct (HD_WALLET_MNEMONIC w) as [m|]; [|reflexivity].
    now intros ->.
  - intros r. unfold WalletManager.generateHDWallet.
    fold (mnemonic_in_use w). fold path. split.
    + destruct (bip39_mnemonicToSeedSync w (mnemonic_in_use w)) as [seed|e1];
        [|discriminate].
      destruct (HDKey_fromMasterSeed w seed) as [hdkey|e2] eqn:Eh; [|discriminate].
      destruct (hdkey_derive w hdkey path) as [key|e3] eqn:Ek; [|discriminate].
      destruct (tronWeb_address_fromPrivateKey w key) as [ad|e4] eqn:Ea; [|discriminate].
      intros [= <-]. exists seed, hdkey, key, ad. repeat split; assumption.
    + intros (seed & hdkey & key & ad & Hs & Hh & Hk & Ha & ->).
      now rewrite Hs, Hh, Hk, Ha.
  - intros e. unfold WalletManager.generateHDWallet.
    fold (mnemonic_in_use w). fold path. split.
    + intros H.
      destruct (bip39_mnemonicToSeedSync w (mnemonic_in_use w)) as [seed|e1];
        [|injection H as ->; now left].
      right. exists seed. split; [reflexivity|].
      destruct (HDKey_fromMasterSeed w seed) as [hdkey|e2]; [|injection H as ->; now left].
      right. exists hdkey. split; [reflexivity|].
      destruct (hdkey_derive w hdkey path) as [key|e3]; [|injection H as ->; now left].
      right. exists key. split; [reflexivity|].
      destruct (tronWeb_address_fromPrivateKey w key) as [ad|e4]; [discriminate H|].
      now injection H as ->.
    + intros [Hs|(seed & Hs & [Hh|(hdkey & Hh & [Hk|(key & Hk & Ha)])])].
      * now rewrite Hs.
      * now rewrite Hs, Hh.
      * now rewrite Hs, Hh, Hk.
      * now rewrite Hs, Hh, Hk, Ha.
Qed.

(** A run of the theorem above in a world without a configured mnemonic. *)
Lemma generateHDWallet_without_seed_witness :
  let w := with_mnemonic None (Demo.steady 0%N 0%float) in
  mnemonic_in_use w = "zoo zone zero"
  /\ WalletManager.generateHDWallet w 0
     = inl (WalletManager.mkHDWallet "Tseed:zoo zone zero|m/44'/195'/0'/0/0"
                                     "seed:zoo zone zero|m/44'/195'/0'/0/0"
                                     0 "m/44'/195'/0'/0/0").
Proof.
  pose proof (generateHDWallet_fails_only_in_library
                (with_mnemonic None (Demo.steady 0%N 0%float)) 0) as H.
  cbv zeta in H. split.
  - exact (proj1 H eq_refl).
  - apply (proj1 (proj2 H)).
    exists "seed:zoo zone zero", "seed:zoo zone zero",
           "seed:zoo zone zero|m/44'/195'/0'/0/0",
           "Tseed:zoo zone zero|m/44'/195'/0'/0/0".
    repeat split.
Defined.

(** The index is not looked at before the library is called: with a
    library that accepts every path, index -1 gets a wallet like any
    other. *)
Example negative_index_reaches_the_library :
  WalletManager.generateHDWallet (Demo.steady 0%N 0%float) (-1)
  = inl (WalletManager.mkHDWallet "Tseed:abandon ability able|m/44'/195'/0'/0/-1"
                                  "seed:abandon ability able|m/44'/195'/0'/0/-1"
                                  (-1) "m/44'/195'/0'/0/-1").
Proof. reflexivity. Qed.

(** C7 as stated fails: with the seed absent the call succeeds, on the
    mnemonic it generated itself. *)
Lemma absent_seed_is_replaced :
  let w := with_mnemonic None (Demo.steady 0%N 0%float) in
  HD_WALLET_MNEMONIC w = None
  /\ is_ok (WalletManager.generateHDWallet w 0) = true
  /\ WalletManager.generateHDWallet w 0
     = WalletManager.generateHDWallet
         (with_mnemonic (Some (bip39_generateMnemonic w)) w) 0.
Proof. repeat split. Qed.

Section Determinism.

Lemma mnemonic_in_use_configured w g :
  mnemonic_absent w = false ->
  mnemonic_in_use (with_generated_mnemonic g w) = mnemonic_in_use w.
Proof.
  unfold mnemonic_absent, mnemonic_in_use. cbn.
  destruct (HD_WALLET_MNEMONIC w) as [m|]; [|discriminate].
  now intros ->.
Qed.

End Determinism.

(* ================================================================== *)
(** * Further properties of the code *)

(** ** The rate limiter *)

Section RateLimiter.

Variable userId : Z.

(** With [k] commands left before the limit and every command within 60
    seconds of the last accepted one, the next [k] are let through and all
    later ones are refused. *)
Lemma answers_with_allowance T times :
  forall m last (k : nat),
    m userId = Some (Bot.mkSession last (10 - Z.of_nat k)) ->
    T <= last <= T + 60000 ->
    (forall t, In t times -> T <= t <= T + 60000) ->
    fst (Bot.answers userId times m)
    = repeat false (Nat.min k (List.length times))
      ++ repeat true (List.length times - k).
Proof.
  induction times as [|t times IH]; intros m last k Hm Hlast Hall.
  - simpl. now rewrite Nat.min_0_r.
  - assert (Ht : T <= t <= T + 60000) by (apply Hall; now left).
    assert (Hrest : forall x, In x times -> T <= x <= T + 60000)
      by (intros x Hx; apply Hall; now right).
    cbn [Bot.answers]. unfold Bot.isRateLimited. rewrite Hm.
    cbn [Bot.lastCommand Bot.commandCount].
    destruct (Z.ltb_spec 60000 (t - last)) as [Hbig|_]; [lia|].
    destruct (Z.leb_spec 10 (10 - Z.of_nat k)) as [Hfull|Hroom].
    + assert (k = 0%nat) by lia. subst k.
      specialize (IH m last 0%nat Hm Hlast Hrest).
      destruct (Bot.answers userId times m) as [others m2]. cbn [fst] in IH |- *.
      rewrite IH. cbn. now rewrite Nat.sub_0_r.
    + destruct k as [|k]; [lia|].
      specialize (IH (Bot.sessions_set userId (Bot.mkSession t (10 - Z.of_nat (S k) + 1)) m)
                     t k).
      destruct (Bot.answers userId times _) as [others m2]. cbn [fst] in IH |- *.
      rewrite IH; [reflexivity| |exact Ht|exact Hrest].
      unfold Bot.sessions_set. rewrite Z.eqb_refl. do 2 f_equal. lia.
Qed.

End RateLimiter.

(** X1.  The commands a user sends within one 60-second span, starting with
    no session: the first ten are let through and every later one is
    refused. *)
Theorem rate_limiter_allows_ten_per_window :
  forall userId T times m,
    m userId = None ->
    (forall t, In t times -> T <= t <= T + 60000) ->
    fst (Bot.answers userId times m)
    = repeat false (Nat.min 10 (List.length times))
      ++ repeat true (List.length times - 10).
Proof.
  intros userId T [|t times] m Hm Hall; [reflexivity|].
  assert (Ht : T <= t <= T + 60000) by (apply Hall; now left).
  cbn [Bot.answers]. unfold Bot.isRateLimited. rewrite Hm.
  pose proof (answers_with_allowance userId T times
                (Bot.sessions_set userId (Bot.mkSession t 1) m) t 9) as H.
  destruct (Bot.answers userId times _) as [others m2]. cbn [fst] in H |- *.
  rewrite H; [reflexivity| |exact Ht|].
  - unfold Bot.sessions_set. now rewrite Z.eqb_refl.
  - intros x Hx. apply Hall. now right.
Qed.

(** Twelve commands, five seconds apart. *)
Lemma rate_limiter_window_witness :
  fst (Bot.answers 7 [0; 5000; 10000; 15000; 20000; 25000; 30000; 35000; 40000; 45000;
                      50000; 55000] Bot.no_sessions)
  = [false; false; false; false; false; false; false; false; false; false; true; true].
Proof.
  exact (rate_limiter_allows_ten_per_window 7 0
           [0; 5000; 10000; 15000; 20000; 25000; 30000; 35000; 40000; 45000; 50000; 55000]
           Bot.no_sessions eq_refl
           ltac:(intros t Ht; cbn in Ht; lia)).
Defined.

(** X2.  A refused command does not renew the block: while a user at the
    limit keeps sending commands within 60 seconds of the last accepted one,
    each is refused and the sessions stay as they are; the first command
    more than 60 seconds after the last accepted one is let through and
    starts a new count at 1. *)
Theorem rate_limiter_block_ends_after_a_minute :
  forall userId m session times later,
    m userId = Some session ->
    10 <= Bot.commandCount session ->
    (forall t, In t times -> t - Bot.lastCommand session <= 60000) ->
    60000 < later - Bot.lastCommand session ->
    Bot.answers userId times m = (repeat true (List.length times), m)
    /\ fst (Bot.isRateLimited later userId m) = false
    /\ snd (Bot.isRateLimited later userId m) userId = Some (Bot.mkSession later 1).
Proof.
  intros userId m session times later Hm Hfull Hall Hlater. split.
  - induction times as [|t times IH]; [reflexivity|].
    cbn [Bot.answers]. unfold Bot.isRateLimited. rewrite Hm.
    assert (Ht : t - Bot.lastCommand session <= 60000) by (apply Hall; now left).
    destruct (Z.ltb_spec 60000 (t - Bot.lastCommand session)); [lia|].
    destruct (Z.leb_spec 10 (Bot.commandCount session)); [|lia].
    rewrite IH; [reflexivity|]. intros x Hx. apply Hall. now right.
  - unfold Bot.isRateLimited. rewrite Hm.
    destruct (Z.ltb_spec 60000 (later - Bot.lastCommand session)); [|lia].
    cbn. unfold Bot.sessions_set. now rewrite Z.eqb_refl.
Qed.

(** A user at the limit since time 0: refused at 10 and 59 seconds, let
    through at 61 seconds. *)
Lemma rate_limiter_block_witness :
  let m := Bot.sessions_set 7 (Bot.mkSession 0 10) Bot.no_sessions in
  Bot.answers 7 [10000; 59000] m = ([true; true], m)
  /\ fst (Bot.isRateLimited 61000 7 m) = false.
Proof.
  pose proof (rate_limiter_block_ends_after_a_minute
                7 (Bot.sessions_set 7 (Bot.mkSession 0 10) Bot.no_sessions)
                (Bot.mkSession 0 10) [10000; 59000] 61000 eq_refl
                ltac:(cbn; lia) ltac:(intros t Ht; cbn in Ht |- *; lia)
                ltac:(cbn; lia)) as H.
  split; [exact (proj1 H) | exact (proj1 (proj2 H))].
Defined.

Section GenerateBehindLimiter.

Variable userId : Z.

Lemma generated_length w s s' :
  generated w s s' ->
  (List.length (tbl_addresses s') <= S (List.length (tbl_addresses s)))%nat.
Proof.
  intros [->|(o & wallet & enc & lb & _ & _ & ->)]; [lia|].
  rewrite length_app. simpl. lia.
Qed.

Lemma onGenerate_accepted w now from m s :
  fst (Bot.isRateLimited now userId m) = false ->
  snd (Bot.onGenerate w now userId from (m, s))
  = (snd (Bot.isRateLimited now userId m),
     snd (TelegramBot.handleGenerate w userId from s)).
Proof.
  unfold Bot.onGenerate, Bot.limited_or. cbn [fst snd].
  destruct (Bot.isRateLimited now userId m) as [limited m1]. cbn [fst snd].
  intros ->. destruct (TelegramBot.handleGenerate w userId from s) as [[b|e] s1];
    reflexivity.
Qed.

Lemma onGenerate_refused w now from m s :
  fst (Bot.isRateLimited now userId m) = true ->
  snd (Bot.onGenerate w now userId from (m, s))
  = (snd (Bot.isRateLimited now userId m), s).
Proof.
  unfold Bot.onGenerate, Bot.limited_or. cbn [fst snd].
  destruct (Bot.isRateLimited now userId m) as [limited m1]. cbn [fst snd].
  now intros ->.
Qed.

Lemma generate_commands_with_allowance T calls :
  forall m s last (k : nat),
    m userId = Some (Bot.mkSession last (10 - Z.of_nat k)) ->
    T <= last <= T + 60000 ->
    (forall c, In c calls -> T <= snd (fst c) <= T + 60000) ->
    (List.length (tbl_addresses (snd (Bot.generate_commands userId calls (m, s))))
     <= List.length (tbl_addresses s) + k)%nat.
Proof.
  induction calls as [|[[w t] from] calls IH]; intros m s last k Hm Hlast Hall.
  - simpl. lia.
  - assert (Ht : T <= t <= T + 60000) by (apply (Hall (w, t, from)); now left).
    assert (Hrest : forall c, In c calls -> T <= snd (fst c) <= T + 60000)
      by (intros c Hc; apply Hall; now right).
    cbn [Bot.generate_commands].
    assert (Hlim : Bot.isRateLimited t userId m
                   = if 10 <=? 10 - Z.of_nat k then (true, m)
                     else (false, Bot.sessions_set userId
                                    (Bot.mkSession t (10 - Z.of_nat k + 1)) m)).
    { unfold Bot.isRateLimited. rewrite Hm. cbn [Bot.lastCommand Bot.commandCount].
      destruct (Z.ltb_spec 60000 (t - last)); [lia|reflexivity]. }
    destruct (Z.leb_spec 10 (10 - Z.of_nat k)) as [Hfull|Hroom].
    + rewrite onGenerate_refused by now rewrite Hlim.
      rewrite Hlim. cbn [snd]. now apply (IH m s last k).
    + rewrite onGenerate_accepted by now rewrite Hlim.
      rewrite Hlim. cbn [snd].
      destruct k as [|k]; [lia|].
      pose proof (generated_length _ _ _ (handleGenerate_generated w userId from s)) as Hone.
      specialize (IH (Bot.sessions_set userId (Bot.mkSession t (10 - Z.of_nat (S k) + 1)) m)
                     (snd (TelegramBot.handleGenerate w userId from s)) t k).
      etransitivity; [apply IH|lia]; [|exact Ht|exact Hrest].
      unfold Bot.sessions_set. rewrite Z.eqb_refl. do 2 f_equal. lia.
Qed.

End GenerateBehindLimiter.

(** X3.  Through the bot, the [/generate] commands a user sends within one
    60-second span, starting with no session, add at most ten rows to the
    addresses table, however many commands there are and whatever the worlds
    they meet and the names they carry. *)
Theorem bot_generates_at_most_ten_per_window :
  forall userId T calls m s,
    m userId = None ->
    (forall c, In c calls -> T <= snd (fst c) <= T + 60000) ->
    (List.length (tbl_addresses (snd (Bot.generate_commands userId calls (m, s))))
     <= List.length (tbl_addresses s) + 10)%nat.
Proof.
  intros userId T [|[[w t] from] calls] m s Hm Hall; [simpl; lia|].
  assert (Ht : T <= t <= T + 60000) by (apply (Hall (w, t, from)); now left).
  cbn [Bot.generate_commands].
  assert (Hlim : Bot.isRateLimited t userId m
                 = (false, Bot.sessions_set userId (Bot.mkSession t 1) m)).
  { unfold Bot.isRateLimited. now rewrite Hm. }
  rewrite onGenerate_accepted by now rewrite Hlim.
  rewrite Hlim. cbn [snd].
  pose proof (generated_length _ _ _ (handleGenerate_generated w userId from s)) as Hone.
  pose proof (generate_commands_with_allowance userId T calls
                (Bot.sessions_set userId (Bot.mkSession t 1) m)
                (snd (TelegramBot.handleGenerate w userId from s)) t 9) as H.
  etransitivity; [apply H|lia]; [|exact Ht|].
  - unfold Bot.sessions_set. now rewrite Z.eqb_refl.
  - intros c Hc. apply Hall. now right.
Qed.

(** Two [/generate] commands of user 77, one second apart. *)
Lemma bot_generates_witness :
  let w := Demo.steady 0%N 0%float in
  (List.length (tbl_addresses
                  (snd (Bot.generate_commands 77 [(w, 0%Z, no_userData);
                                                  (w, 1000%Z, no_userData)]
                                              (Bot.no_sessions, Demo.one_address))))
   <= 1 + 10)%nat.
Proof.
  exact (bot_generates_at_most_ten_per_window
           77 0 [(Demo.steady 0%N 0%float, 0, no_userData);
                 (Demo.steady 0%N 0%float, 1000, no_userData)]
           Bot.no_sessions Demo.one_address eq_refl
           ltac:(intros c Hc; cbn in Hc;
                 destruct Hc as [<-|[<-|[]]]; cbn; lia)).
Defined.

(* ------------------------------------------------------------------ *)
(** ** Users and addresses *)

Section UsersAndAddresses.

Lemma bind_inl {S A B} (m : M S A) (k : A -> M S B) s b s' :
  bind m k s = (inl b, s') ->
  exists a s1, m s = (inl a, s1) /\ k a s1 = (inl b, s').
Proof.
  unfold bind. destruct (m s) as [[a|e] s1]; [|discriminate].
  intros H. now exists a, s1.
Qed.

Lemma find_some_telegram t (l : list users.row) u :
  find (fun u => users.telegram_id u =? t) l = Some u ->
  In u l /\ users.telegram_id u = t.
Proof.
  intros H. apply find_some in H. destruct H as [Hin Heq].
  split; [exact Hin|]. now apply Z.eqb_eq.
Qed.

Lemma find_app_none {A} (p : A -> bool) l x :
  find p l = None -> find p (l ++ [x]) = if p x then Some x else None.
Proof.
  induction l as [|y l IH]; simpl; [reflexivity|].
  destruct (p y); [discriminate|exact IH].
Qed.

Lemma find_app_other {A} (p : A -> bool) l x :
  p x = false -> find p (l ++ [x]) = find p l.
Proof.
  intros Hx. induction l as [|y l IH]; simpl; [now rewrite Hx|].
  destruct (p y); [reflexivity|exact IH].
Qed.

End UsersAndAddresses.

Section NamesOfAUser.

Variables (t : Z) (n1 n2 n3 : option string).

Lemma with_names_telegram u :
  users.telegram_id (Database.with_names t n1 n2 n3 u) = users.telegram_id u.
Proof. unfold Database.with_names. destruct (users.telegram_id u =? t); reflexivity. Qed.

Lemma with_names_id u : users.id (Database.with_names t n1 n2 n3 u) = users.id u.
Proof. unfold Database.with_names. destruct (users.telegram_id u =? t); reflexivity. Qed.

Lemma find_with_names other l :
  find (fun u => users.telegram_id u =? other) (map (Database.with_names t n1 n2 n3) l)
  = option_map (Database.with_names t n1 n2 n3)
               (find (fun u => users.telegram_id u =? other) l).
Proof.
  induction l as [|u l IH]; cbn [map find option_map]; [reflexivity|].
  rewrite with_names_telegram. destruct (users.telegram_id u =? other); [reflexivity|exact IH].
Qed.

Lemma with_names_other other u :
  other <> t -> users.telegram_id u = other -> Database.with_names t n1 n2 n3 u = u.
Proof.
  intros Hne Hu. unfold Database.with_names.
  destruct (Z.eqb_spec (users.telegram_id u) t); [congruence|reflexivity].
Qed.

End NamesOfAUser.

(** X4.  After [createUser], [getUserByTelegramId] finds a user with that
    Telegram id who carries the names of the call, each as [name || null].
    When the Telegram id was stored already, no row is added and the user
    keeps the id it had, with its names replaced; otherwise the user is a
    new row with the next id.  Either way the call uses up one id.  The
    users found under other Telegram ids are the same as before. *)
Theorem createUser_then_lookup :
  forall telegramId userData s,
    let s1 := snd (Database.createUser telegramId userData s) in
    (exists u,
        Database.getUserByTelegramId telegramId s1 = (inl (Some u), s1)
        /\ users.telegram_id u = telegramId
        /\ users.username u = js_or (data_username userData) None
        /\ users.first_name u = js_or (data_first_name userData) None
        /\ users.last_name u = js_or (data_last_name userData) None
        /\ match find (fun u => users.telegram_id u =? telegramId) (tbl_users s) with
           | Some before =>
               users.id u = users.id before
               /\ map users.id (tbl_users s1) = map users.id (tbl_users s)
               /\ map users.telegram_id (tbl_users s1) = map users.telegram_id (tbl_users s)
           | None =>
               users.id u = users_auto_increment s
               /\ tbl_users s1 = tbl_users s ++ [u]
           end)
    /\ users_auto_increment s1 = users_auto_increment s + 1
    /\ (forall other,
          other <> telegramId ->
          fst (Database.getUserByTelegramId other s1)
          = fst (Database.getUserByTelegramId other s)).
Proof.
  intros telegramId d s s1. subst s1.
  unfold Database.createUser, Database.getUserByTelegramId.
  destruct (find (fun u => users.telegram_id u =? telegramId) (tbl_users s)) as [v|] eqn:Hf.
  - cbn [snd fst tbl_users set_users users_auto_increment]. split; [|split; [lia|]].
    + rewrite find_with_names, Hf. cbn [option_map].
      apply find_some_telegram in Hf. destruct Hf as [_ Hv].
      eexists. split; [reflexivity|].
      unfold Database.with_names at 1 2 3 4. rewrite Hv, Z.eqb_refl.
      cbn [users.telegram_id users.username users.first_name users.last_name].
      repeat (split; [reflexivity|]). rewrite with_names_id.
      split; [reflexivity|]. rewrite !map_map. split; apply map_ext; intros u.
      * apply with_names_id.
      * apply with_names_telegram.
    + intros other Hother. cbn [fst]. rewrite find_with_names.
      destruct (find (fun u => users.telegram_id u =? other) (tbl_users s)) as [u|] eqn:Ho;
        [|reflexivity].
      cbn [option_map]. apply find_some_telegram in Ho. destruct Ho as [_ Hu].
      now rewrite (with_names_other telegramId _ _ _ other u Hother Hu).
  - cbn [snd fst tbl_users set_users users_auto_increment]. split; [|split; [lia|]].
    + rewrite (find_app_none _ _ _ Hf). cbn [users.telegram_id].
      rewrite Z.eqb_refl. eexists. split; [reflexivity|].
      cbn [users.telegram_id users.username users.first_name users.last_name users.id].
      repeat split.
    + intros other Hother. f_equal. apply find_app_other.
      cbn [users.telegram_id]. apply Z.eqb_neq. congruence.
Qed.

(** A run of the theorem above: user 77 of the one-address store starts
    the bot again under a new name; the row keeps id 1.  Creating user 78
    leaves the lookup of user 77 alone. *)
Lemma createUser_then_lookup_witness :
  fst (Database.getUserByTelegramId 77
         (snd (Database.createUser 77 (mkUserData (Some "ada") None (Some ""))
                                   Demo.one_address)))
  = inl (Some (users.mk 1 77 (Some "ada") None None))
  /\ fst (Database.getUserByTelegramId 77
            (snd (Database.createUser 78 no_userData Demo.one_address)))
     = fst (Database.getUserByTelegramId 77 Demo.one_address).
Proof.
  split.
  - destruct (proj1 (createUser_then_lookup 77 (mkUserData (Some "ada") None (Some ""))
                       Demo.one_address))
      as (u & Hfound & Ht & H1 & H2 & H3 & Hid & _).
    rewrite Hfound. cbn [fst]. destruct u as [i tg a b c].
    cbn in Ht, H1, H2, H3, Hid. now subst.
  - exact (proj2 (proj2 (createUser_then_lookup 78 no_userData Demo.one_address)) 77
                 ltac:(discriminate)).
Defined.

Section GenerateRoundTrip.

Lemma try_catch_ret_inl {S A} (m : M S A) (f : Error -> A) s b s' :
  try_catch m (fun e => ret (f e)) s = (inl b, s') ->
  m s = (inl b, s') \/ exists e, m s = (inr e, s') /\ b = f e.
Proof.
  unfold try_catch, ret. destruct (m s) as [[a|e] s1]; intros [= <- <-].
  - now left.
  - right. now exists e.
Qed.

Lemma createAddress_inl owner address enc index label s i s' :
  Database.createAddress owner address enc index label s = (inl i, s') ->
  existsb (fun u => users.id u =? owner) (tbl_users s) = true
  /\ existsb (fun a => String.eqb (addresses.address a) address) (tbl_addresses s) = false
  /\ s' = set_addresses
            (fun r => r ++ [addresses.mk (addresses_auto_increment s) owner address enc
                                          index label true])
            Z.succ s.
Proof.
  unfold Database.createAddress.
  destruct (existsb _ (tbl_users s)); simpl; [|discriminate].
  destruct (existsb _ (tbl_addresses s)); [discriminate|].
  intros [= <- <-]. repeat split.
Qed.

(** The user a generation request works for, and the state in which the
    address is derived. *)
Lemma generate_address_user userId s (found : option users.row) u s1 :
  (match found with
   | Some u => ret (Some u)
   | None => bind (Database.createUser userId no_userData)
                  (fun _ => Database.getUserByTelegramId userId)
   end) s = (inl (Some u), s1) ->
  found = find (fun u => users.telegram_id u =? userId) (tbl_users s) ->
  find (fun u => users.telegram_id u =? userId) (tbl_users s1) = Some u
  /\ tbl_addresses s1 = tbl_addresses s
  /\ addresses_auto_increment s1 = addresses_auto_increment s.
Proof.
  destruct found as [v|].
  - intros [= <- <-] Hf. now rewrite <- Hf.
  - intros H _. apply bind_inl in H. destruct H as (i & s0 & Hc & Hg).
    rewrite getUserByTelegramId_state in Hg. injection Hg as Hg <-.
    pose proof (createUser_keeps_addresses userId no_userData s) as Ha.
    pose proof (createUser_keeps_counter userId no_userData s) as Hi.
    rewrite Hc in Ha, Hi. now split.
Qed.

End GenerateRoundTrip.

(** X5.  When [POST /api/generate-address] answers with an address, an
    index and a label, the addresses table has gained exactly one row, owned
    by the requesting user, holding that address, index and label and the
    encryption of the private key derived at that index; the index is the
    number of active addresses the user had, and [getUserAddresses] now
    returns that row among one more row than the index. *)
Theorem generate_address_reply_is_stored :
  forall w userId label s address i lbl s',
    Server.generate_address w userId label s = (inl (Server.Json address i lbl), s') ->
    exists u wallet c,
      fst (Database.getUserByTelegramId userId s') = inl (Some u)
      /\ users.telegram_id u = userId
      /\ WalletManager.generateHDWallet w i = inl wallet
      /\ address = WalletManager.address wallet
      /\ AES_encrypt w (WalletManager.privateKey wallet) = inl c
      /\ i = active_count (users.id u) s
      /\ lbl = Server.label_or_default label i
      /\ tbl_addresses s'
         = tbl_addresses s
           ++ [addresses.mk (addresses_auto_increment s) (users.id u) address c i lbl true]
      /\ exists rows,
           fst (Database.getUserAddresses w (users.id u) s') = inl rows
           /\ In (addresses.mk (addresses_auto_increment s) (users.id u) address c i lbl true)
                 rows
           /\ Z.of_nat (List.length rows) = i + 1.
Proof.
  intros w userId label s address i lbl s' H.
  unfold Server.generate_address in H. apply try_catch_ret_inl in H.
  destruct H as [H|(e & _ & [=])].
  destruct (userId =? 0); [discriminate|].
  apply bind_inl in H. destruct H as (found & s0 & Hfound & H).
  rewrite getUserByTelegramId_state in Hfound. injection Hfound as Hfound <-.
  apply bind_inl in H. destruct H as (user & s1 & Huser & H).
  destruct user as [u|]; [|discriminate].
  destruct (generate_address_user userId s found u s1 Huser (eq_sym Hfound))
    as (Hu & Ha & Hi).
  apply bind_inl in H. destruct H as (rows & s2 & Hrows & H).
  unfold Database.getUserAddresses in Hrows. injection Hrows as <- <-.
  unfold Server.generate_address_insert in H. cbv zeta in H.
  rewrite order_by_length in H. rewrite Ha in H.
  fold (active_count (users.id u) s) in H.
  apply bind_inl in H. destruct H as (wallet & s2 & Hw & H).
  unfold lift_result in Hw. injection Hw as Hw <-.
  apply bind_inl in H. destruct H as (c & s3 & Hc & H).
  unfold WalletManager.encryptPrivateKey, try_catch, lift_result in Hc.
  destruct (AES_encrypt w (WalletManager.privateKey wallet)) as [c'|e] eqn:Henc;
    [|discriminate]. injection Hc as <- <-.
  apply bind_inl in H. destruct H as (id & s4 & Hins & H).
  unfold ret in H. injection H as <- <- <- <-.
  apply createAddress_inl in Hins. destruct Hins as (_ & _ & ->).
  exists u, wallet, c'. cbn [tbl_addresses set_addresses tbl_users].
  rewrite getUserByTelegramId_state. cbn [fst tbl_users set_addresses].
  rewrite Hu, Ha, Hi.
  split; [reflexivity|]. split; [now apply find_some_telegram in Hu|].
  repeat (split; [reflexivity || assumption|]).
  unfold Database.getUserAddresses. cbn [fst tbl_addresses set_addresses].
  eexists. split; [reflexivity|]. split.
  - apply order_by_In. apply filter_In. split.
    + apply in_or_app. right. now left.
    + cbn [addresses.user_id addresses.is_active]. now rewrite Z.eqb_refl.
  - rewrite order_by_length, Ha, filter_app, length_app.
    cbn [filter addresses.user_id addresses.is_active].
    rewrite Z.eqb_refl. cbn [andb List.length]. unfold active_count. lia.
Qed.

(** A run of the theorem above: a second address for Telegram user 77. *)
Lemma generate_address_reply_witness :
  let r := Server.generate_address (Demo.steady 0%N 0%float) 77 None Demo.one_address in
  fst r = inl (Server.Json "Tseed:abandon ability able|m/44'/195'/0'/0/1" 1 "Address 2")
  /\ exists rows,
       fst (Database.getUserAddresses (Demo.steady 0%N 0%float) 1 (snd r)) = inl rows
       /\ Z.of_nat (List.length rows) = 2.
Proof.
  split; [reflexivity|].
  destruct (generate_address_reply_is_stored
              (Demo.steady 0%N 0%float) 77 None Demo.one_address
              "Tseed:abandon ability able|m/44'/195'/0'/0/1" 1 "Address 2"
              (snd (Server.generate_address (Demo.steady 0%N 0%float) 77 None Demo.one_address))
              eq_refl)
    as (u & wallet & c & Hfound & _ & _ & _ & _ & _ & _ & _ & rows & Hrows & _ & Hn).
  injection Hfound as Hu. subst u.
  exists rows. split; [exact Hrows|exact Hn].
Defined.

(** X6.  The address derived for an index does not depend on the owner, and
    the addresses table refuses an address it already holds: when the
    address derived at the index a user would get next is already stored,
    under whatever owner, [POST /api/generate-address] for that user answers
    500 with the duplicate-entry error and stores nothing. *)
Theorem generate_address_fails_on_taken_address :
  forall w userId label s u wallet c,
    userId <> 0 ->
    find (fun u => users.telegram_id u =? userId) (tbl_users s) = Some u ->
    WalletManager.generateHDWallet w (active_count (users.id u) s) = inl wallet ->
    AES_encrypt w (WalletManager.privateKey wallet) = inl c ->
    existsb (fun a => String.eqb (addresses.address a) (WalletManager.address wallet))
            (tbl_addresses s) = true ->
    Server.generate_address w userId label s
    = (inl (Server.Status500 (ER_DUP_ENTRY "address")), s).
Proof.
  intros w userId label s u wallet c Hid Hu Hw Hc Htaken.
  unfold Server.generate_address, try_catch.
  destruct (Z.eqb_spec userId 0) as [|_]; [contradiction|].
  unfold bind at 1. rewrite getUserByTelegramId_state, Hu.
  unfold bind at 1. unfold ret at 1.
  unfold bind at 1. unfold Database.getUserAddresses.
  unfold Server.generate_address_insert.
  rewrite order_by_length. fold (active_count (users.id u) s).
  unfold bind at 1. unfold lift_result. rewrite Hw.
  unfold bind at 1. unfold WalletManager.encryptPrivateKey, try_catch, lift_result.
  rewrite Hc.
  unfold bind at 1. unfold Database.createAddress.
  assert (FK : existsb (fun x => users.id x =? users.id u) (tbl_users s) = true).
  { apply existsb_exists. exists u. split; [|apply Z.eqb_refl].
    now apply find_some_telegram in Hu. }
  rewrite FK, Htaken. reflexivity.
Qed.

(** Two users with no address yet: the first request takes the address of
    index 0, the second user's request fails on it. *)
Lemma generate_address_taken_witness :
  let w := Demo.steady 0%N 0%float in
  let s := snd (Server.generate_address w 77 None
                  (snd (Database.createUser 78 no_userData
                          (snd (Database.createUser 77 no_userData initial_state))))) in
  owner_indices 1 s = [0]
  /\ Server.generate_address w 78 None s
     = (inl (Server.Status500 (ER_DUP_ENTRY "address")), s).
Proof.
  split; [reflexivity|].
  exact (generate_address_fails_on_taken_address
           (Demo.steady 0%N 0%float) 78 None
           (snd (Server.generate_address (Demo.steady 0%N 0%float) 77 None
                   (snd (Database.createUser 78 no_userData
                           (snd (Database.createUser 77 no_userData initial_state))))))
           (users.mk 2 78 None None None)
           (WalletManager.mkHDWallet "Tseed:abandon ability able|m/44'/195'/0'/0/0"
              "seed:abandon ability able|m/44'/195'/0'/0/0" 0 "m/44'/195'/0'/0/0")
           "U2FsdGVk:seed:abandon ability able|m/44'/195'/0'/0/0"
           ltac:(discriminate) eq_refl eq_refl eq_refl eq_refl).
Defined.



(* ------------------------------------------------------------------ *)
(** ** What a sweep submits *)

Section Submissions.

Variable w : World.

Lemma iteration_events_from a notes :
  forallb is_notification notes = true ->
  Forall (transfer_from w a) (iteration_events w a notes).
Proof.
  intros Hn. unfold iteration_events. constructor; [exact I|].
  destruct (cycle_gate w _); [|constructor].
  destruct (AES_decrypt w (addresses.private_key_encrypted a)) as [pk|e] eqn:Hk;
    [|constructor].
  cbv zeta. constructor; [exact I|].
  apply Forall_app. split; [|apply Forall_app; split].
  - unfold usdt_events. destruct (usdt_gate w _); repeat constructor. exact Hk.
  - unfold trx_events. destruct (trx_gate _); repeat constructor. exact Hk.
  - clear Hk. induction notes as [|e notes IH]; [constructor|].
    simpl in Hn. apply andb_true_iff in Hn. destruct Hn as [He Hn].
    constructor; [|now apply IH]. destruct e; try discriminate. exact I.
Qed.

Lemma loop_events_from addrs :
  forall s,
  exists new,
    trace (snd (for_of addrs (Server.sweepIteration w) s)) = trace s ++ new
    /\ Forall (fun e => exists a, In a addrs /\ transfer_from w a e) new.
Proof.
  induction addrs as [|a addrs IH]; intros s.
  - exists []. split; [simpl; now rewrite app_nil_r|constructor].
  - rewrite loop_cons.
    destruct (IH (snd (Server.sweepIteration w a s))) as (rest & Hrest & Hfrom).
    destruct (sweepIteration_trace w a s) as (notes & Hfirst & Hn).
    exists (iteration_events w a notes ++ rest). split.
    + rewrite Hrest, Hfirst. now rewrite app_assoc.
    + apply Forall_app. split.
      * eapply Forall_impl; [|apply iteration_events_from; exact Hn].
        intros e He. exists a. split; [now left|exact He].
      * eapply Forall_impl; [|exact Hfrom].
        intros e (a' & Hin & He). exists a'. split; [now right|exact He].
Qed.

End Submissions.

(** X8.  Every transfer a sweep cycle submits is signed with the decrypted
    key of one of the active addresses and goes to the master address; token
    transfers run under the fee limit of 100000000. *)
Theorem cycle_transfers_go_to_master :
  forall w s,
  exists new,
    trace (snd (Server.performSweep w s)) = trace s ++ new
    /\ Forall (fun e => exists a,
                   In a (filter addresses.is_active (tbl_addresses s))
                   /\ transfer_from w a e) new.
Proof.
  intros w s.
  destruct (getAllActiveAddresses_error w) as [e|] eqn:He.
  - rewrite (performSweep_fails w s e He). exists []. cbn [snd trace set_sweepStats].
    split; [now rewrite app_nil_r|constructor].
  - rewrite (performSweep_run w s He). cbv zeta. cbn [snd].
    destruct (loop_events_from w (filter addresses.is_active (tbl_addresses s))
                (set_locals (fun _ => mkSweepLocals 0%float [] 0) s))
      as (new & Htr & Hfrom).
    exists new. split; [exact Htr|exact Hfrom].
Qed.

(* ------------------------------------------------------------------ *)
(** ** Balance reads that fail *)

(** A positive number is above zero, so zero does not reach it. *)
Lemma zero_below_positive (m : number) :
  js_gt m 0%float = true -> js_ge 0%float m = false.
Proof.
  unfold js_gt, js_ge. rewrite ltb_spec, leb_spec.
  unfold SFltb, SFleb.
  change (Prim2SF 0) with (S754_zero false).
  destruct (Prim2SF m) as [s|s| |s mm e]; cbn; try discriminate;
    destruct s; cbn; try discriminate; reflexivity.
Qed.

(** X9.  A token balance that cannot be read at the gate counts as zero:
    with a positive minimum sweep amount the address is passed over for the
    cycle, nothing but the read happens and no error is counted. *)
Theorem unreadable_token_balance_is_passed_over :
  forall w a s,
    usdt_balanceOf w AtGate (addresses.address a) = None ->
    js_gt (minSweepAmount w) 0%float = true ->
    Server.sweepIteration w a s
    = (inl tt, set_trace (fun t => t ++ [EvGetAccountInfo AtGate (addresses.address a)]) s).
Proof.
  intros w a s Hread Hmin.
  unfold Server.sweepIteration, try_catch, Server.sweepAddress.
  unfold bind at 1. rewrite getAccountInfo_run.
  change (WalletManager.usdtBalance (balances w AtGate (addresses.address a)))
    with (WalletManager.getUSDTBalance w AtGate (addresses.address a)).
  unfold WalletManager.getUSDTBalance. rewrite Hread.
  rewrite (zero_below_positive _ Hmin). reflexivity.
Qed.

(** A run of the theorem above: the token read of the only address fails. *)
Lemma unreadable_token_balance_witness :
  let w := Demo.world (fun _ _ => Some 20%float) (fun _ _ => None)
                      (fun _ _ _ => Demo.accept "trx-hash")
                      (fun _ _ _ _ => Demo.sent) in
  Server.sweepIteration w Demo.addr1 Demo.one_address
  = (inl tt, set_trace (fun t => t ++ [EvGetAccountInfo AtGate "TAddr1"]) Demo.one_address).
Proof.
  exact (unreadable_token_balance_is_passed_over
           (Demo.world (fun _ _ => Some 20%float) (fun _ _ => None)
                       (fun _ _ _ => Demo.accept "trx-hash")
                       (fun _ _ _ _ => Demo.sent))
           Demo.addr1 Demo.one_address eq_refl eq_refl).
Defined.



(* ------------------------------------------------------------------ *)
(** ** Recording a sweep *)

Section RecordingASweep.

Variable w : World.

Lemma recordSweep_unfold a r s :
  Server.recordSweep w a r s
  = bind (modify (set_locals (fun l =>
            mkSweepLocals (js_add (totalSweptAmount l) (WalletManager.totalSwept r))
                          (sweepTransactions l ++ WalletManager.transactions r)
                          (errorCount l))))
         (fun _ =>
            bind (record_loop w a (WalletManager.transactions r))
                 (fun _ =>
                    bind (Database.getUserByTelegramId (addresses.user_id a))
                         (fun user =>
                            match user with
                            | Some u =>
                                TelegramBot.sendNotification (users.telegram_id u)
                                  (WalletManager.totalSwept r) (addresses.address a)
                                  (List.length (WalletManager.transactions r))
                            | None => ret tt
                            end))) s.
Proof. reflexivity. Qed.

(** The loop writes the rows of the first [k] transactions, in order, and
    stops at the first insert that throws. *)
Lemma record_loop_rows a txs :
  forall s,
  exists k new,
    tbl_transactions (snd (record_loop w a txs s)) = tbl_transactions s ++ new
    /\ Forall2 (row_of_tx w a) (firstn k txs) new
    /\ (raised (record_loop w a txs s) = false -> k = List.length txs)
    /\ (raised (record_loop w a txs s) = true -> (k < List.length txs)%nat).
Proof.
  induction txs as [|tx txs IH]; intros s.
  - exists 0%nat, []. cbn. rewrite app_nil_r.
    split; [reflexivity|]. split; [constructor|]. split; [reflexivity|discriminate].
  - destruct (Database.createTransaction (addresses.id a) (SweepTx.txHash tx)
                (addresses.address a) (MASTER_ADDRESS w) (SweepTx.amount tx)
                (match SweepTx.type tx with
                 | USDT => of_env (USDT_CONTRACT_ADDRESS w)
                 | TRX => SqlNull
                 end) sweep (SweepTx.status tx) s) as [[id|e] s1] eqn:E.
    + assert (Hstep : record_loop w a (tx :: txs) s = record_loop w a txs s1).
      { unfold record_loop. cbn [for_of]. unfold bind at 1. unfold bind at 1.
        now rewrite E. }
      rewrite Hstep.
      pose proof (createTransaction_inl _ _ _ _ _ _ _ _ _ id (f_equal fst E))
        as (h & t & Hh & Ht & _ & _ & _ & _ & Hs1).
      rewrite E in Hs1. cbn [snd] in Hs1.
      destruct (IH s1) as (k & new & Hrows & Hall & Hok & Hbad).
      eexists (S k), (_ :: new). rewrite Hrows. rewrite Hs1 at 1.
      cbn [tbl_transactions set_transactions].
      rewrite <- app_assoc. split; [reflexivity|]. split; [|split].
      * cbn [firstn]. constructor; [|exact Hall]. unfold row_of_tx. cbn.
        now rewrite Hh, Ht.
      * intros Hr. cbn [List.length]. f_equal. now apply Hok.
      * intros Hr. cbn [List.length]. apply -> Nat.succ_lt_mono. now apply Hbad.
    + assert (Hstep : record_loop w a (tx :: txs) s = (inr e, s1)).
      { unfold record_loop. cbn [for_of]. unfold bind at 1. unfold bind at 1.
        now rewrite E. }
      rewrite Hstep.
      pose proof (createTransaction_inr _ _ _ _ _ _ _ _ _ e (f_equal fst E)) as Hs1.
      rewrite E in Hs1. cbn [snd] in Hs1. subst s1.
      exists 0%nat, []. cbn. rewrite app_nil_r.
      split; [reflexivity|]. split; [constructor|]. split; [discriminate|].
      intros _. lia.
Qed.

End RecordingASweep.

(** X11.  [performSweep] adds the total and the transactions of a sweep
    result to the counters of the cycle before it records them.  The rows
    it then writes are those of the first transactions of the result, in
    order, up to the first insert that throws; when one throws, the later
    transactions are not recorded, no notification is sent, and the counters
    still include the whole result. *)
Theorem recordSweep_counts_before_it_records :
  forall w a r s,
    let res := Server.recordSweep w a r s in
    locals (snd res)
    = mkSweepLocals (js_add (totalSweptAmount (locals s)) (WalletManager.totalSwept r))
                    (sweepTransactions (locals s) ++ WalletManager.transactions r)
                    (errorCount (locals s))
    /\ exists k new,
         tbl_transactions (snd res) = tbl_transactions s ++ new
         /\ Forall2 (row_of_tx w a) (firstn k (WalletManager.transactions r)) new
         /\ (raised res = false -> k = List.length (WalletManager.transactions r))
         /\ (raised res = true ->
             (k < List.length (WalletManager.transactions r))%nat
             /\ trace (snd res) = trace s).
Proof.
  intros w a r s res.
  assert (Eres : res = Server.recordSweep w a r s) by reflexivity.
  clearbody res. rewrite recordSweep_unfold in Eres.
  unfold bind at 1 in Eres. unfold modify at 1 in Eres.
  set (s0 := set_locals _ s) in Eres.
  destruct (record_loop_rows w a (WalletManager.transactions r) s0)
    as (k & new & Hrows & Hall & Hok & Hbad).
  pose proof (record_loop_keeps w locals a (WalletManager.transactions r)
                (fun _ _ _ => eq_refl) s0) as Hloc.
  pose proof (record_loop_keeps w trace a (WalletManager.transactions r)
                (fun _ _ _ => eq_refl) s0) as Htr.
  fold (record_loop w a (WalletManager.transactions r)) in Hloc, Htr.
  unfold bind at 1 in Eres.
  destruct (record_loop w a (WalletManager.transactions r) s0) as [[[]|e] s2] eqn:E;
    cbn [snd fst] in *.
  - unfold bind at 1 in Eres. rewrite getUserByTelegramId_state in Eres.
    assert (Hnote : exists notes,
               (match find (fun u => users.telegram_id u =? addresses.user_id a)
                             (tbl_users s2) with
                | Some u =>
                    TelegramBot.sendNotification (users.telegram_id u)
                      (WalletManager.totalSwept r) (addresses.address a)
                      (List.length (WalletManager.transactions r))
                | None => ret tt
                end) s2 = (inl tt, set_trace (fun t => t ++ notes) s2)).
    { destruct (find _ (tbl_users s2)) as [u|].
      - destruct (sendNotification_run (users.telegram_id u) (WalletManager.totalSwept r)
                    (addresses.address a) (List.length (WalletManager.transactions r)) s2)
          as (notes & -> & _). now exists notes.
      - exists []. unfold ret. now rewrite set_trace_nil. }
    destruct Hnote as (notes & Hnote). rewrite Hnote in Eres. subst res.
    cbn [snd locals set_trace tbl_transactions].
    split; [exact Hloc|]. exists k, new.
    split; [exact Hrows|]. split; [exact Hall|]. split; [intros _; now apply Hok|].
    unfold raised. cbn. discriminate.
  - subst res. cbn [snd]. split; [exact Hloc|]. exists k, new.
    split; [exact Hrows|]. split; [exact Hall|]. split; [unfold raised; cbn; discriminate|].
    intros _. split; [now apply Hbad|exact Htr].
Qed.

(** A run of X11: the chain accepts the token transfer but its reply carries
    no transaction id, so the insert throws: the amount is counted, nothing
    is recorded, nothing is notified. *)
Lemma recordSweep_counts_witness :
  let r := WalletManager.mkSweepResult "TAddr1"
             [SweepTx.mk USDT 5%float None pending;
              SweepTx.mk TRX 19%float (Some "trx-hash") pending] 5%float in
  let res := Server.recordSweep (Demo.steady 5000000%N 20%float) Demo.addr1 r Demo.one_address in
  totalSweptAmount (locals (snd res)) = 5%float
  /\ tbl_transactions (snd res) = []
  /\ trace (snd res) = [].
Proof.
  pose proof (recordSweep_counts_before_it_records
                (Demo.steady 5000000%N 20%float) Demo.addr1
                (WalletManager.mkSweepResult "TAddr1"
                   [SweepTx.mk USDT 5%float None pending;
                    SweepTx.mk TRX 19%float (Some "trx-hash") pending] 5%float)
                Demo.one_address) as H.
  cbv zeta in H. destruct H as (Hloc & k & new & _ & _ & _ & Hbad).
  split; [now rewrite Hloc|]. split; [reflexivity|].
  exact (proj2 (Hbad eq_refl)).
Defined.

(* ------------------------------------------------------------------ *)
(** ** The result of [sweepToMasterWallet] *)

Section SweepResultShape.

Variable w : World.

Lemma usdt_records_shape pk info :
  (List.length (fst (usdt_records w pk info)) <= 1)%nat
  /\ Forall (fun tx => SweepTx.type tx = USDT /\ SweepTx.status tx = pending)
            (fst (usdt_records w pk info))
  /\ snd (usdt_records w pk info) = token_total (fst (usdt_records w pk info)).
Proof.
  unfold usdt_records.
  destruct (usdt_gate w info);
    [destruct (usdt_reply w pk info)|];
    cbn [fst snd List.length token_total fold_left SweepTx.type SweepTx.amount].
  - split; [lia|]. split; [repeat constructor|reflexivity].
  - split; [lia|]. split; [constructor|reflexivity].
  - split; [lia|]. split; [constructor|reflexivity].
Qed.

Lemma trx_records_shape pk info :
  (List.length (trx_records w pk info) <= 1)%nat
  /\ Forall (fun tx => SweepTx.type tx = TRX /\ SweepTx.status tx = pending)
            (trx_records w pk info).
Proof.
  unfold trx_records. destruct (trx_gate info); [|cbn; auto].
  destruct (trx_reply w pk info); cbn; repeat split; auto.
Qed.

Lemma token_total_app us ts :
  Forall (fun tx => SweepTx.type tx = TRX /\ SweepTx.status tx = pending) ts ->
  token_total (us ++ ts) = token_total us.
Proof.
  intros Hts. unfold token_total. rewrite fold_left_app.
  generalize (fold_left (fun total tx =>
                           match SweepTx.type tx with
                           | USDT => js_add total (SweepTx.amount tx)
                           | TRX => total
                           end) us 0%float).
  induction Hts as [|t ts [Ht _] _ IHt]; intros total; cbn [fold_left]; [reflexivity|].
  rewrite Ht. apply IHt.
Qed.

End SweepResultShape.

(** X12.  A result of [sweepToMasterWallet] holds at most one token
    transaction followed by at most one native transaction, all pending, for
    the address it was called on, and its [totalSwept] is the sum of the
    token amounts it lists: native amounts are never part of it. *)
Theorem sweep_result_lists_token_then_native :
  forall w a s r,
    fst (WalletManager.sweepToMasterWallet w a s) = inl r ->
    WalletManager.swept_address r = addresses.address a
    /\ (exists us ts,
           WalletManager.transactions r = us ++ ts
           /\ (List.length us <= 1)%nat /\ (List.length ts <= 1)%nat
           /\ Forall (fun tx => SweepTx.type tx = USDT /\ SweepTx.status tx = pending) us
           /\ Forall (fun tx => SweepTx.type tx = TRX /\ SweepTx.status tx = pending) ts)
    /\ WalletManager.totalSwept r = token_total (WalletManager.transactions r).
Proof.
  intros w a s r H. rewrite sweepToMasterWallet_run in H.
  destruct (AES_decrypt w (addresses.private_key_encrypted a)) as [pk|e]; [|discriminate].
  cbv zeta in H. cbn [fst] in H. injection H as <-.
  cbn [WalletManager.swept_address WalletManager.transactions WalletManager.totalSwept].
  set (info := balances w AtSweep (addresses.address a)).
  destruct (usdt_records_shape w pk info) as (Hu1 & Hu2 & Hu3).
  destruct (trx_records_shape w pk info) as (Ht1 & Ht2).
  split; [reflexivity|]. split.
  - exists (fst (usdt_records w pk info)), (trx_records w pk info). repeat split; assumption.
  - rewrite token_total_app by exact Ht2. exact Hu3.
Qed.

(** A run of X12 on the funded address. *)
Lemma sweep_result_witness :
  let r := WalletManager.mkSweepResult "TAddr1"
             [SweepTx.mk USDT 120.5%float None pending;
              SweepTx.mk TRX 19%float (Some "trx-hash") pending] 120.5%float in
  fst (WalletManager.sweepToMasterWallet (Demo.steady 120500000%N 20%float) Demo.addr1
                                         Demo.one_address) = inl r
  /\ WalletManager.totalSwept r = token_total (WalletManager.transactions r).
Proof.
  split; [reflexivity|].
  exact (proj2 (proj2 (sweep_result_lists_token_then_native
                         (Demo.steady 120500000%N 20%float) Demo.addr1 Demo.one_address
                         (WalletManager.mkSweepResult "TAddr1"
                            [SweepTx.mk USDT 120.5%float None pending;
                             SweepTx.mk TRX 19%float (Some "trx-hash") pending] 120.5%float)
                         eq_refl))).
Defined.

(* ------------------------------------------------------------------ *)
(** ** A cycle and the store *)

(** X13.  A sweep cycle whose enumeration of the active addresses succeeds
    completes: it reports success with the number of active addresses it
    checked, adds one to [sweepCount], stamps [lastSweepTime], and adds to
    [errors] the errors it reports, which are between zero and the number of
    addresses checked; [totalSwept] grows by the total it reports.  A cycle
    whose enumeration fails throws the error of the enumeration: it adds one
    to [errors] and changes nothing else, so it submits no transfer, writes
    no row and leaves [sweepCount], [lastSweepTime] and [totalSwept] as they
    were. *)
Theorem performSweep_completes_or_rethrows :
  forall w s,
    let s' := snd (Server.performSweep w s) in
    let active := filter addresses.is_active (tbl_addresses s) in
    match getAllActiveAddresses_error w with
    | None =>
        exists report,
          fst (Server.performSweep w s) = inl report
          /\ Server.SweepReport.success report = true
          /\ Server.SweepReport.addressesChecked report = List.length active
          /\ 0 <= Server.SweepReport.errors report <= Z.of_nat (List.length active)
          /\ SweepStats.errors (sweepStats s')
             = SweepStats.errors (sweepStats s) + Server.SweepReport.errors report
          /\ SweepStats.sweepCount (sweepStats s')
             = SweepStats.sweepCount (sweepStats s) + 1
          /\ SweepStats.lastSweepTime (sweepStats s') = Some (now_iso w)
          /\ SweepStats.totalSwept (sweepStats s')
             = js_add (SweepStats.totalSwept (sweepStats s))
                      (Server.SweepReport.totalSwept report)
    | Some error =>
        fst (Server.performSweep w s) = inr error
        /\ s' = set_sweepStats (fun st =>
                  SweepStats.mk (SweepStats.totalSwept st) (SweepStats.lastSweepTime st)
                                (SweepStats.sweepCount st) (SweepStats.errors st + 1)) s
        /\ trace s' = trace s
        /\ tbl_users s' = tbl_users s
        /\ tbl_addresses s' = tbl_addresses s
        /\ tbl_transactions s' = tbl_transactions s
    end.
Proof.
  intros w s s' active. subst s'.
  destruct (getAllActiveAddresses_error w) as [error|] eqn:He.
  { rewrite (performSweep_fails w s error He). repeat split. }
  rewrite (performSweep_run w s He). cbv zeta. cbn [fst snd].
  fold active. set (s0 := set_locals (fun _ => mkSweepLocals 0%float [] 0) s).
  pose proof (loop_error_bounds w active s0) as Hb.
  pose proof (preserves_for_of sweepStats active (Server.sweepIteration w)
                (fun a => sweepIteration_keeps sweepStats w a
                            (fun _ _ => eq_refl) (fun _ _ => eq_refl)
                            (fun _ _ _ => eq_refl)) s0) as Hst.
  eexists. split; [reflexivity|].
  cbn [Server.SweepReport.success Server.SweepReport.addressesChecked
       Server.SweepReport.errors Server.SweepReport.totalSwept
       sweepStats set_sweepStats SweepStats.errors SweepStats.sweepCount
       SweepStats.lastSweepTime SweepStats.totalSwept].
  rewrite Hst. cbn [s0 sweepStats set_locals locals errorCount] in Hb |- *.
  repeat split; try reflexivity; lia.
Qed.

(** The store is down when the cycle starts: the funded address is not
    looked at, and the error is counted once. *)
Example cycle_with_store_down :
  let w := with_store_error (StoreError "ECONNREFUSED")
                            (Demo.steady 120500000%N 20%float) in
  Server.performSweep w Demo.one_address
  = (inr (StoreError "ECONNREFUSED"),
     set_sweepStats (fun st =>
       SweepStats.mk (SweepStats.totalSwept st) (SweepStats.lastSweepTime st)
                     (SweepStats.sweepCount st) (SweepStats.errors st + 1))
       Demo.one_address)
  /\ trace (snd (Server.performSweep w Demo.one_address)) = [].
Proof. split; reflexivity. Qed.

(* ------------------------------------------------------------------ *)
(** ** Invariants of the tables *)

Section Keeping.

Variable I : State -> Prop.

Lemma keeps_ret {A} (a : A) : keeps I (ret a).
Proof. intros s H; exact H. Qed.

Lemma keeps_throw {A} e : keeps I (@throw State A e).
Proof. intros s H; exact H. Qed.

Lemma keeps_lift_result {A} (r : Result A) : keeps I (lift_result r).
Proof. intros s H; exact H. Qed.

Lemma keeps_modify f : (forall s, I s -> I (f s)) -> keeps I (modify f).
Proof. intros Hf s H. now apply Hf. Qed.

Lemma keeps_bind {A B} (m : M State A) (k : A -> M State B) :
  keeps I m -> (forall a, keeps I (k a)) -> keeps I (bind m k).
Proof.
  intros Hm Hk s H. unfold bind. specialize (Hm s H).
  destruct (m s) as [[a|e] s1]; cbn [snd] in *; [now apply Hk|exact Hm].
Qed.

Lemma keeps_try_catch {A} (m : M State A) (h : Error -> M State A) :
  keeps I m -> (forall e, keeps I (h e)) -> keeps I (try_catch m h).
Proof.
  intros Hm Hh s H. unfold try_catch. specialize (Hm s H).
  destruct (m s) as [[a|e] s1]; cbn [snd] in *; [exact Hm|now apply Hh].
Qed.

Lemma keeps_if {A} (b : bool) (m1 m2 : M State A) :
  keeps I m1 -> keeps I m2 -> keeps I (if b then m1 else m2).
Proof. destruct b; auto. Qed.

Lemma keeps_for_of_in {A} (xs : list A) (body : A -> M State unit) :
  (forall x, In x xs -> keeps I (body x)) -> keeps I (for_of xs body).
Proof.
  induction xs as [|x xs IH]; intros Hb; cbn [for_of].
  - apply keeps_ret.
  - apply keeps_bind; [apply Hb; now left|intros _; apply IH].
    intros y Hy. apply Hb. now right.
Qed.

(** A computation that only reads *)
Lemma keeps_read {A} (m : M State A) : (forall s, snd (m s) = s) -> keeps I m.
Proof. intros Hm s H. now rewrite Hm. Qed.

End Keeping.

Section TablesConsistent.

Lemma createUser_consistent t d : keeps tables_consistent (Database.createUser t d).
Proof.
  intros s (Hh & Ha & Hu & Hft & Hfa). unfold Database.createUser.
  destruct (find _ (tbl_users s)) eqn:Hf.
  - cbn [snd]. unfold tables_consistent, hashes.
    cbn [tbl_users tbl_addresses tbl_transactions set_users].
    repeat split; try assumption.
    + rewrite map_map. erewrite map_ext; [exact Hu|].
      intros u. apply with_names_telegram.
    + eapply Forall_impl; [|exact Hfa]. intros a (u & Hin & Hid).
      eexists. split; [apply in_map; exact Hin|]. now rewrite with_names_id.
  - cbn [snd]. unfold tables_consistent, hashes.
    cbn [tbl_users tbl_addresses tbl_transactions set_users].
    repeat split; try assumption.
    + rewrite map_app. cbn [map users.telegram_id]. apply NoDup_snoc; [exact Hu|].
      intros Hin. apply in_map_iff in Hin. destruct Hin as (u & Ht & Hin).
      pose proof (find_none _ _ Hf u Hin) as Hn. cbn in Hn.
      apply Z.eqb_neq in Hn. contradiction.
    + eapply Forall_impl; [|exact Hfa]. intros a (u & Hin & Hid).
      exists u. split; [apply in_or_app; now left|exact Hid].
Qed.

Lemma createAddress_consistent owner address enc index label :
  keeps tables_consistent (Database.createAddress owner address enc index label).
Proof.
  intros s (Hh & Ha & Hu & Hft & Hfa). unfold Database.createAddress.
  destruct (existsb _ (tbl_users s)) eqn:FK; cbn [negb]; [|repeat split; assumption].
  destruct (existsb _ (tbl_addresses s)) eqn:Hdup; [repeat split; assumption|].
  cbn [snd]. unfold tables_consistent, hashes.
  cbn [tbl_users tbl_addresses tbl_transactions set_addresses].
  repeat split; try assumption.
  - rewrite map_app. cbn [map addresses.address]. apply NoDup_snoc; [exact Ha|].
    apply (not_in_of_existsb addresses.address String.eqb); [apply String.eqb_eq|exact Hdup].
  - eapply Forall_impl; [|exact Hft]. intros r (a & Hin & Hid).
    exists a. split; [apply in_or_app; now left|exact Hid].
  - apply Forall_app. split; [exact Hfa|]. constructor; [|constructor].
    apply existsb_exists in FK. destruct FK as (u & Hin & Hid).
    exists u. split; [exact Hin|]. cbn. apply Z.eqb_eq in Hid. now symmetry.
Qed.

Lemma createTransaction_consistent addressId txHash from to amount contract txType status :
  keeps tables_consistent
        (Database.createTransaction addressId txHash from to amount contract txType status).
Proof.
  intros s Hs.
  destruct (fst (Database.createTransaction addressId txHash from to amount contract
                                            txType status s)) as [id|e] eqn:E.
  - destruct (createTransaction_inl _ _ _ _ _ _ _ _ _ _ E)
      as (h & t & _ & _ & _ & FK & Hfree & _ & ->).
    destruct Hs as (Hh & Ha & Hu & Hft & Hfa). unfold tables_consistent, hashes.
    cbn [tbl_users tbl_addresses tbl_transactions set_transactions].
    repeat split; try assumption.
    + rewrite map_app. cbn [map transactions.tx_hash]. apply NoDup_snoc; [exact Hh|].
      apply (not_in_of_existsb transactions.tx_hash String.eqb);
        [apply String.eqb_eq|exact Hfree].
    + apply Forall_app. split; [exact Hft|]. constructor; [|constructor].
      apply existsb_exists in FK. destruct FK as (a & Hin & Hid).
      exists a. split; [exact Hin|]. cbn. apply Z.eqb_eq in Hid. now symmetry.
  - now rewrite (createTransaction_inr _ _ _ _ _ _ _ _ _ _ E).
Qed.

End TablesConsistent.

(** ** What a sweep cycle keeps *)

Section CycleKeeps.

Variable w : World.
Variable I : State -> Prop.
Hypothesis Htrace : forall f s, I s -> I (set_trace f s).
Hypothesis Hlocals : forall f s, I s -> I (set_locals f s).
Hypothesis Hstats : forall f s, I s -> I (set_sweepStats f s).

Lemma sendNotification_keeps_inv i q ad c :
  keeps I (TelegramBot.sendNotification i q ad c).
Proof.
  intros s H. destruct (sendNotification_run i q ad c s) as (notes & -> & _).
  now apply Htrace.
Qed.

Lemma recordSweep_keeps_inv a r :
  (forall tx, In tx (WalletManager.transactions r) ->
     keeps I (Database.createTransaction (addresses.id a) (SweepTx.txHash tx)
                (addresses.address a) (MASTER_ADDRESS w) (SweepTx.amount tx)
                (match SweepTx.type tx with
                 | USDT => of_env (USDT_CONTRACT_ADDRESS w)
                 | TRX => SqlNull
                 end) sweep (SweepTx.status tx))) ->
  keeps I (Server.recordSweep w a r).
Proof.
  intros Htx. unfold Server.recordSweep.
  apply keeps_bind; [apply keeps_modify; intros; now apply Hlocals|]. intros _.
  apply keeps_bind.
  { apply keeps_for_of_in. intros tx Hin.
    apply keeps_bind; [now apply Htx|intros; apply keeps_ret]. }
  intros _. apply keeps_bind; [apply keeps_read; reflexivity|].
  intros [u|]; [apply sendNotification_keeps_inv|apply keeps_ret].
Qed.

Lemma sweepIteration_keeps_inv a :
  (forall h amount contract,
     keeps I (Database.createTransaction (addresses.id a) h (addresses.address a)
                (MASTER_ADDRESS w) amount contract sweep pending)) ->
  keeps I (Server.sweepIteration w a).
Proof.
  intros Htx. unfold Server.sweepIteration.
  apply keeps_try_catch; [|intros; apply keeps_modify; intros; now apply Hlocals].
  unfold Server.sweepAddress.
  apply keeps_bind.
  { intros s H. rewrite getAccountInfo_run. now apply Htrace. }
  intros info. apply keeps_if; [|apply keeps_ret].
  intros s H. unfold bind at 1. rewrite sweepToMasterWallet_run.
  destruct (AES_decrypt w (addresses.private_key_encrypted a)) as [pk|e]; [|exact H].
  cbv beta iota zeta.
  match goal with |- context [if ?c then _ else _] => destruct c end;
    [|now apply Htrace].
  apply recordSweep_keeps_inv; [|now apply Htrace].
  cbn [WalletManager.transactions]. intros tx Hin.
  assert (Hp : SweepTx.status tx = pending).
  { apply in_app_or in Hin. destruct Hin as [Hin|Hin].
    - destruct (usdt_records_shape w pk (balances w AtSweep (addresses.address a)))
        as (_ & Hall & _).
      rewrite Forall_forall in Hall. now apply Hall.
    - destruct (trx_records_shape w pk (balances w AtSweep (addresses.address a)))
        as (_ & Hall).
      rewrite Forall_forall in Hall. now apply Hall. }
  rewrite Hp. apply Htx.
Qed.

Lemma loop_keeps_inv addrs s :
  (forall a, In a addrs ->
     forall h amount contract,
       keeps I (Database.createTransaction (addresses.id a) h (addresses.address a)
                  (MASTER_ADDRESS w) amount contract sweep pending)) ->
  I s -> I (snd (for_of addrs (Server.sweepIteration w) s)).
Proof.
  intros Htx H. apply keeps_for_of_in; [|exact H].
  intros a Hin. apply sweepIteration_keeps_inv. now apply Htx.
Qed.

Lemma performSweep_keeps_inv s :
  (forall a, In a (filter addresses.is_active (tbl_addresses s)) ->
     forall h amount contract,
       keeps I (Database.createTransaction (addresses.id a) h (addresses.address a)
                  (MASTER_ADDRESS w) amount contract sweep pending)) ->
  I s -> I (snd (Server.performSweep w s)).
Proof.
  intros Htx H.
  destruct (getAllActiveAddresses_error w) as [e|] eqn:He.
  { rewrite (performSweep_fails w s e He). now apply Hstats. }
  rewrite (performSweep_run w s He). cbv zeta. cbn [snd].
  apply Hstats. apply loop_keeps_inv; [exact Htx|now apply Hlocals].
Qed.

End CycleKeeps.

(** ** What the generation handlers keep *)

Section HandlersKeep.

Variable I : State -> Prop.
Hypothesis Hu : forall t d, keeps I (Database.createUser t d).
Hypothesis Ha : forall owner address enc index label,
    keeps I (Database.createAddress owner address enc index label).

Lemma generate_address_insert_keeps_inv w u label rows :
  keeps I (Server.generate_address_insert w u label rows).
Proof.
  unfold Server.generate_address_insert. cbv zeta.
  apply keeps_bind; [apply keeps_lift_result|]. intros walletData.
  apply keeps_bind.
  { unfold WalletManager.encryptPrivateKey.
    apply keeps_try_catch; [apply keeps_lift_result|intros; apply keeps_throw]. }
  intros enc. apply keeps_bind; [apply Ha|intros; apply keeps_ret].
Qed.

Lemma handleGenerate_insert_keeps_inv w owner rows :
  keeps I (TelegramBot.handleGenerate_insert w owner rows).
Proof.
  unfold TelegramBot.handleGenerate_insert. cbv zeta.
  apply keeps_bind; [apply keeps_lift_result|]. intros walletData.
  apply keeps_bind.
  { unfold WalletManager.encryptPrivateKey.
    apply keeps_try_catch; [apply keeps_lift_result|intros; apply keeps_throw]. }
  intros enc. apply keeps_bind; [apply Ha|intros; apply keeps_ret].
Qed.

Lemma generate_address_keeps_inv w userId label :
  keeps I (Server.generate_address w userId label).
Proof.
  unfold Server.generate_address.
  apply keeps_try_catch; [|intros; apply keeps_ret].
  apply keeps_if; [apply keeps_ret|].
  apply keeps_bind; [apply keeps_read; reflexivity|]. intros found.
  apply keeps_bind.
  { destruct found; [apply keeps_ret|].
    apply keeps_bind; [apply Hu|intros; apply keeps_read; reflexivity]. }
  intros [u|]; [|apply keeps_throw].
  apply keeps_bind; [apply keeps_read; reflexivity|]. intros userAddresses.
  apply generate_address_insert_keeps_inv.
Qed.

Lemma handleGenerate_keeps_inv w userId from :
  keeps I (TelegramBot.handleGenerate w userId from).
Proof.
  unfold TelegramBot.handleGenerate.
  apply keeps_try_catch; [|intros; apply keeps_ret].
  apply keeps_bind; [apply keeps_read; reflexivity|]. intros user.
  apply keeps_bind.
  { destruct user; [apply keeps_ret|apply Hu]. }
  intros _. cbv zeta.
  apply keeps_bind; [apply keeps_read; reflexivity|]. intros userAddresses.
  apply handleGenerate_insert_keeps_inv.
Qed.

(** Every command that is not a cycle keeps the invariant. *)
Lemma run_keeps_inv w c s : c <> SweepCycle -> I s -> I (run w c s).
Proof.
  intros Hc H.
  destruct c as [userId label|userId from|userId from| |u label rows|owner rows];
    cbn [run]; [| | |congruence| |].
  - now apply generate_address_keeps_inv.
  - now apply Hu.
  - now apply handleGenerate_keeps_inv.
  - apply keeps_try_catch;
      [apply generate_address_insert_keeps_inv|intros; apply keeps_ret|exact H].
  - apply keeps_try_catch;
      [apply handleGenerate_insert_keeps_inv|intros; apply keeps_ret|exact H].
Qed.

End HandlersKeep.

(** ** The rows a cycle writes *)

Section CycleRows.

Variable w : World.

(** An insert of the loop appends a sweep row of its address, or
    nothing. *)
Lemma insert_appends (addrs : list addresses.row) s a h amount contract :
  In a addrs ->
  keeps (fun s' =>
           tbl_users s' = tbl_users s
           /\ tbl_addresses s' = tbl_addresses s
           /\ exists new,
                tbl_transactions s' = tbl_transactions s ++ new
                /\ Forall (fun r => sweep_row_of addrs r
                                    /\ MASTER_ADDRESS w = Some (transactions.to_address r))
                          new)
        (Database.createTransaction (addresses.id a) h (addresses.address a)
           (MASTER_ADDRESS w) amount contract sweep pending).
Proof.
  intros Hin s0 (Hu & Ha & new & Ht & Hall).
  destruct (fst (Database.createTransaction (addresses.id a) h (addresses.address a)
                   (MASTER_ADDRESS w) amount contract sweep pending s0))
    as [id|e] eqn:E.
  - destruct (createTransaction_inl _ _ _ _ _ _ _ _ _ _ E)
      as (h' & t & _ & Hto & _ & _ & _ & _ & ->).
    cbn [tbl_users tbl_addresses tbl_transactions set_transactions].
    split; [exact Hu|]. split; [exact Ha|].
    eexists (new ++ [_]). rewrite Ht, <- app_assoc. split; [reflexivity|].
    apply Forall_app. split; [exact Hall|]. constructor; [|constructor].
    split; [|exact Hto].
    split; [reflexivity|]. split; [reflexivity|].
    exists a. split; [exact Hin|]. split; reflexivity.
  - rewrite (createTransaction_inr _ _ _ _ _ _ _ _ _ _ E). eauto.
Qed.

Lemma loop_appends addrs s :
  let s' := snd (for_of addrs (Server.sweepIteration w) s) in
  tbl_users s' = tbl_users s
  /\ tbl_addresses s' = tbl_addresses s
  /\ exists new,
       tbl_transactions s' = tbl_transactions s ++ new
       /\ Forall (fun r => sweep_row_of addrs r
                           /\ MASTER_ADDRESS w = Some (transactions.to_address r)) new.
Proof.
  cbv zeta.
  apply (loop_keeps_inv w
           (fun s' =>
              tbl_users s' = tbl_users s
              /\ tbl_addresses s' = tbl_addresses s
              /\ exists new,
                   tbl_transactions s' = tbl_transactions s ++ new
                   /\ Forall (fun r => sweep_row_of addrs r
                                       /\ MASTER_ADDRESS w
                                          = Some (transactions.to_address r)) new)).
  - intros f s0 H; exact H.
  - intros f s0 H; exact H.
  - intros a Hin h amount contract. now apply insert_appends.
  - split; [reflexivity|]. split; [reflexivity|].
    exists []. rewrite app_nil_r. split; [reflexivity|constructor].
Qed.

Lemma performSweep_appends s :
  let s' := snd (Server.performSweep w s) in
  tbl_users s' = tbl_users s
  /\ tbl_addresses s' = tbl_addresses s
  /\ exists new,
       tbl_transactions s' = tbl_transactions s ++ new
       /\ Forall (fun r => sweep_row_of (filter addresses.is_active (tbl_addresses s)) r
                           /\ MASTER_ADDRESS w = Some (transactions.to_address r)) new.
Proof.
  cbv zeta.
  apply (performSweep_keeps_inv w
           (fun s' =>
              tbl_users s' = tbl_users s
              /\ tbl_addresses s' = tbl_addresses s
              /\ exists new,
                   tbl_transactions s' = tbl_transactions s ++ new
                   /\ Forall (fun r =>
                                sweep_row_of (filter addresses.is_active (tbl_addresses s)) r
                                /\ MASTER_ADDRESS w = Some (transactions.to_address r))
                             new)).
  - intros f s0 H; exact H.
  - intros f s0 H; exact H.
  - intros f s0 H; exact H.
  - intros a Hin h amount contract. now apply insert_appends.
  - split; [reflexivity|]. split; [reflexivity|].
    exists []. rewrite app_nil_r. split; [reflexivity|constructor].
Qed.

End CycleRows.

(** X14.  A sweep cycle changes the store only by appending rows to the
    transactions table: the users and the addresses are as before, the rows
    already recorded are untouched, and every new row is a pending sweep
    whose [address_id] and [from_address] are those of one address that was
    active when the cycle began and whose [to_address] is the master
    address. *)
Theorem performSweep_only_appends_sweep_rows :
  forall w s,
    let s' := snd (Server.performSweep w s) in
    tbl_users s' = tbl_users s
    /\ tbl_addresses s' = tbl_addresses s
    /\ exists new,
         tbl_transactions s' = tbl_transactions s ++ new
         /\ Forall (fun r => sweep_row_of (filter addresses.is_active (tbl_addresses s)) r
                             /\ MASTER_ADDRESS w = Some (transactions.to_address r)) new.
Proof. intros w s. apply performSweep_appends. Qed.

(** ** Invariants of the reachable states *)

Section ReachableTables.

Lemma sweep_row_of_incl l l' r : incl l l' -> sweep_row_of l r -> sweep_row_of l' r.
Proof.
  intros Hi (Ht & Hs & a & Hin & Hid & Hfrom).
  split; [exact Ht|]. split; [exact Hs|]. exists a. auto.
Qed.

Lemma grown_incl w s s' : grown w s s' -> incl (tbl_addresses s) (tbl_addresses s').
Proof.
  intros [->|(owner & index & wallet & enc & label & _ & _ & ->)]; [apply incl_refl|].
  apply incl_appl, incl_refl.
Qed.

Lemma createUser_keeps_transactions t d :
  preserves tbl_transactions (Database.createUser t d).
Proof. intro s. unfold Database.createUser. destruct (find _ (tbl_users s)); reflexivity. Qed.

Lemma createAddress_keeps_transactions owner address enc index label :
  preserves tbl_transactions (Database.createAddress owner address enc index label).
Proof.
  intro s. unfold Database.createAddress.
  destruct (negb _); [reflexivity|]. destruct (existsb _ (tbl_addresses s)); reflexivity.
Qed.

(** Only a cycle writes to the transactions table. *)
Lemma run_transactions w c s :
  c <> SweepCycle -> tbl_transactions (run w c s) = tbl_transactions s.
Proof.
  intros Hc.
  apply (run_keeps_inv (fun s' => tbl_transactions s' = tbl_transactions s));
    [| |exact Hc|reflexivity].
  - intros t d s0 H. now rewrite createUser_keeps_transactions.
  - intros owner address enc index lbl s0 H. now rewrite createAddress_keeps_transactions.
Qed.

Lemma reachable_sweep_rows s :
  Reachable s -> Forall (sweep_row_of (tbl_addresses s)) (tbl_transactions s).
Proof.
  induction 1 as [|s w c Hr IH|s w counters addrs Hr IH Hin|s stats Hr IH];
    [constructor| | |exact IH].
  - assert (Hother : c <> SweepCycle ->
                     Forall (sweep_row_of (tbl_addresses (run w c s)))
                            (tbl_transactions (run w c s))).
    { intros Hc. rewrite run_transactions by exact Hc.
      eapply Forall_impl; [|exact IH].
      intros r. apply sweep_row_of_incl, (grown_incl w), run_grown. }
    destruct c; try (apply Hother; discriminate).
    cbn [run]. destruct (performSweep_appends w s) as (_ & Ha & new & -> & Hnew).
    rewrite Ha. apply Forall_app. split; [exact IH|].
    eapply Forall_impl; [|exact Hnew]. intros r [Hrow _].
    eapply sweep_row_of_incl; [|exact Hrow]. apply incl_filter.
  - destruct (loop_appends w addrs (set_locals (fun _ => counters) s))
      as (_ & Ha & new & -> & Hnew).
    rewrite Ha. cbn [tbl_addresses tbl_transactions set_locals].
    apply Forall_app. split; [exact IH|].
    eapply Forall_impl; [|exact Hnew]. intros r [Hrow _].
    eapply sweep_row_of_incl; [|exact Hrow].
    intros a Ha'. apply Hin in Ha'. now apply filter_In in Ha'.
Qed.

Lemma run_consistent w c s : tables_consistent s -> tables_consistent (run w c s).
Proof.
  intros H.
  assert (Hother : c <> SweepCycle -> tables_consistent (run w c s)).
  { intros Hc. apply run_keeps_inv;
      auto using createUser_consistent, createAddress_consistent. }
  destruct c; try (apply Hother; discriminate).
  cbn [run]. apply performSweep_keeps_inv; auto.
  intros; apply createTransaction_consistent.
Qed.

End ReachableTables.

(** X15.  In every state the server can reach, each row of the
    transactions table is a sweep with status pending, and its
    [address_id] and [from_address] are those of one stored address: the
    handlers record nothing but sweeps, and nothing ever changes a status. *)
Theorem every_recorded_transaction_is_a_pending_sweep :
  forall s,
    Reachable s -> Forall (sweep_row_of (tbl_addresses s)) (tbl_transactions s).
Proof. exact reachable_sweep_rows. Qed.

Lemma every_recorded_transaction_witness :
  let w := Demo.steady 5000000%N 3%float in
  let s := run w SweepCycle (run w (ApiGenerateAddress 77 None) initial_state) in
  List.length (tbl_transactions s) = 1%nat
  /\ Forall (sweep_row_of (tbl_addresses s)) (tbl_transactions s).
Proof.
  split; [vm_compute; reflexivity|].
  apply every_recorded_transaction_is_a_pending_sweep.
  apply reach_step, reach_step, reach_initial.
Defined.

(** X16.  In every state the server can reach, no two transactions share a
    hash, no two address rows share an address, no two users share a
    Telegram id, every transaction refers to a stored address and every
    address to a stored user. *)
Theorem reachable_tables_are_consistent :
  forall s, Reachable s -> tables_consistent s.
Proof.
  induction 1 as [|s w c Hr IH|s w counters addrs Hr IH Hin|s stats Hr IH];
    [|now apply run_consistent| |exact IH].
  - repeat split; constructor.
  - apply loop_keeps_inv; auto.
    intros; apply createTransaction_consistent.
Qed.

Lemma reachable_tables_witness :
  let w := Demo.steady 5000000%N 3%float in
  let s := run w SweepCycle
               (run w (ApiGenerateAddress 77 None)
                    (run w (ApiGenerateAddress 77 None) initial_state)) in
  (List.length (tbl_addresses s) = 2%nat /\ List.length (tbl_transactions s) = 1%nat)
  /\ tables_consistent s.
Proof.
  split; [vm_compute; split; reflexivity|].
  apply reachable_tables_are_consistent.
  apply reach_step, reach_step, reach_step, reach_initial.
Defined.

(* ------------------------------------------------------------------ *)
(** ** The weekly clean-up *)

Section CleanUp.

Lemma filter_all {A} (p : A -> bool) (l : list A) :
  Forall (fun x => p x = true) l -> filter p l = l.
Proof.
  induction 1 as [|x l Hx _ IH]; cbn [filter]; [reflexivity|].
  now rewrite Hx, IH.
Qed.

Lemma set_transactions_same f s :
  f (tbl_transactions s) = tbl_transactions s ->
  set_transactions f (fun counter => counter) s = s.
Proof. intros H. destruct s. unfold set_transactions. cbn in *. now rewrite H. Qed.

End CleanUp.

(** X17.  [cleanupOldData] keeps every transaction that is not confirmed,
    however old.  In the states the server can reach no transaction is
    confirmed, so there the clean-up deletes nothing at all. *)
Theorem cleanupOldData_deletes_nothing_the_server_recorded :
  forall expired s,
    (forall r, In r (tbl_transactions s) -> Store.is_confirmed r = false ->
               In r (tbl_transactions (snd (Store.cleanupOldData expired s))))
    /\ (Reachable s -> Store.cleanupOldData expired s = (inl tt, s)).
Proof.
  intros expired s. split.
  - intros r Hin Hc. cbn. apply filter_In. split; [exact Hin|].
    rewrite Hc. now rewrite andb_false_r.
  - intros Hr. unfold Store.cleanupOldData, try_catch, modify.
    rewrite set_transactions_same; [reflexivity|].
    apply filter_all. pose proof (reachable_sweep_rows s Hr) as Hall.
    eapply Forall_impl; [|exact Hall].
    intros r (_ & Hs & _). unfold Store.is_confirmed. rewrite Hs.
    now rewrite andb_false_r.
Qed.

Lemma cleanupOldData_witness :
  let w := Demo.steady 5000000%N 3%float in
  let s := run w SweepCycle (run w (ApiGenerateAddress 77 None) initial_state) in
  List.length (tbl_transactions s) = 1%nat
  /\ Store.cleanupOldData (fun _ => true) s = (inl tt, s).
Proof.
  split; [vm_compute; reflexivity|].
  apply cleanupOldData_deletes_nothing_the_server_recorded.
  apply reach_step, reach_step, reach_initial.
Defined.

(** The clean-up does delete: a confirmed row that is older than 90 days
    goes, the pending one of the same age stays. *)
Example cleanupOldData_deletes_old_confirmed_rows :
  let old := transactions.mk 1 1 "h1" "TAddr1" "TMaster" 5%float None sweep confirmed in
  let open := transactions.mk 2 1 "h2" "TAddr1" "TMaster" 7%float None sweep pending in
  let s := mkState [Demo.user77] [Demo.addr1] [old; open] 2 2 3 []
                   (SweepStats.mk 0%float None 0 0) (mkSweepLocals 0%float [] 0) in
  tbl_transactions (snd (Store.cleanupOldData (fun _ => true) s)) = [open].
Proof. reflexivity. Qed.

(* ------------------------------------------------------------------ *)
(** ** Changing the status of a transaction *)

Section StatusUpdate.

Lemma filter_map_other h status (l : list transactions.row) h' :
  h' <> h ->
  filter (fun r => String.eqb (transactions.tx_hash r) h')
         (map (fun r => if String.eqb (transactions.tx_hash r) h
                        then Store.with_status status r else r) l)
  = filter (fun r => String.eqb (transactions.tx_hash r) h') l.
Proof.
  intros Hne. induction l as [|r l IH]; cbn [map filter]; [reflexivity|].
  destruct (String.eqb (transactions.tx_hash r) h) eqn:E.
  - apply String.eqb_eq in E. cbn [Store.with_status transactions.tx_hash].
    destruct (String.eqb (transactions.tx_hash r) h') eqn:E'.
    + apply String.eqb_eq in E'. congruence.
    + exact IH.
  - destruct (String.eqb (transactions.tx_hash r) h'); [now rewrite IH|exact IH].
Qed.

Lemma map_untouched h status (l : list transactions.row) :
  Database.has_tx_hash h l = false ->
  map (fun r => if String.eqb (transactions.tx_hash r) h
                then Store.with_status status r else r) l = l.
Proof.
  unfold Database.has_tx_hash.
  induction l as [|r l IH]; cbn [map existsb]; [reflexivity|].
  intros H. apply orb_false_iff in H. destruct H as [Hr Hl].
  now rewrite Hr, IH.
Qed.

End StatusUpdate.

(** X18.  After [createTransaction] has stored a record with hash [h],
    [updateTransactionStatus(h, status')] returns normally and the store
    holds exactly one record with that hash: the one inserted, with its
    status replaced and nothing else changed; the records with other hashes,
    the users and the addresses are as they were.  The same update made
    before the insert, when no record carries the hash, returns normally too
    and changes nothing. *)
Theorem updateTransactionStatus_after_insert :
  forall s addressId h from to amount contract txType status id status',
    fst (Database.createTransaction addressId (Some h) from to amount contract txType
                                    status s) = inl id ->
    let s1 := snd (Database.createTransaction addressId (Some h) from to amount contract
                                              txType status s) in
    let s2 := snd (Store.updateTransactionStatus (Some h) status' s1) in
    fst (Store.updateTransactionStatus (Some h) status' s1) = inl tt
    /\ (exists t,
          to = Some t
          /\ rows_with_hash h s2
             = [transactions.mk id addressId h from t amount
                  (match contract with SqlString c => Some c | _ => None end)
                  txType status'])
    /\ (forall h', h' <> h -> rows_with_hash h' s2 = rows_with_hash h' s)
    /\ tbl_users s2 = tbl_users s
    /\ tbl_addresses s2 = tbl_addresses s
    /\ Store.updateTransactionStatus (Some h) status' s = (inl tt, s).
Proof.
  intros s addressId h from to amount contract txType status id status' E s1 s2.
  destruct (createTransaction_inl _ _ _ _ _ _ _ _ _ _ E)
    as (h0 & t & Hh & Ht & _ & _ & Hfree & _ & Hs1).
  injection Hh as <-. subst s2 s1. rewrite Hs1. clear Hs1.
  split; [reflexivity|]. split; [|split; [|split; [|split]]].
  - exists t. split; [exact Ht|].
    unfold rows_with_hash. cbn [Store.updateTransactionStatus try_catch modify snd
                                 tbl_transactions set_transactions].
    rewrite map_app, filter_app. rewrite map_untouched by exact Hfree.
    rewrite (existsb_false_filter_nil _ _ Hfree).
    cbn [map filter transactions.tx_hash app]. rewrite String.eqb_refl.
    cbn [Store.with_status transactions.tx_hash transactions.id transactions.address_id
         transactions.from_address transactions.to_address transactions.amount
         transactions.token_contract transactions.tx_type filter].
    now rewrite String.eqb_refl.
  - intros h' Hne. unfold rows_with_hash.
    cbn [Store.updateTransactionStatus try_catch modify snd
         tbl_transactions set_transactions].
    rewrite filter_map_other by exact Hne.
    rewrite filter_app. cbn [filter transactions.tx_hash].
    destruct (String.eqb h h') eqn:E'; [apply String.eqb_eq in E'; congruence|].
    now rewrite app_nil_r.
  - reflexivity.
  - reflexivity.
  - unfold Store.updateTransactionStatus, try_catch, modify.
    rewrite set_transactions_same; [reflexivity|]. now apply map_untouched.
Qed.

Lemma updateTransactionStatus_witness :
  let s1 := snd (Database.createTransaction 1 (Some "h1") "TAddr1" (Some "TMaster") 5%float
                   SqlNull sweep pending Demo.one_address) in
  let s2 := snd (Store.updateTransactionStatus (Some "h1") confirmed s1) in
  rows_with_hash "h1" s2
  = [transactions.mk 1 1 "h1" "TAddr1" "TMaster" 5%float None sweep confirmed].
Proof.
  pose proof (updateTransactionStatus_after_insert Demo.one_address 1 "h1" "TAddr1"
                (Some "TMaster") 5%float SqlNull sweep pending 1 confirmed eq_refl)
    as (_ & (t & Ht & Hrows) & _).
  injection Ht as <-. exact Hrows.
Defined.

(* ------------------------------------------------------------------ *)
(** ** The history a user is shown *)

Section History.

Lemma joined_rows userId s t a :
  In (t, a)
     (flat_map (fun t =>
                  map (fun a => (t, a))
                      (filter (fun a => (transactions.address_id t =? addresses.id a)
                                        && (addresses.user_id a =? userId))
                              (tbl_addresses s)))
               (tbl_transactions s)) ->
  In t (tbl_transactions s) /\ In a (tbl_addresses s)
  /\ transactions.address_id t = addresses.id a /\ addresses.user_id a = userId.
Proof.
  intros H. apply in_flat_map in H. destruct H as (t0 & Ht0 & H).
  apply in_map_iff in H. destruct H as (a0 & [= <- <-] & Ha0).
  apply filter_In in Ha0. destruct Ha0 as (Ha0 & Hc).
  apply andb_true_iff in Hc. destruct Hc as (H1 & H2).
  apply Z.eqb_eq in H1, H2. auto.
Qed.

Lemma In_firstn {A} n (l : list A) x : In x (firstn n l) -> In x l.
Proof.
  revert l. induction n as [|n IH]; intros [|y l]; cbn [firstn]; try contradiction.
  intros [->|H]; [now left|right; now apply IH].
Qed.

End History.

(** X19.  [handleHistory] changes nothing in the store.  It answers "user
    not found" exactly when no user has the sender's Telegram id.  When it
    answers with a list, the count in the header is between 1 and 20, the
    list has the smaller of that count and 10 entries, and every entry is a
    stored transaction of a stored address whose [user_id] is the id of the
    sender's user row. *)
Theorem handleHistory_shows_only_the_senders_rows :
  forall w userId s,
    snd (Bot.handleHistory w userId s) = s
    /\ (fst (Bot.handleHistory w userId s) = inl Bot.HistoryUserNotFound
        <-> find (fun u => users.telegram_id u =? userId) (tbl_users s) = None)
    /\ forall count shown,
         fst (Bot.handleHistory w userId s) = inl (Bot.HistoryList count shown) ->
         (1 <= count <= 20)%nat
         /\ List.length shown = Nat.min count 10
         /\ exists u,
              find (fun u => users.telegram_id u =? userId) (tbl_users s) = Some u
              /\ Forall (fun ta =>
                           In (fst ta) (tbl_transactions s)
                           /\ In (snd ta) (tbl_addresses s)
                           /\ transactions.address_id (fst ta) = addresses.id (snd ta)
                           /\ addresses.user_id (snd ta) = users.id u)
                        shown.
Proof.
  intros w userId s.
  unfold Bot.handleHistory, try_catch, bind.
  rewrite getUserByTelegramId_state.
  destruct (find (fun u => users.telegram_id u =? userId) (tbl_users s)) as [u|] eqn:Hf.
  - cbn [Store.getTransactionsByUser].
    set (rows := firstn 20 _).
    assert (Hlen : (List.length rows <= 20)%nat) by apply firstn_le_length.
    assert (Hrows : forall ta, In ta rows ->
               In (fst ta) (tbl_transactions s) /\ In (snd ta) (tbl_addresses s)
               /\ transactions.address_id (fst ta) = addresses.id (snd ta)
               /\ addresses.user_id (snd ta) = users.id u).
    { intros [t a] Hin. apply In_firstn in Hin. apply order_by_In in Hin.
      now apply joined_rows in Hin. }
    destruct (List.length rows =? 0)%nat eqn:E0; cbn [ret fst snd].
    + split; [reflexivity|]. split; [split; discriminate|]. discriminate.
    + apply Nat.eqb_neq in E0.
      split; [reflexivity|]. split; [split; discriminate|].
      intros count shown [= <- <-].
      split; [lia|]. split; [rewrite length_firstn; lia|].
      exists u. split; [reflexivity|].
      apply Forall_forall. intros ta Hin. apply Hrows. now apply In_firstn in Hin.
  - cbn [ret fst snd]. split; [reflexivity|]. split; [split; reflexivity|]. discriminate.
Qed.

Lemma handleHistory_witness :
  let w := Demo.steady 5000000%N 3%float in
  let s := run w SweepCycle (run w (ApiGenerateAddress 77 None) initial_state) in
  exists shown,
    fst (Bot.handleHistory w 77 s) = inl (Bot.HistoryList 1 shown)
    /\ List.length shown = 1%nat.
Proof.
  intros w s.
  assert (E : exists shown,
             fst (Bot.handleHistory w 77 s) = inl (Bot.HistoryList 1 shown))
    by (eexists; vm_compute; reflexivity).
  destruct E as (shown & E). exists shown. split; [exact E|].
  exact (proj1 (proj2 (proj2 (proj2 (handleHistory_shows_only_the_senders_rows w 77 s))
                         1%nat shown E))).
Defined.

(* ------------------------------------------------------------------ *)
(** ** The manual sweep route *)

(** X20.  [POST /api/sweep] answers 401 and leaves the state as it is,
    without any transfer, when the [adminKey] of the body is not strictly
    equal to [ADMIN_API_KEY]; otherwise it runs one sweep cycle, and the
    state is the one the cycle leaves.  It then answers with the report of
    the cycle when the store enumerates the active addresses, and with
    status 500 and the error of the enumeration when the store fails to.
    When [ADMIN_API_KEY] is not set, a body without [adminKey] passes the
    comparison, and the cycle runs. *)
Theorem api_sweep_runs_the_cycle_unless_the_keys_differ :
  forall ADMIN_API_KEY w adminKey s,
    (Admin.differs adminKey ADMIN_API_KEY = true ->
     Admin.api_sweep ADMIN_API_KEY w adminKey s = (inl Admin.Status401, s))
    /\ (Admin.differs adminKey ADMIN_API_KEY = false ->
        match getAllActiveAddresses_error w with
        | None =>
            exists report,
              fst (Server.performSweep w s) = inl report
              /\ Admin.api_sweep ADMIN_API_KEY w adminKey s
                 = (inl (Admin.SweepDone report), snd (Server.performSweep w s))
        | Some error =>
            fst (Server.performSweep w s) = inr error
            /\ Admin.api_sweep ADMIN_API_KEY w adminKey s
               = (inl (Admin.SweepFailed error), snd (Server.performSweep w s))
        end)
    /\ (exists answer,
          Admin.api_sweep None w Admin.Missing s
          = (inl answer, snd (Server.performSweep w s))
          /\ answer <> Admin.Status401).
Proof.
  intros key w adminKey s.
  assert (Hrun : forall k b, Admin.differs b k = false ->
            match getAllActiveAddresses_error w with
            | None =>
                exists report,
                  fst (Server.performSweep w s) = inl report
                  /\ Admin.api_sweep k w b s
                     = (inl (Admin.SweepDone report), snd (Server.performSweep w s))
            | Some error =>
                fst (Server.performSweep w s) = inr error
                /\ Admin.api_sweep k w b s
                   = (inl (Admin.SweepFailed error), snd (Server.performSweep w s))
            end).
  { intros k b Hd. unfold Admin.api_sweep, try_catch. rewrite Hd. unfold bind.
    destruct (getAllActiveAddresses_error w) as [error|] eqn:He.
    - rewrite (performSweep_fails w s error He). split; reflexivity.
    - rewrite (performSweep_run w s He). cbv zeta. eexists. split; reflexivity. }
  split; [|split].
  - intros Hd. unfold Admin.api_sweep, try_catch. now rewrite Hd.
  - apply Hrun.
  - pose proof (Hrun None Admin.Missing eq_refl) as H.
    destruct (getAllActiveAddresses_error w) as [error|].
    + destruct H as (_ & H). eexists. split; [exact H|discriminate].
    + destruct H as (report & _ & H). eexists. split; [exact H|discriminate].
Qed.

(** Three requests on the one-address store: a wrong key, the right key,
    and the right key while the store is down. *)
Lemma api_sweep_witness :
  let w := Demo.steady 120500000%N 20%float in
  let down := with_store_error (StoreError "ECONNREFUSED") w in
  (Admin.api_sweep (Some "secret") w (Admin.Text "guess") Demo.one_address
   = (inl Admin.Status401, Demo.one_address))
  /\ (exists report,
        Admin.api_sweep (Some "secret") w (Admin.Text "secret") Demo.one_address
        = (inl (Admin.SweepDone report), snd (Server.performSweep w Demo.one_address)))
  /\ Admin.api_sweep (Some "secret") down (Admin.Text "secret") Demo.one_address
     = (inl (Admin.SweepFailed (StoreError "ECONNREFUSED")),
        snd (Server.performSweep down Demo.one_address))
  /\ usdt_submissions
       (trace (snd (Admin.api_sweep None w Admin.Missing Demo.one_address)))
     = [120500000%float].
Proof.
  split; [|split; [|split]].
  - exact (proj1 (api_sweep_runs_the_cycle_unless_the_keys_differ
                    (Some "secret") (Demo.steady 120500000%N 20%float) (Admin.Text "guess")
                    Demo.one_address) eq_refl).
  - destruct (proj1 (proj2 (api_sweep_runs_the_cycle_unless_the_keys_differ
                    (Some "secret") (Demo.steady 120500000%N 20%float) (Admin.Text "secret")
                    Demo.one_address)) eq_refl) as (report & _ & H).
    exists report. exact H.
  - exact (proj2 (proj1 (proj2 (api_sweep_runs_the_cycle_unless_the_keys_differ
                    (Some "secret")
                    (with_store_error (StoreError "ECONNREFUSED")
                                      (Demo.steady 120500000%N 20%float))
                    (Admin.Text "secret") Demo.one_address)) eq_refl)).
  - vm_compute. reflexivity.
Defined.

(* ------------------------------------------------------------------ *)
(** ** Whom a cycle notifies *)

Section Notifications.

Variable w : World.

Lemma sendNotification_cases i q ad c s :
  TelegramBot.sendNotification i q ad c s
  = (inl tt,
     set_trace (fun t => t ++ match find (fun u => users.telegram_id u =? i) (tbl_users s) with
                             | Some _ => [EvNotify i q ad c]
                             | None => []
                             end) s).
Proof.
  unfold TelegramBot.sendNotification, try_catch, bind.
  rewrite getUserByTelegramId_state.
  destruct (find _ (tbl_users s)); [reflexivity|].
  unfold ret. now rewrite set_trace_nil.
Qed.

Lemma recordSweep_notes a r s :
  exists notes,
    trace (snd (Server.recordSweep w a r s)) = trace s ++ notes
    /\ Forall (notifies (tbl_users s) a) notes.
Proof.
  rewrite recordSweep_unfold.
  unfold bind at 1. unfold modify at 1.
  unfold bind at 1.
  set (s0 := set_locals _ s).
  pose proof (record_loop_keeps w trace a (WalletManager.transactions r)
                (fun _ _ _ => eq_refl) s0) as Htr.
  pose proof (record_loop_keeps w tbl_users a (WalletManager.transactions r)
                (fun _ _ _ => eq_refl) s0) as Hus.
  fold (record_loop w a (WalletManager.transactions r)) in Htr, Hus.
  destruct (record_loop w a (WalletManager.transactions r) s0) as [[[]|e] s2];
    cbn [snd] in Htr, Hus.
  - unfold bind. rewrite getUserByTelegramId_state.
    destruct (find _ (tbl_users s2)) as [u|] eqn:Hf.
    + rewrite sendNotification_cases. cbn [snd trace set_trace].
      eexists. split; [rewrite Htr; reflexivity|].
      destruct (find_some _ _ Hf) as (Hin & Hid). apply Z.eqb_eq in Hid.
      match goal with |- Forall _ (match ?f with _ => _ end) => destruct f end;
        [|constructor].
      constructor; [|constructor].
      cbn. split; [exact Hid|]. split; [reflexivity|].
      exists u. split; [|exact Hid]. rewrite Hus in Hin. exact Hin.
    + exists []. cbn [snd ret]. rewrite app_nil_r. split; [exact Htr|constructor].
  - exists []. cbn [snd]. rewrite app_nil_r. split; [exact Htr|constructor].
Qed.

Lemma sweepIteration_notes a s :
  exists new,
    trace (snd (Server.sweepIteration w a s)) = trace s ++ new
    /\ Forall (notifies (tbl_users s) a) new.
Proof.
  destruct (sweepIteration_trace w a s) as (notes0 & Htrace & _).
  assert (Hcatch : forall r : Result unit * State,
             trace (snd (match r with
                         | (inl x, s') => (inl x, s')
                         | (inr _, s') =>
                             modify (set_locals (fun l =>
                               mkSweepLocals (totalSweptAmount l) (sweepTransactions l)
                                             (errorCount l + 1))) s'
                         end)) = trace (snd r)).
  { intros [[x|e] s']; reflexivity. }
  unfold Server.sweepIteration, try_catch. rewrite Hcatch. clear Hcatch Htrace notes0.
  unfold Server.sweepAddress.
  unfold bind at 1. rewrite getAccountInfo_run.
  destruct (js_ge _ (minSweepAmount w)).
  - unfold bind at 1. rewrite sweepToMasterWallet_run.
    destruct (AES_decrypt w (addresses.private_key_encrypted a)) as [pk|e].
    + cbv beta iota zeta.
      assert (Hquiet : Forall (notifies (tbl_users s) a)
                (usdt_events w pk (balances w AtSweep (addresses.address a))
                 ++ trx_events w pk (balances w AtSweep (addresses.address a)))).
      { apply Forall_app. split.
        - unfold usdt_events. destruct (usdt_gate w _); repeat constructor.
        - unfold trx_events. destruct (trx_gate _); repeat constructor. }
      match goal with |- context [if ?c then _ else _] => destruct c end.
      * match goal with |- context [Server.recordSweep w a ?r ?s0] =>
          destruct (recordSweep_notes a r s0) as (notes & -> & Hn) end.
        cbn [trace set_trace tbl_users] in Hn |- *.
        eexists. rewrite <- !app_assoc. split; [reflexivity|].
        constructor; [exact I|]. constructor; [exact I|].
        apply Forall_app. split; [exact Hquiet|exact Hn].
      * cbn [snd ret trace set_trace].
        eexists. rewrite <- !app_assoc. split; [reflexivity|].
        constructor; [exact I|]. constructor; [exact I|]. exact Hquiet.
    + cbn [snd trace set_trace]. eexists. split; [reflexivity|]. repeat constructor.
  - cbn [snd ret trace set_trace]. eexists. split; [reflexivity|]. repeat constructor.
Qed.

Lemma loop_notes addrs :
  forall s,
  exists new,
    trace (snd (for_of addrs (Server.sweepIteration w) s)) = trace s ++ new
    /\ Forall (fun e => exists a, In a addrs /\ notifies (tbl_users s) a e) new.
Proof.
  induction addrs as [|a addrs IH]; intros s.
  - exists []. split; [simpl; now rewrite app_nil_r|constructor].
  - rewrite loop_cons.
    destruct (IH (snd (Server.sweepIteration w a s))) as (rest & Hrest & Hfrom).
    destruct (sweepIteration_notes a s) as (first & Hfirst & Hn).
    rewrite (sweepIteration_keeps tbl_users w a (fun _ _ => eq_refl) (fun _ _ => eq_refl)
               (fun _ _ _ => eq_refl) s) in Hfrom.
    exists (first ++ rest). split.
    + rewrite Hrest, Hfirst. now rewrite app_assoc.
    + apply Forall_app. split.
      * eapply Forall_impl; [|exact Hn].
        intros e He. exists a. split; [now left|exact He].
      * eapply Forall_impl; [|exact Hfrom].
        intros e (a' & Hin & He). exists a'. split; [now right|exact He].
Qed.

End Notifications.

(** X21.  The notification of a sweep is addressed through the [user_id]
    column of the swept address: [performSweep] looks up the user whose
    Telegram id equals that column and notifies that Telegram id.  So every
    notification of a cycle is about an active address, and goes to a stored
    user whose Telegram id is the [user_id] of that address. *)
Theorem sweep_notification_goes_to_telegram_id_equal_to_user_id :
  forall w s,
  exists new,
    trace (snd (Server.performSweep w s)) = trace s ++ new
    /\ Forall (fun e => exists a,
                   In a (filter addresses.is_active (tbl_addresses s))
                   /\ notifies (tbl_users s) a e) new.
Proof.
  intros w s.
  destruct (getAllActiveAddresses_error w) as [e|] eqn:He.
  - rewrite (performSweep_fails w s e He). exists []. cbn [snd trace set_sweepStats].
    split; [now rewrite app_nil_r|constructor].
  - rewrite (performSweep_run w s He). cbv zeta. cbn [snd].
    destruct (loop_notes w (filter addresses.is_active (tbl_addresses s))
                (set_locals (fun _ => mkSweepLocals 0%float [] 0) s))
      as (new & Htr & Hfrom).
    exists new. split; [exact Htr|exact Hfrom].
Qed.

(** The owner of [Demo.addr1] is the user of row 1, whose Telegram id is 77:
    the sweep of its native balance is recorded, and nobody is notified.
    Once a second user has Telegram id 1, the notification of the same
    sweep goes to that user. *)
Example sweep_of_owner_77_notifies_nobody :
  let s' := snd (Server.performSweep (Demo.steady 5000000%N 3%float) Demo.one_address) in
  List.length (tbl_transactions s') = 1%nat
  /\ filter is_notification (trace s') = [].
Proof. vm_compute. split; reflexivity. Qed.

Example sweep_of_owner_77_notifies_telegram_id_1 :
  let s := set_users (fun r => r ++ [users.mk 2 1 None None None]) Z.succ
                     Demo.one_address in
  let s' := snd (Server.performSweep (Demo.steady 5000000%N 3%float) s) in
  filter is_notification (trace s') = [EvNotify 1 0%float "TAddr1" 1].
Proof. vm_compute. reflexivity. Qed.

(* ------------------------------------------------------------------ *)
(** ** Derivation under a configured mnemonic *)

(** X22.  With a mnemonic configured, [generateHDWallet] does not depend on
    what the random generator would draw: two calls with the same index
    return the same wallet, or throw the same error.  A wallet it returns
    carries the index it was asked for and the path [m/44'/195'/0'/0/]
    followed by that index, so the wallets of different indices have
    different paths; their keys are the children of one master key at those
    paths. *)
Theorem configured_mnemonic_derivation_is_repeatable :
  forall w,
    mnemonic_absent w = false ->
    (forall g i,
        WalletManager.generateHDWallet (with_generated_mnemonic g w) i
        = WalletManager.generateHDWallet w i)
    /\ (forall i r,
          WalletManager.generateHDWallet w i = inl r ->
          WalletManager.derivationIndex r = i
          /\ WalletManager.derivationPath r
             = String.append "m/44'/195'/0'/0/" (WalletManager.template_literal i))
    /\ (forall i j ri rj,
          i <> j ->
          WalletManager.generateHDWallet w i = inl ri ->
          WalletManager.generateHDWallet w j = inl rj ->
          WalletManager.derivationPath ri <> WalletManager.derivationPath rj
          /\ exists hdkey,
               hdkey_derive w hdkey (WalletManager.derivationPath ri)
               = inl (WalletManager.privateKey ri)
               /\ hdkey_derive w hdkey (WalletManager.derivationPath rj)
                  = inl (WalletManager.privateKey rj)).
Proof.
  intros w Hseed. split; [|split].
  - intros g i. unfold WalletManager.generateHDWallet.
    fold (mnemonic_in_use (with_generated_mnemonic g w)). fold (mnemonic_in_use w).
    rewrite mnemonic_in_use_configured by exact Hseed. reflexivity.
  - intros i r Hr.
    destruct (generateHDWallet_steps w i r Hr) as (_ & _ & _ & _ & _ & _ & Hp & Hi).
    split; [exact Hi|exact Hp].
  - intros i j ri rj Hij Hi Hj.
    destruct (generateHDWallet_steps w i ri Hi) as (si & hi & Hsi & Hhi & Hki & _ & Hpi & _).
    destruct (generateHDWallet_steps w j rj Hj) as (sj & hj & Hsj & Hhj & Hkj & _ & Hpj & _).
    split.
    + rewrite Hpi, Hpj. intros H. apply Hij. now apply derivation_path_inj.
    + rewrite Hsi in Hsj. injection Hsj as <-. rewrite Hhi in Hhj. injection Hhj as <-.
      exists hi. split; assumption.
Qed.

(** A run of the theorem above: index 0 under two different draws, and the
    paths of indices 0 and 1. *)
Lemma configured_mnemonic_derivation_witness :
  let w := Demo.steady 0%N 0%float in
  WalletManager.generateHDWallet (with_generated_mnemonic "other draw" w) 0
  = WalletManager.generateHDWallet w 0
  /\ "m/44'/195'/0'/0/0" <> "m/44'/195'/0'/0/1".
Proof.
  pose proof (configured_mnemonic_derivation_is_repeatable
                (Demo.steady 0%N 0%float) eq_refl) as H.
  split.
  - exact (proj1 H "other draw" 0).
  - exact (proj1 (proj2 (proj2 H) 0 1
                   (WalletManager.mkHDWallet "Tseed:abandon ability able|m/44'/195'/0'/0/0"
                      "seed:abandon ability able|m/44'/195'/0'/0/0" 0 "m/44'/195'/0'/0/0")
                   (WalletManager.mkHDWallet "Tseed:abandon ability able|m/44'/195'/0'/0/1"
                      "seed:abandon ability able|m/44'/195'/0'/0/1" 1 "m/44'/195'/0'/0/1")
                   ltac:(discriminate) eq_refl eq_refl)).
Defined.
